(** * Armor Alley: collision / targeting core and helicopter AI ledger

    A shallow embedding of the parts of [core/logic.js], [core/global.js]
    and [units/Helicopter-AI.js] that the specification makes claims about,
    followed by the theorems that settle those claims.

    Numbers.  A JavaScript number is modelled by the rational it denotes
    ([Q]; NaN and the infinities are outside the model): [+], [-], [*],
    [/], [Math.abs], [Math.max], [Math.min] are the exact operations and
    comparisons are the exact order, where the engine rounds every result
    to the nearest double.  The statements below are worded so that they do
    not rest on that difference: they compare the same expressions that the
    code compares, or carry the bound under which the code's arithmetic is
    exact.  Where the code depends on the double itself - the digits that
    [parseInt] reads from a printed number, a counter or a seed that stops
    growing at 2^53 - the rounding is part of the definition. *)

From Stdlib Require Import ZArith QArith Qround Qabs Qminmax Lia List.
From Stdlib Require Import String Ascii Sorted Permutation Lqa.
From stdpp Require Import gmap strings list fin_maps.
Import ListNotations.

Local Open Scope string_scope.
Local Open Scope list_scope.
Local Open Scope Z_scope.
Local Open Scope Q_scope.

(* ===================================================================== *)
(** * Part I: definitions                                                 *)
(* ===================================================================== *)

(** ** JavaScript values used by the embedded functions *)

(** Functions such as [collisionCheckTweens] return [true], [false] or fall
    off with a bare [return;] ([undefined]). *)
Inductive JsBool : Type :=
| JUndefined
| JFalse
| JTrue.

Definition truthy (r : JsBool) : bool :=
  match r with JTrue => true | _ => false end.

Definition ofBool (b : bool) : JsBool := if b then JTrue else JFalse.

(** Normal completion or a thrown exception (TypeError on reading a
    property of [undefined]). *)
Inductive Completion (A : Type) : Type :=
| Normal (a : A)
| Throw (msg : string).
Arguments Normal {A} a.
Arguments Throw {A} msg.

Definition isThrow {A} (c : Completion A) : bool :=
  match c with Throw _ => true | Normal _ => false end.

(** Comparison operators on numbers. *)
Definition ltb (a b : Q) : bool :=
  match a ?= b with Lt => true | _ => false end.
Definition gtb (a b : Q) : bool := ltb b a.
Definition geb (a b : Q) : bool := negb (ltb a b).
Definition leb (a b : Q) : bool := negb (ltb b a).
Definition eqb (a b : Q) : bool := Qeq_bool a b.

(** Truthiness of a number: everything but 0 (NaN is outside the model). *)
Definition truthyNum (a : Q) : bool := negb (Qeq_bool a 0).

(** ** Doubles among the rationals *)

(** The [e] with [2^e <= a < 2^(e+1)], for [a > 0]. *)
Definition floorLog2 (a : Q) : Z :=
  let e := (Z.log2 (Qnum a) - Z.log2 (Zpos (Qden a)))%Z in
  if Qle_bool (2 ^ e) a then e else (e - 1)%Z.

(** The nearest integer, ties to even, of [q >= 0]. *)
Definition roundHalfEven (q : Q) : Z :=
  let f := Qfloor q in
  match Qcompare (q - inject_Z f) (1 # 2) with
  | Lt => f
  | Gt => (f + 1)%Z
  | Eq => if Z.even f then f else (f + 1)%Z
  end.

(** The double nearest to [q] (IEEE 754 binary64, round to nearest, ties to
    even; 53 significant bits, subnormal below 2^-1022; overflow to an
    infinity is outside the model). *)
Definition roundDouble (q : Q) : Q :=
  if Qeq_bool q 0 then 0
  else
    let a := Qabs q in
    let u := (Z.max (floorLog2 a) (-1022) - 52)%Z in
    let m := inject_Z (roundHalfEven (a / 2 ^ u)) * 2 ^ u in
    Qred (if Qle_bool 0 q then m else - m).

(** [2^53]: up to it every integer is a double, so that [i + 1] is exact;
    at it, [i + 1] rounds back to [i]. *)
Definition maxExactInteger : Z := 9007199254740992.

(** The [n] with [10^n <= a < 10^(n+1)], for [a > 0]. *)
Definition floorLog10 (a : Q) : Z :=
  let e := (floorLog2 a * 30103 / 100000)%Z in
  if Qle_bool (10 ^ (e + 1)) a then (e + 1)%Z
  else if Qle_bool (10 ^ e) a then e
  else (e - 1)%Z.

(** The decimal that [Number::toString] prints for a double [a > 0]: of the
    decimals [s * 10^(n-k)] that read back as [a], one with the fewest
    digits [k], the nearest to [a] among those ([s] even on a tie).  Up to 17
    digits are needed. *)
Fixpoint shortestFrom (fuel : nat) (k : Z) (a : Q) : Q :=
  let unit := 10 ^ (floorLog10 a - k + 1) in
  let s := Qfloor (a / unit) in
  let lo := inject_Z s * unit in
  let hi := inject_Z (s + 1) * unit in
  let okLo := Qeq_bool (roundDouble lo) a in
  let okHi := Qeq_bool (roundDouble hi) a in
  if okLo && okHi then
    match Qcompare (a - lo) (hi - a) with
    | Lt => lo
    | Gt => hi
    | Eq => if Z.even s then lo else hi
    end
  else if okLo then lo
  else if okHi then hi
  else match fuel with
       | O => a
       | S fuel' => shortestFrom fuel' (k + 1)%Z a
       end.

Definition printedValue (a : Q) : Q := shortestFrom 17 1%Z a.

(** [parseInt(n, 10)] on a number: the number is printed and the digits up
    to the first character that is not a digit are read back.  A number
    printed in decimal notation (1e-6 <= |n| < 1e21) gives its integer
    part; one printed in exponent notation (['5.96e-8'], ['1e+21']) gives
    its first digit. *)
Definition parseInt10 (q : Q) : Q :=
  if Qeq_bool q 0 then 0
  else
    let d := printedValue (Qabs q) in
    (* the decimal point follows the [n]-th digit *)
    let n := (floorLog10 d + 1)%Z in
    let r :=
      if ((-6 <? n) && (n <=? 21))%Z
      then roundDouble (inject_Z (Qfloor d))
      else inject_Z (Qfloor (d / 10 ^ (n - 1))) in
    Qred (if Qle_bool 0 q then r else - r).

Arguments roundDouble : simpl never.
Arguments printedValue : simpl never.
Arguments parseInt10 : simpl never.

(** ** Unit data ([exports.data] of a game object) *)

Record UnitData : Type := mkUnitData {
  id : string;
  type : string;
  x : Q;
  y : Q;
  width : Q;
  height : Q;
  vX : Q;
  vY : Q;
  dead : bool;
  isInert : bool;
  expired : bool;
  hostile : bool;
  isEnemy : bool;
  isNeutral : bool;
  excludeFromCollision : bool;
  cloaked : bool;
  flipped : bool;
  bottomAligned : bool;
  (* infantry role: 0 = infantry, 1 = engineer *)
  role : Z;
  (* [undefined] until set *)
  xLookAhead : option Q;
  widthOneThird : option Q;
  (* [null] until the unit is registered in a zone *)
  frontZone : option Z;
  rearZone : option Z;
  multiZone : bool
}.

Definition set_xy (d : UnitData) (nx ny : Q) : UnitData :=
  mkUnitData (id d) (type d) nx ny (width d) (height d) (vX d) (vY d)
    (dead d) (isInert d) (expired d) (hostile d) (isEnemy d) (isNeutral d)
    (excludeFromCollision d) (cloaked d) (flipped d) (bottomAligned d)
    (role d) (xLookAhead d) (widthOneThird d) (frontZone d) (rearZone d)
    (multiZone d).

Definition set_widthOneThird (d : UnitData) (w : option Q) : UnitData :=
  mkUnitData (id d) (type d) (x d) (y d) (width d) (height d) (vX d) (vY d)
    (dead d) (isInert d) (expired d) (hostile d) (isEnemy d) (isNeutral d)
    (excludeFromCollision d) (cloaked d) (flipped d) (bottomAligned d)
    (role d) (xLookAhead d) w (frontZone d) (rearZone d) (multiZone d).

(** A plain live unit; concrete scenarios override fields of it. *)
Definition unit0 (i t : string) (px py w h : Q) : UnitData :=
  mkUnitData i t px py w h 0 0 false false false false false false false
    false false false 0%Z None None (Some 0%Z) (Some 0%Z) false.

(** ** Values of the [TYPES] table of core/global.js used below
    ([TYPES.superBunker] is the string ['super-bunker'], and so on; the
    table itself is built in [Global.TYPES]). *)
Module T.
Definition tank := "tank".
Definition van := "van".
Definition missileLauncher := "missile-launcher".
Definition helicopter := "helicopter".
Definition bunker := "bunker".
Definition balloon := "balloon".
Definition smartMissile := "smart-missile".
Definition turret := "turret".
Definition superBunker := "super-bunker".
Definition endBunker := "end-bunker".
Definition infantry := "infantry".
Definition engineer := "engineer".
Definition gunfire := "gunfire".
End T.

(** ** core/global.js: the type table and query construction *)

Module Global.

(** The strings of [types.split(', ')] in the [TYPES] initialiser. *)
Definition typeNames : list string :=
  [ "aimed-missile"; "base"; "bomb"; "balloon"; "bunker"; "chain"; "cloud";
    "cornholio"; "engineer"; "flame"; "gunfire"; "helicopter"; "infantry";
    "end-bunker"; "landing-pad"; "missile-launcher"; "missile-napalm";
    "parachute-infantry"; "smart-missile"; "smoke"; "shrapnel"; "star";
    "super-bunker"; "tank"; "turret"; "terrain-item"; "van" ].

(** [s.split(sep)] for a one-character separator. *)
Fixpoint splitOn (sep : ascii) (s : string) : list string :=
  match s with
  | EmptyString => [EmptyString]
  | String c rest =>
      let r := splitOn sep rest in
      if Ascii.eqb c sep then EmptyString :: r
      else match r with
           | tok :: r' => String c tok :: r'
           | [] => [String c EmptyString]
           end
  end.

(** [s.indexOf(c) !== -1] *)
Fixpoint contains (c : ascii) (s : string) : bool :=
  match s with
  | EmptyString => false
  | String c' rest => Ascii.eqb c' c || contains c rest
  end.

(** [c.toUpperCase()] on an ASCII letter. *)
Definition toUpper (c : ascii) : ascii :=
  let n := nat_of_ascii c in
  if (Nat.leb 97 n && Nat.leb n 122)%bool then ascii_of_nat (n - 32) else c.

(** [a[1].charAt(0).toUpperCase() + a[1].slice(1)] *)
Definition capitalize (s : string) : string :=
  match s with
  | EmptyString => EmptyString
  | String c rest => String (toUpper c) rest
  end.

(** dash-case to camelCase: [a = type.split('-')], capitalise [a[1]],
    [a.join('')]. *)
Definition camelCase (t : string) : string :=
  match splitOn "-" t with
  | a0 :: a1 :: rest => String.concat "" (a0 :: capitalize a1 :: rest)
  | _ => t
  end.

(** [TYPES]: the own properties of the table. *)
Definition TYPES : gmap string string :=
  fold_left
    (fun result t =>
       let result := <[t := t]> result in
       if contains "-" t then <[camelCase t := t]> result else result)
    typeNames ∅.

(** What reading a property of a plain object of strings gives: an own
    string, a member inherited from [Object.prototype] (a function, or the
    prototype itself for [__proto__]), or [undefined]. *)
Inductive JsProp : Type :=
| PUndefined
| PString (s : string)
| PInherited (name : string).

(** The property names of [Object.prototype]. *)
Definition objectPrototypeNames : list string :=
  [ "constructor"; "hasOwnProperty"; "isPrototypeOf"; "propertyIsEnumerable";
    "toLocaleString"; "toString"; "valueOf"; "__proto__";
    "__defineGetter__"; "__defineSetter__"; "__lookupGetter__";
    "__lookupSetter__" ].

(** [table[key]] on an object literal, [{}] included. *)
Definition getProp (table : gmap string string) (key : string) : JsProp :=
  match table !! key with
  | Some v => PString v
  | None =>
      if existsb (String.eqb key) objectPrototypeNames then PInherited key
      else PUndefined
  end.

(** [collision.items] / [nearby.items]: [{ type, group }] pairs. *)
Record Item : Type := mkItem {
  itype : JsProp;
  igroup : JsProp
}.

(** A value used as a property key is converted to a string: [undefined]
    reads ['undefined'], a built-in function reads as its source text (as
    V8 prints it), the prototype object as ['[object Object]']. *)
Definition propKey (v : JsProp) : string :=
  match v with
  | PUndefined => "undefined"
  | PString s => s
  | PInherited name =>
      if String.eqb name "__proto__" then "[object Object]"
      else "function "
           ++ (if String.eqb name "constructor" then "Object" else name)
           ++ "() { [native code] }"
  end.

(** the ASCII members of the character class [[\s|,]] *)
Definition isDelim (c : ascii) : bool :=
  let n := nat_of_ascii c in
  (Nat.eqb n 9 || Nat.eqb n 10 || Nat.eqb n 11 || Nat.eqb n 12
   || Nat.eqb n 13 || Nat.eqb n 32 || Ascii.eqb c "|" || Ascii.eqb c ",")%bool.

Definition byteIs (c : ascii) (n : nat) : bool := Nat.eqb (nat_of_ascii c) n.

(** A string is given by its UTF-8 bytes.  The number of bytes of the
    member of [[\s|,]] at the head of the string, if there is one: besides
    the ASCII members, [\s] matches U+00A0, U+1680, U+2000 to U+200A,
    U+2028, U+2029, U+202F, U+205F, U+3000 and U+FEFF. *)
Definition delimLength (s : string) : option nat :=
  match s with
  | EmptyString => None
  | String c rest =>
      if isDelim c then Some 1%nat
      else
        match rest with
        | EmptyString => None
        | String c1 rest1 =>
            if byteIs c 194 && byteIs c1 160 then Some 2%nat
            else
              match rest1 with
              | EmptyString => None
              | String c2 _ =>
                  if (byteIs c 225 && byteIs c1 154 && byteIs c2 128)
                     || (byteIs c 226 && byteIs c1 128
                         && ((Nat.leb 128 (nat_of_ascii c2)
                              && Nat.leb (nat_of_ascii c2) 138)
                             || byteIs c2 168 || byteIs c2 169
                             || byteIs c2 175))
                     || (byteIs c 226 && byteIs c1 129 && byteIs c2 159)
                     || (byteIs c 227 && byteIs c1 128 && byteIs c2 128)
                     || (byteIs c 239 && byteIs c1 187 && byteIs c2 191)
                  then Some 3%nat
                  else None
              end
        end
  end.

(** [typeString.replace(/[\s|,]+/g, ' ')]: every maximal run of delimiters
    becomes one space.  [skip] counts the bytes still to drop of the
    delimiter being read. *)
Fixpoint normalizeDelims (skip : nat) (inRun : bool) (s : string) : string :=
  match s with
  | EmptyString => EmptyString
  | String c rest =>
      match skip with
      | S skip' => normalizeDelims skip' inRun rest
      | O =>
          match delimLength s with
          | Some n =>
              if inRun then normalizeDelims (pred n) true rest
              else String " " (normalizeDelims (pred n) true rest)
          | None => String c (normalizeDelims 0 false rest)
          end
      end
  end.

(** [parseTypeString(typeString)]; [None] is a value without [.replace]. *)
Definition parseTypeString (typeString : option string) : list string :=
  match typeString with
  | None => []
  | Some s => splitOn " " (normalizeDelims 0 false s)
  end.

Definition enemyGroupMap : gmap string string :=
  <["friendly" := "enemy"]> (<["enemy" := "friendly"]> ∅).

(** [exports]: a game object, of which only [exports.data] is read; it may
    be an object without [data]. *)
Inductive Exports : Type :=
| ExportsData (d : UnitData)
| ExportsNoData.

(** Sequencing of completions. *)
Definition bind {A B} (c : Completion A) (f : A -> Completion B) : Completion B :=
  match c with
  | Normal a => f a
  | Throw m => Throw m
  end.

Fixpoint mapM {A B} (f : A -> Completion B) (l : list A) : Completion (list B) :=
  match l with
  | [] => Normal []
  | a :: l' =>
      bind (f a) (fun b => bind (mapM f l') (fun bs => Normal (b :: bs)))
  end.

(** [determineGroup(group = 'all', exports)]; a missing [exports] ([null]
    or [undefined]) is [None]. *)
Definition determineGroup (group : option string) (exports : option Exports)
    : Completion JsProp :=
  let group := match group with Some g => g | None => "all" end in
  if String.eqb group "all" then Normal (PString group)
  else
    match exports with
    | None => Normal PUndefined (* console.warn, return *)
    | Some ExportsNoData =>
        Throw "TypeError: exports.data is undefined"
    | Some (ExportsData d) =>
        if (isEnemy d || hostile d)%bool
        then Normal (getProp enemyGroupMap group)
        else Normal (PString group)
    end.

Record GetTypesOptions : Type := mkGetTypesOptions {
  group : option string;
  exports : option Exports
}.

(** The function that [getTypes] maps over the tokens: [group] is the
    group of the call, [item] a token. *)
Definition itemOf (exports : option Exports) (group : JsProp) (item : string)
    : Completion Item :=
  (* "tank:friendly", per-type override *)
  if contains ":" item then
    let typeAndGroup := splitOn ":" item in
    bind (determineGroup (nth_error typeAndGroup 1) exports)
      (fun ig => Normal (mkItem (getProp TYPES (nth 0 typeAndGroup "")) ig))
  (* just "tank", use function signature group *)
  else Normal (mkItem (getProp TYPES item) group).

(** The second argument of [getTypes]: left out ([undefined], which selects
    the default), [null], or an object. *)
Inductive OptionsArg : Type :=
| OptionsOmitted
| OptionsNull
| OptionsObject (o : GetTypesOptions).

(** [getTypes(typeString, options = { group: 'enemy', exports: null })];
    [None] is a [typeString] without [.split]. *)
Definition getTypes (typeString : option string) (options : OptionsArg)
    : Completion (list Item) :=
  match typeString with
  | None => Normal []
  | Some ts =>
      match options with
      | OptionsNull => Throw "TypeError: options is null"
      | OptionsOmitted | OptionsObject _ =>
          let o := match options with
                   | OptionsObject o => o
                   | _ => mkGetTypesOptions (Some "enemy") None
                   end in
          (* if exports but no group, assume enemy. *)
          let g := match group o with
                   | Some g => if String.eqb g "" then "enemy" else g
                   | None => "enemy"
                   end in
          (* if NOT looking for all, determine the appropriate group. *)
          bind (if String.eqb g "all" then Normal (PString g)
                else determineGroup (Some g) (exports o))
            (fun g => mapM (itemOf (exports o) g) (parseTypeString (Some ts)))
      end
  end.

(** [parseTypes(typeString)] *)
Definition parseTypes (typeString : option string) : list JsProp :=
  map (fun item => getProp TYPES item) (parseTypeString typeString).

End Global.

(** ** core/logic.js: overlap primitives *)

Module Logic.

(** [collisionCheckX(rect1, rect2, rect1XLookAhead = 0)] *)
Definition collisionCheckX (rect1 rect2 : UnitData) (rect1XLookAhead : Q) : bool :=
  ltb (x rect1 + rect1XLookAhead) (x rect2 + width rect2)
  && gtb (x rect1 + width rect1 + rect1XLookAhead) (x rect2).

(** [cc(rect1, rect2, rect1XLookAhead = 0)] *)
Definition cc (rect1 rect2 : UnitData) (rect1XLookAhead : Q) : bool :=
  (* rect 2 is to the right. *)
  ltb (x rect1 + rect1XLookAhead) (x rect2 + width rect2)
  (* overlap on x axis. *)
  && gtb (x rect1 + width rect1 + rect1XLookAhead) (x rect2)
  (* rect 1 is above rect 2. *)
  && ltb (y rect1) (y rect2 + height rect2)
  (* overlap on y axis. *)
  && gtb (y rect1 + height rect1) (y rect2).

(** [const collisionCheck = debugCanvas ? ccDebug : cc]; [ccDebug] draws
    two rectangles and returns [cc(...arguments)]. *)
Definition collisionCheck := cc.

(** [collisionCheckWithOffsets(rect1, rect2, r1XOffset = 0, r1YOffset = 0)] *)
Definition collisionCheckWithOffsets (rect1 rect2 : UnitData)
    (r1XOffset r1YOffset : Q) : bool :=
  ltb (x rect1 + r1XOffset) (x rect2 + width rect2)
  && gtb (x rect1 + width rect1 + r1XOffset) (x rect2)
  && ltb (y rect1 + r1YOffset) (y rect2 + height rect2)
  && gtb (y rect1 + r1YOffset + height rect1) (y rect2).

(** *** [collisionCheckTweens] *)

(** special exemption: ignore expired, non-hostile objects *)
Definition tweenExempt (sData tData : UnitData) : bool :=
  (expired sData && negb (hostile sData))
  || (expired tData && negb (hostile tData)).

Definition minTweenSteps : Q := 2.

Definition tweenSteps (sData : UnitData) : Q :=
  Qmax minTweenSteps
       (parseInt10 (Qmax (Qabs (vX sData)) (Qabs (vY sData))) / 2).

Definition tweenDivider (sData : UnitData) : Q := tweenSteps sData + 1.
Definition stepX (sData : UnitData) : Q := vX sData / tweenDivider sData.
Definition stepY (sData : UnitData) : Q := vY sData / tweenDivider sData.

(** [i++] on the loop counter, a double: exact below 2^53, without effect
    from there on. *)
Definition incr (i : Z) : Z :=
  if (i <? maxExactInteger)%Z then (i + 1)%Z else i.

(** The [for (let i = 0; i < tweenSteps; i++)] loop.  [fuel] bounds the
    recursion; [None] means the bound was hit before the guard failed,
    which happens only when [tweenSteps] exceeds 2^53 and the loop of the
    code does not end. *)
Fixpoint tweenLoop (fuel : nat) (sData tData : UnitData) (repositionOnHit : bool)
    (i : Z) (xOffset yOffset : Q) : option (bool * UnitData) :=
  match fuel with
  | O => None
  | S fuel' =>
      if ltb (inject_Z i) (tweenSteps sData) then
        let xOffset := xOffset + stepX sData in
        let yOffset := yOffset + stepY sData in
        if collisionCheckWithOffsets sData tData xOffset yOffset then
          (* we have a hit; reposition the source to the point of collision *)
          Some (true,
                if repositionOnHit
                then set_xy sData (x sData + xOffset) (y sData + yOffset)
                else sData)
        else tweenLoop fuel' sData tData repositionOnHit (incr i) xOffset yOffset
      else Some (false, sData)
  end.

(** The guard [i < tweenSteps] fails at the latest for [i = ceil tweenSteps]. *)
Definition tweenFuel (sData : UnitData) : nat :=
  S (Z.to_nat (Qceiling (tweenSteps sData))).

(** [collisionCheckTweens(sData, tData, repositionOnHit = true)]: the result
    and the (possibly repositioned) source data.  The [!sData || !tData]
    guard concerns missing references, which the typed arguments exclude. *)
Definition collisionCheckTweens (sData tData : UnitData) (repositionOnHit : bool)
    : JsBool * UnitData :=
  if tweenExempt sData tData then (JUndefined, sData)
  else
    match tweenLoop (tweenFuel sData) sData tData repositionOnHit 0%Z
                    (- vX sData) (- vY sData) with
    | Some (b, s') => (ofBool b, s')
    | None => (JUndefined, sData)
    end.

(** *** The mutable world seen by collision dispatch *)

(** Data objects live in a heap and are reached by reference, so that a
    [hit] callback mutating a unit is seen by the loop that holds a
    reference to it. *)
Definition loc := nat.

Record World : Type := mkWorld {
  (* data objects, by reference *)
  heap : loc -> UnitData;
  (* [game.objectsById], read by [getObjectById] *)
  objectsById : gmap string loc;
  (* [zones.objectsByZone[zone][group][type]]: an object keyed by unit id,
     given by its keys in enumeration order *)
  objectsByZone : gmap Z (gmap string (gmap string (list string)));
  (* the [targets] slot of the options object being dispatched *)
  optionsTargets : option (list string)
}.

Definition set_heap (w : World) (l : loc) (d : UnitData) : World :=
  mkWorld (fun l' => if Nat.eqb l' l then d else heap w l')
          (objectsById w) (objectsByZone w) (optionsTargets w).

Definition set_optionsTargets (w : World) (t : option (list string)) : World :=
  mkWorld (heap w) (objectsById w) (objectsByZone w) t.

(** [options.source]: normally a unit id; [collisionTest] may store the
    [exports] object itself. *)
Inductive Source : Type :=
| SrcId (i : string)
| SrcExports (l : loc).

Record Options : Type := mkOptions {
  source : option Source;
  useLookAhead : bool;
  friendlyOnly : bool;
  checkTweens : bool;
  (* [undefined] selects the default parameter value, [true] *)
  checkTweensRepositionOnHit : option bool;
  (* [options.hit(targetId, null, options.source)] *)
  hit : option (string -> World -> World)
}.

(** One invocation of [options.hit]: the id passed, the target and source
    data objects, and the world at the moment of the call. *)
Record HitEvent : Type := mkHitEvent {
  hitId : string;
  hitTarget : loc;
  hitSource : loc;
  hitWorld : World
}.

(** [a || b || c] on possibly-undefined numbers *)
Definition orNum (o : option Q) (k : Q) : Q :=
  match o with
  | Some v => if truthyNum v then v else k
  | None => k
  end.

Definition truthyRole (d : UnitData) : bool := negb (Z.eqb (role d) 0).

Definition String_eqb (a b : string) : bool := String.eqb a b.

(** the "lengthy logic check" of [collisionCheckObject] *)
Definition eligible (o : Options) (sData tData : UnitData) : bool :=
  (* don't compare the object against itself *)
  negb (String_eqb (id tData) (id sData))
  (* ignore "excluded" objects *)
  && negb (excludeFromCollision tData)
  (* ignore dead targets (unless a turret, checked by an engineer) *)
  && (negb (dead tData)
      || (String_eqb (type tData) T.turret
          && String_eqb (type sData) T.infantry
          && truthyRole sData))
  && ((negb (Bool.eqb (isEnemy tData) (isEnemy sData)) && negb (friendlyOnly o))
      || (friendlyOnly o && Bool.eqb (isEnemy tData) (isEnemy sData))
      || (String_eqb (type sData) T.helicopter
          && String_eqb (type tData) T.superBunker)
      || (String_eqb (type sData) T.infantry
          && String_eqb (type tData) T.bunker)
      || (String_eqb (type tData) T.infantry
          && ((String_eqb (type sData) T.endBunker && negb (truthyRole tData))
              || (String_eqb (type sData) T.superBunker && negb (truthyRole tData))
              || String_eqb (type sData) T.helicopter))
      || (String_eqb (type sData) T.infantry
          && truthyRole sData
          && String_eqb (type tData) T.turret)
      || hostile sData
      || hostile tData
      || isNeutral sData
      || isNeutral tData).

Section Dispatch.

(** [sprites.updateEnergy(id)]: external (sprites.js). *)
Variable updateEnergy : string -> World -> World.

(** The three-way test of [collisionCheckObject]; the tween check may move
    the source, so the world is returned. *)
Definition hitTest (o : Options) (w : World) (sl tl : loc) (xLA : Q)
    : bool * World :=
  let sData := heap w sl in
  let tData := heap w tl in
  if collisionCheck sData tData xLA then (true, w)
  else
    let '(tw, w') :=
      if checkTweens o then
        let '(r, s') :=
          collisionCheckTweens sData tData
            (match checkTweensRepositionOnHit o with
             | Some b => b | None => true end) in
        (truthy r, set_heap w sl s')
      else (false, w) in
    if tw then (true, w')
    else
      (String_eqb (type tData) T.helicopter
       && String_eqb (type sData) T.superBunker
       && collisionCheck sData tData (- xLA), w').

(** The [for (targetID in options.targets)] loop, over the keys enumerated
    when the loop starts. *)
Fixpoint targetLoop (o : Options) (sl : loc) (xLA : Q) (keys : list string)
    (w : World) (foundHit : JsBool) (ev : list HitEvent)
    : JsBool * World * list HitEvent :=
  match keys with
  | [] => (foundHit, w, ev)
  | targetID :: keys' =>
      (* safeguard in case options.targets becomes undefined during the loop *)
      match optionsTargets w with
      | None => (JUndefined, w, ev)
      | Some _ =>
          match objectsById w !! targetID with
          | None => targetLoop o sl xLA keys' w foundHit ev
          | Some tl =>
              if eligible o (heap w sl) (heap w tl) then
                let '(h, w1) := hitTest o w sl tl xLA in
                if h then
                  match hit o with
                  | Some f =>
                      let e := mkHitEvent (id (heap w1 tl)) tl sl w1 in
                      let w2 := f (id (heap w1 tl)) w1 in
                      let w3 := updateEnergy (id (heap w2 tl)) w2 in
                      targetLoop o sl xLA keys' w3 JTrue (ev ++ [e])
                  | None => targetLoop o sl xLA keys' w1 JTrue ev
                  end
                else targetLoop o sl xLA keys' w1 foundHit ev
              else targetLoop o sl xLA keys' w foundHit ev
          end
      end
  end.

(** [collisionCheckObject(options)] for a source given by id. *)
Definition collisionCheckObject (o : Options) (w : World)
    : JsBool * World * list HitEvent :=
  match optionsTargets w with
  | None => (JFalse, w, [])
  | Some keys =>
      match source o with
      | None => (JFalse, w, [])
      | Some (SrcExports _) =>
          (* [sData] is then the exports object, none of whose [dead], [x],
             [width] ... exist: every comparison involves NaN and is false,
             so the loop runs without a hit. *)
          (JUndefined, w, [])
      | Some (SrcId i) =>
          match objectsById w !! i with
          | None => (JFalse, w, [])
          | Some sl =>
              let sData := heap w sl in
              if dead sData || isInert sData
                 || (expired sData && negb (hostile sData))
              then (JFalse, w, [])
              else
                let w1 :=
                  if useLookAhead o then
                    match xLookAhead sData, widthOneThird sData with
                    | None, None =>
                        set_heap w sl
                          (set_widthOneThird sData (Some (width sData * (33 # 100))))
                    | _, _ => w
                    end
                  else w in
                let sData := heap w1 sl in
                let xLA :=
                  if useLookAhead o then
                    let v := orNum (xLookAhead sData)
                                   (orNum (widthOneThird sData) 16) in
                    if isEnemy sData then v * (-1) else v
                  else 0 in
                targetLoop o sl xLA keys w1 JUndefined []
          end
      end
  end.

Import Global.

Record Collision : Type := mkCollision {
  options : Options;
  items : list Item
}.

(** [collisionCheckZone(collision, zone)].  [Throw] is the TypeError raised
    by indexing a zone or group that does not exist. *)
Fixpoint zoneLoop (o : Options) (zone : Z) (its : list Item)
    (w : World) (ev : list HitEvent)
    : Completion unit * World * list HitEvent :=
  match its with
  | [] => (Normal tt, w, ev)
  | it :: its' =>
      match objectsByZone w !! zone with
      | None => (Throw "TypeError: zoneObjects is undefined", w, ev)
      | Some zoneObjects =>
          match zoneObjects !! propKey (igroup it) with
          | None => (Throw "TypeError: zoneObjects[group] is undefined", w, ev)
          | Some byType =>
              let w1 := set_optionsTargets w (byType !! propKey (itype it)) in
              match optionsTargets w1 with
              | Some _ =>
                  let '(_, w2, ev2) := collisionCheckObject o w1 in
                  zoneLoop o zone its' w2 (ev ++ ev2)
              | None => zoneLoop o zone its' w1 ev
              end
          end
      end
  end.

Definition collisionCheckZone (c : Collision) (o : Options) (zone : Z)
    (w : World) : Completion unit * World * list HitEvent :=
  zoneLoop o zone (items c) w [].

(** [collisionTest(collision, exports)]; [el] is the data object of
    [exports]. *)
Definition collisionTest (c : Collision) (el : loc) (w : World)
    : Completion unit * World * list HitEvent :=
  match frontZone (heap w el), rearZone (heap w el) with
  | Some fz, Some _ =>
      (* first-time run fix, as the source is initially undefined *)
      let o :=
        match source (options c) with
        | Some _ => options c
        | None =>
            mkOptions (Some (SrcExports el)) (useLookAhead (options c))
              (friendlyOnly (options c)) (checkTweens (options c))
              (checkTweensRepositionOnHit (options c)) (hit (options c))
        end in
      let '(r1, w1, ev1) := collisionCheckZone c o fz w in
      match r1 with
      | Throw m => (Throw m, w1, ev1)
      | Normal _ =>
          (* also check the neighbouring / overlapping zone, as applicable *)
          if multiZone (heap w1 el) then
            match rearZone (heap w1 el) with
            | Some rz =>
                let '(r2, w2, ev2) := collisionCheckZone c o rz w1 in
                (r2, w2, ev1 ++ ev2)
            | None =>
                (* [objectsByZone[null]] is undefined *)
                match items c with
                | [] => (Normal tt, w1, ev1)
                | _ => (Throw "TypeError: zoneObjects is undefined", w1, ev1)
                end
            end
          else (Normal tt, w1, ev1)
      end
  | _, _ => (Normal tt, w, [])
  end.

End Dispatch.

(** *** Target location: [isFacingTarget] and [getNearestObject] *)

(** [isFacingTarget(tData, sData)] for present arguments. *)
Definition isFacingTarget (tData sData : UnitData) : bool :=
  (* "is the target to the left?" *)
  let tLeft := ltb (x tData + width tData) (x sData) in
  if isEnemy sData then
    if tLeft && flipped sData then false
    else if negb tLeft && negb (flipped sData) then false
    else true
  else
    if tLeft && negb (flipped sData) then false
    else if negb tLeft && flipped sData then false
    else true.

(** A game object: its [data], and whether it has a [radarItem]. *)
Record GameObject : Type := mkGameObject {
  data : UnitData;
  radarItem : bool
}.

(** [Math.sqrt(r)] of a non-negative rational is kept as its radicand [r];
    square roots of non-negative numbers compare as their radicands do. *)
Record Surd : Type := Sqrt { radicand : Q }.

Definition surd_ltb (a b : Surd) : bool := ltb (radicand a) (radicand b).
Definition surd_gtb (a b : Surd) : bool := ltb (radicand b) (radicand a).

(** the integer [n] as a distance, [Math.sqrt(n * n)] *)
Definition surdOfZ (n : Z) : Surd := Sqrt (inject_Z (n * n)).

(** An entry of [localObjects]. *)
Record Candidate : Type := mkCandidate {
  obj : GameObject;
  totalDistance : Surd
}.

Record NearestOptions : Type := mkNearestOptions {
  useInFront : bool;
  ignoreNearGround : bool;
  ignoreIntersect : bool;
  getAll : bool;
  nearestItems : option (list Global.Item)
}.

Inductive NearestResult : Type :=
| NNull
| NUndefined
| NId (i : string)
| NIds (l : list string).

(** Modelled from the spec: [utils.array.compare(property)] of
    core/utils.js, absent from the sources; the spec has the candidates
    "sorted ascending by distance".  The comparator is negative, zero or
    positive as [a[property]] is below, equal to or above [b[property]]. *)
Definition compareBy {A} (lt : A -> A -> bool) (a b : A) : comparison :=
  if lt a b then Lt else if lt b a then Gt else Eq.

(** [Array.prototype.sort(cmp)]: a stable ascending sort. *)
Fixpoint insertSorted {A} (cmp : A -> A -> comparison) (a : A) (l : list A)
    : list A :=
  match l with
  | [] => [a]
  | b :: l' =>
      match cmp a b with
      | Lt => a :: b :: l'
      | _ => b :: insertSorted cmp a l'
      end
  end.

Definition arraySort {A} (cmp : A -> A -> comparison) (l : list A) : list A :=
  fold_left (fun acc a => insertSorted cmp a acc) l [].

(** The body of the inner loop of [getNearestObject]: the candidate pushed
    for [itemArray[k]], if any. *)
Definition candidateOf (sData : UnitData) (o : NearestOptions)
    (isNearGround : bool) (g : GameObject) : option Candidate :=
  let tData := data g in
  (* potential target must be an enemy, not hostile, dead or cloaked. *)
  if (Bool.eqb (isEnemy tData) (isEnemy sData) && negb (hostile tData))
     || dead tData || cloaked tData
  then None
  (* ignore balloons that are attached to a bunker. *)
  else if String_eqb (type tData) T.balloon && negb (hostile tData) then None
  else
    let distanceX := Qabs (Qabs (x tData) - Qabs (x sData)) in
    (* if a van, target only if it has a radar item OR is on-screen. *)
    if String_eqb (type tData) T.van && gtb distanceX 512 && negb (radarItem g)
    then None
    else if negb (useInFront o) || isFacingTarget tData sData then
      let distanceX := Qabs (Qabs (x tData) - Qabs (x sData)) in
      let distanceY := Qabs (Qabs (y tData) - Qabs (y sData)) in
      (* should we ignore overlap on X? *)
      if ignoreIntersect o && collisionCheckX tData sData 0 then None
      (* too far away for a missile to reach? *)
      else if gtb distanceX 3072 then None
      (* near-ground bias *)
      else if isNearGround && gtb distanceY 40 then None
      else
        Some (mkCandidate g
                (Sqrt (distanceX * distanceX + distanceY * distanceY)))
    else None.

(** The two nested loops filling [localObjects]; [game.objects[type]] of an
    unknown type is [undefined], whose [.length] raises a TypeError. *)
Fixpoint collectCandidates (objects : gmap string (list GameObject))
    (sData : UnitData) (o : NearestOptions) (isNearGround : bool)
    (its : list Global.Item) (localObjects : list Candidate)
    : Completion (list Candidate) :=
  match its with
  | [] => Normal localObjects
  | it :: its' =>
      match objects !! Global.propKey (Global.itype it) with
      | None => Throw "TypeError: itemArray is undefined"
      | Some itemArray =>
          collectCandidates objects sData o isNearGround its'
            (localObjects
             ++ omap (candidateOf sData o isNearGround) itemArray)
      end
  end.

Definition nearestDefaultTypes : string :=
  "tank, van, missileLauncher, helicopter, bunker, balloon, smartMissile, turret, superBunker".

(** [localObjects] after [localObjects.sort(utils.array.compare('totalDistance'))],
    before the enemy-helicopter reversal. *)
Definition sortedCandidates (objects : gmap string (list GameObject))
    (sData : UnitData) (o : NearestOptions) : Completion (list Candidate) :=
  let isNearGround := geb (y sData) 340 && negb (ignoreNearGround o) in
  let its :=
    match nearestItems o with
    | Some its => Normal its
    | None =>
        Global.getTypes (Some nearestDefaultTypes)
          (Global.OptionsObject
             (Global.mkGetTypesOptions None (Some (Global.ExportsData sData))))
    end in
  match its with
  | Throw m => Throw m
  | Normal its =>
      match collectCandidates objects sData o isNearGround its [] with
      | Throw m => Throw m
      | Normal localObjects =>
          Normal (arraySort (compareBy (fun a b =>
                               surd_ltb (totalDistance a) (totalDistance b)))
                            localObjects)
      end
  end.

Definition candType (c : Candidate) : string := type (data (obj c)).
Definition candId (c : Candidate) : string := id (data (obj c)).

(** The part of [getNearestObject] after the sort. *)
Definition pickNearest (sData : UnitData) (o : NearestOptions)
    (sorted : list Candidate) : NearestResult :=
  match sorted with
  | [] => if negb (getAll o) then NNull else NIds []
  | _ =>
      (* enemy helicopter: reverse the array. *)
      let localObjects :=
        if String_eqb (type sData) T.helicopter && isEnemy sData
        then rev sorted else sorted in
      (* If [0] is a super bunker, and the only target, bail.
         If [0] is a super bunker and [1] is bottom-aligned, also bail. *)
      if negb (Nat.eqb (length localObjects) 0)
         && String_eqb (type sData) T.helicopter
         && match localObjects with
            | c0 :: _ => String_eqb (candType c0) T.superBunker
            | [] => false
            end
         && (Nat.eqb (length localObjects) 1
             || match localObjects with
                | _ :: c1 :: _ => bottomAligned (data (obj c1))
                | _ => false
                end)
      then NUndefined
      else
        (* drop the super bunker and take the next eligible target. *)
        let localObjects :=
          match localObjects with
          | c0 :: rest =>
              if String_eqb (candType c0) T.superBunker then rest
              else localObjects
          | [] => localObjects
          end in
        if getAll o then NIds (map candId localObjects)
        else
          match localObjects with
          | c0 :: _ => NId (candId c0)
          | [] => NUndefined
          end
  end.

(** [getNearestObject(source, options = {})]; [source] is given by its
    [data], [game.objects] by [objects]. *)
Definition getNearestObject (objects : gmap string (list GameObject))
    (sData : UnitData) (o : NearestOptions) : Completion NearestResult :=
  match sortedCandidates objects sData o with
  | Throw m => Throw m
  | Normal sorted => Normal (pickNearest sData o sorted)
  end.

End Logic.

(** ** units/Helicopter-AI.js *)

Module HelicopterAI.

(** The fields of [levelConfig] / [levelFlags] (levels/default.js) read by
    the functions below. *)
Record LevelConfig : Type := mkLevelConfig {
  killCopterB : bool;
  bNapalm : bool
}.

Definition retaliationModeDuration : Z := 30000.

(** *** Frame timers *)

(** What a scheduled callback does when it fires: the two closures passed
    to [common.setFrameTimeout] by the modelled functions. *)
Inductive TimerAction : Type :=
| DeleteBombsByTarget (key : string)   (* () => delete bombsByTarget[id] *)
| ClearRetaliation.                    (* () => data.targeting.retaliation = false *)

Record Timer : Type := mkTimer {
  handle : nat;
  due : Z;
  action : TimerAction
}.

(** Modelled from the spec: the deferred-timer scheduler behind
    [common.setFrameTimeout] (core/common.js, absent from the sources):
    "schedule(duration, callback) -> handle, cancel(handle); must guarantee
    at-most-once invocation and support cancellation before expiry".
    A timer fires once the clock has advanced by its delay; [reset()] on
    the returned timer cancels it. *)
Record Scheduler : Type := mkScheduler {
  now : Z;
  nextHandle : nat;
  pending : list Timer
}.

Definition setFrameTimeout (a : TimerAction) (delay : Z) (s : Scheduler)
    : nat * Scheduler :=
  (nextHandle s,
   mkScheduler (now s) (S (nextHandle s))
               (pending s ++ [mkTimer (nextHandle s) (now s + delay)%Z a])).

Definition resetTimer (h : nat) (s : Scheduler) : Scheduler :=
  mkScheduler (now s) (nextHandle s)
              (List.filter (fun t => negb (Nat.eqb (handle t) h)) (pending s)).

(** *** Helicopter data read or written by the modelled functions *)

Record HeliData : Type := mkHeliData {
  base : UnitData;                 (* x, y, width, vX, vY, ... *)
  vXMax : Q;
  vXMaxClipped : Q;
  useClippedSpeed : bool;
  attackB : bool;                  (* data.targeting.attackB *)
  retaliation : bool;              (* data.targeting.retaliation *)
  firing : bool;
  bombing : bool;
  ammo : Z;
  bombs : Z;
  votesAmmo : Z;                   (* data.votes.ammo *)
  votesBomb : Z;                   (* data.votes.bomb *)
  ammoTargets : list UnitData;
  bombTargets : list UnitData;
  ammoTarget : option UnitData;    (* null / undefined is [None] *)
  fireModulus : Q;
  bombModulus : Q
}.

Definition set_retaliation (d : HeliData) (r : bool) : HeliData :=
  mkHeliData (base d) (vXMax d) (vXMaxClipped d) (useClippedSpeed d)
    (attackB d) r (firing d) (bombing d) (ammo d) (bombs d) (votesAmmo d)
    (votesBomb d) (ammoTargets d) (bombTargets d) (ammoTarget d)
    (fireModulus d) (bombModulus d).


Definition set_ammoTarget (d : HeliData) (t : option UnitData) : HeliData :=
  mkHeliData (base d) (vXMax d) (vXMaxClipped d) (useClippedSpeed d)
    (attackB d) (retaliation d) (firing d) (bombing d) (ammo d) (bombs d)
    (votesAmmo d) (votesBomb d) (ammoTargets d) (bombTargets d) t
    (fireModulus d) (bombModulus d).

Definition set_ammoTargets (d : HeliData) (l : list UnitData) : HeliData :=
  mkHeliData (base d) (vXMax d) (vXMaxClipped d) (useClippedSpeed d)
    (attackB d) (retaliation d) (firing d) (bombing d) (ammo d) (bombs d)
    (votesAmmo d) (votesBomb d) l (bombTargets d) (ammoTarget d)
    (fireModulus d) (bombModulus d).

Definition set_bombTargets (d : HeliData) (l : list UnitData) : HeliData :=
  mkHeliData (base d) (vXMax d) (vXMaxClipped d) (useClippedSpeed d)
    (attackB d) (retaliation d) (firing d) (bombing d) (ammo d) (bombs d)
    (votesAmmo d) (votesBomb d) (ammoTargets d) l (ammoTarget d)
    (fireModulus d) (bombModulus d).

Definition set_fireModulus (d : HeliData) (m : Q) : HeliData :=
  mkHeliData (base d) (vXMax d) (vXMaxClipped d) (useClippedSpeed d)
    (attackB d) (retaliation d) (firing d) (bombing d) (ammo d) (bombs d)
    (votesAmmo d) (votesBomb d) (ammoTargets d) (bombTargets d) (ammoTarget d)
    m (bombModulus d).

Definition set_bombModulus (d : HeliData) (m : Q) : HeliData :=
  mkHeliData (base d) (vXMax d) (vXMaxClipped d) (useClippedSpeed d)
    (attackB d) (retaliation d) (firing d) (bombing d) (ammo d) (bombs d)
    (votesAmmo d) (votesBomb d) (ammoTargets d) (bombTargets d) (ammoTarget d)
    (fireModulus d) m.

Definition set_flipped (d : HeliData) (f : bool) : HeliData :=
  let b := base d in
  mkHeliData
    (mkUnitData (id b) (type b) (x b) (y b) (width b) (height b) (vX b) (vY b)
       (dead b) (isInert b) (expired b) (hostile b) (isEnemy b) (isNeutral b)
       (excludeFromCollision b) (cloaked b) f (bottomAligned b)
       (role b) (xLookAhead b) (widthOneThird b) (frontZone b) (rearZone b)
       (multiZone b))
    (vXMax d) (vXMaxClipped d) (useClippedSpeed d)
    (attackB d) (retaliation d) (firing d) (bombing d) (ammo d) (bombs d)
    (votesAmmo d) (votesBomb d) (ammoTargets d) (bombTargets d) (ammoTarget d)
    (fireModulus d) (bombModulus d).

(** [data.votes.ammo++; data.ammoTargets.push(targetData)] *)
Definition voteAmmo (d : HeliData) (targetData : UnitData) : HeliData :=
  mkHeliData (base d) (vXMax d) (vXMaxClipped d) (useClippedSpeed d)
    (attackB d) (retaliation d) (firing d) (bombing d) (ammo d) (bombs d)
    (votesAmmo d + 1)%Z (votesBomb d) (ammoTargets d ++ [targetData])
    (bombTargets d) (ammoTarget d) (fireModulus d) (bombModulus d).

(** *** Votes for firing *)

(** Modelled from the spec: [distance(a, b)] of Helicopter-utils.js
    (absent from the sources), the absolute distance along one axis. *)
Definition distance (a b : Q) : Q := Qabs (a - b).

(** [flip(exports)] of Helicopter.js, on the data: the toggle is skipped
    for a helicopter that is respawning, landed or on a landing pad
    ([grounded]), dead, or at the top of the screen. *)
Definition flip (grounded : bool) (d : HeliData) : HeliData :=
  if grounded || dead (base d) || leb (y (base d)) 0 then d
  else set_flipped d (negb (flipped (base d))).

(** [checkFacingTarget(exports, target)] of Helicopter.js *)
Definition checkFacingTarget (grounded : bool) (target : option UnitData)
    (d : HeliData) : HeliData :=
  match target with
  | None => d
  | Some tData =>
      (* ignore direction when bombing, or if hidden within a cloud *)
      if bombing d || cloaked (base d) then d
      else if negb (Logic.isFacingTarget tData (base d)) then flip grounded d
      else d
  end.

(** [maybeFireAtTarget(target)]; [bullets] is [levelFlags.bullets]. *)
Definition maybeFireAtTarget (bullets grounded : bool) (target : option UnitData)
    (d : HeliData) : HeliData :=
  match target with
  | None => d
  | Some targetData =>
      let dY := distance (y targetData) (y (base d)) in
      (* firstly, ignore if not close on Y-axis. *)
      if gtb dY (height (base d) * (3 # 2)) then d
      else
        let dX := distance (x targetData) (x (base d)) in
        (* ignore if too far away, OR basically right above / underneath. *)
        if ltb dX 320 && gtb dX (width (base d)) then
          if negb bullets && ltb (y targetData) (y (base d))
             && gtb (y (base d)) 48
          then d
          (* queue action. *)
          else checkFacingTarget grounded target (voteAmmo d targetData)
        else d
  end.

(** *** The bomb ledger, [bombsByTarget] *)

Record BombEntry : Type := mkBombEntry {
  bombCount : Z;
  bombLimit : Z;
  timer : option nat               (* handle of the pending clear timer, or null *)
}.

(** The state closed over by one [HelicopterAI] instance, with the timers
    it has scheduled. *)
Record AI : Type := mkAI {
  hdata : HeliData;
  bombsByTarget : gmap string BombEntry;
  timers : Scheduler
}.

Definition initAI (d : HeliData) : AI :=
  mkAI d ∅ (mkScheduler 0 0 []).

Section WithLevel.

Variable levelConfig : LevelConfig.

(** [getBombTargetID(target)]; [target?.data] is given as an option. *)
Definition getBombTargetID (target : option UnitData) : string :=
  match target with
  | None => ""
  | Some d =>
      if (String.eqb (type d) T.infantry || String.eqb (type d) T.engineer)
         && bNapalm levelConfig
      then "men" else id d
  end.

(** [canBombTarget(target)] *)
Definition newEntry (d : UnitData) : BombEntry :=
  mkBombEntry 0
    (if String.eqb (type d) T.tank || String.eqb (type d) T.helicopter
     then 3 else 1)%Z
    None.

Definition canBombTarget (target : option UnitData) (st : AI) : JsBool * AI :=
  match target with
  | None => (JUndefined, st)
  | Some d =>
      (* unlimited bombs *)
      if String.eqb (type d) T.turret then (JTrue, st)
      else
        let i := getBombTargetID target in
        let '(bbt, st1) :=
          match bombsByTarget st !! i with
          | Some bbt => (bbt, st)
          | None =>
              (newEntry d,
               mkAI (hdata st) (<[i := newEntry d]> (bombsByTarget st))
                    (timers st))
          end in
        (* at capacity? *)
        if (bombLimit bbt <=? bombCount bbt)%Z then (JUndefined, st1)
        (* bombs away! *)
        else (JTrue, st1)
  end.

(** [addBomb(target)] *)
Definition addBomb (target : option UnitData) (st : AI) : AI :=
  let i := getBombTargetID target in
  match bombsByTarget st !! i with
  | None => st
  | Some e =>
      match timer e with
      | Some h =>
          (* cancel any pending clear timer if this object is being re-used *)
          mkAI (hdata st)
               (<[i := mkBombEntry (bombCount e + 1) (bombLimit e) None]>
                  (bombsByTarget st))
               (resetTimer h (timers st))
      | None =>
          mkAI (hdata st)
               (<[i := mkBombEntry (bombCount e + 1) (bombLimit e) None]>
                  (bombsByTarget st))
               (timers st)
      end
  end.

(** [removeBomb(target)] *)
Definition removeBomb (target : option UnitData) (st : AI) : AI :=
  let i := getBombTargetID target in
  match bombsByTarget st !! i with
  | None => st
  | Some e =>
      let c := Z.max 0 (bombCount e - 1) in
      if (c =? 0)%Z
      then mkAI (hdata st) (delete i (bombsByTarget st)) (timers st)
      else mkAI (hdata st)
                (<[i := mkBombEntry c (bombLimit e) (timer e)]> (bombsByTarget st))
                (timers st)
  end.

(** [clearBombWithDelay(target, delay = 2500)] *)
Definition clearBombWithDelay (target : option UnitData) (delay : option Z)
    (st : AI) : AI :=
  let delay := match delay with Some d => d | None => 2500%Z end in
  let i := getBombTargetID target in
  match bombsByTarget st !! i with
  | None => st
  | Some e =>
      match timer e with
      | Some _ => st
      | None =>
          let '(h, s') := setFrameTimeout (DeleteBombsByTarget i) delay (timers st) in
          mkAI (hdata st)
               (<[i := mkBombEntry (bombCount e) (bombLimit e) (Some h)]>
                  (bombsByTarget st))
               s'
      end
  end.

(** The bombing gate of the helicopter ([data.ai.canBombTarget] followed by
    [data.ai.addBomb] when it did not refuse): the only caller of [addBomb]. *)
Definition dropBomb (target : option UnitData) (st : AI) : AI :=
  let '(r, st1) := canBombTarget target st in
  if truthy r then addBomb target st1 else st1.

(** Running a fired callback. *)
Definition fire (a : TimerAction) (st : AI) : AI :=
  match a with
  | DeleteBombsByTarget i =>
      mkAI (hdata st) (delete i (bombsByTarget st)) (timers st)
  | ClearRetaliation =>
      mkAI (set_retaliation (hdata st) false) (bombsByTarget st) (timers st)
  end.

Definition isDue (t : Z) (tm : Timer) : bool := (due tm <=? t)%Z.

(** The clock advances by [dt]; every pending timer that has become due
    fires once, in scheduling order, and leaves the queue. *)
Definition advance (dt : Z) (st : AI) : AI :=
  let t := (now (timers st) + dt)%Z in
  let fired := List.filter (isDue t) (pending (timers st)) in
  let rest := List.filter (fun tm => negb (isDue t tm)) (pending (timers st)) in
  fold_left (fun s tm => fire (action tm) s) fired
    (mkAI (hdata st) (bombsByTarget st)
          (mkScheduler t (nextHandle (timers st)) rest)).

(** [maybeEngageRetaliationMode()] *)
Definition maybeEngageRetaliationMode (st : AI) : AI :=
  (* this "feature" is gated by level config AND local state. *)
  if negb (killCopterB levelConfig) || negb (attackB (hdata st)) then st
  (* already active? *)
  else if retaliation (hdata st) then st
  else
    let '(_, s') :=
      setFrameTimeout ClearRetaliation retaliationModeDuration (timers st) in
    mkAI (hdata st) (bombsByTarget st) s'.

(** [throttleVelocity()] *)
Definition throttleMax (d : HeliData) : Q :=
  (if useClippedSpeed d && negb (retaliation d)
   then vXMaxClipped d else vXMax d) / 2.


(** *** Calls on the ledger and the clock, as a small command language *)

Inductive Op : Type :=
| OCanBombTarget (t : option UnitData)
| OAddBomb (t : option UnitData)
| ODropBomb (t : option UnitData)
| ORemoveBomb (t : option UnitData)
| OClearBombWithDelay (t : option UnitData) (delay : option Z)
| OAdvance (dt : Z).

Definition step (o : Op) (st : AI) : AI :=
  match o with
  | OCanBombTarget t => snd (canBombTarget t st)
  | OAddBomb t => addBomb t st
  | ODropBomb t => dropBomb t st
  | ORemoveBomb t => removeBomb t st
  | OClearBombWithDelay t d => clearBombWithDelay t d st
  | OAdvance dt => advance dt st
  end.

Definition run (ops : list Op) (st : AI) : AI :=
  fold_left (fun s o => step o s) ops st.

(** *** Weapon-intent resolution *)

(** [options.exports.callAction(method, value)]: may act at once or after a
    network round trip (Helicopter.js, network.js). *)
Variable callAction : string -> bool -> HeliData -> HeliData.

(** The modulus chosen by [setCPUFiringRate(targetType)] and
    [setCPUBombingRate(targetType)] from the firing-rate tables. *)
Variable cpuFireRate : option string -> Q.
Variable cpuBombRate : option string -> Q.

Definition truthyZ (n : Z) : bool := negb (Z.eqb n 0).

Definition compareX : UnitData -> UnitData -> comparison :=
  Logic.compareBy (fun a b => ltb (x a) (x b)).

(** [maybeFireOrBomb(data, options)] *)
Definition maybeFireOrBomb (d : HeliData) : HeliData :=
  let d :=
    if negb (bombing d) && truthyZ (votesBomb d)
    then callAction "setBombing" true d
    else if bombing d && negb (truthyZ (votesBomb d))
    then callAction "setBombing" false d
    else d in
  let d :=
    if negb (firing d) && truthyZ (votesAmmo d)
    then callAction "setFiring" true d
    else if firing d && negb (truthyZ (votesAmmo d))
    then set_ammoTarget (callAction "setFiring" false d) None
    else d in
  let d :=
    if firing d && truthyZ (ammo d) then
      let d := set_ammoTargets d (Logic.arraySort compareX (ammoTargets d)) in
      let d := set_ammoTarget d (head (ammoTargets d)) in
      set_fireModulus d (cpuFireRate (option_map type (head (ammoTargets d))))
    else d in
  if bombing d && truthyZ (bombs d) then
    let d := set_bombTargets d (Logic.arraySort compareX (bombTargets d)) in
    set_bombModulus d (cpuBombRate (option_map type (head (bombTargets d))))
  else d.

End WithLevel.

End HelicopterAI.


(** ** Statement-level definitions for the collision engine *)

Module LogicSpec.
Import Logic.

(** The source one tick ago: its current position minus its velocity. *)
Definition startOfFrame (s : UnitData) : UnitData :=
  set_xy s (x s - vX s) (y s - vY s).

(** Number of passes through the tween loop: the least integer that is not
    below [tweenSteps]. *)
Definition tweenCount (s : UnitData) : nat :=
  Z.to_nat (Qceiling (tweenSteps s)).

(** [offset += step], [k] times over. *)
Fixpoint accumulate (k : nat) (offset step : Q) : Q :=
  match k with
  | O => offset
  | S k' => accumulate k' offset step + step
  end.

(** Offset tested by pass [k] (counted from 1): the rolled-back offset
    [-v] after [k] additions of the step, as the loop accumulates it. *)
Definition tweenOffsetX (s : UnitData) (k : nat) : Q :=
  accumulate k (- vX s) (stepX s).
Definition tweenOffsetY (s : UnitData) (k : nat) : Q :=
  accumulate k (- vY s) (stepY s).

(** The loop counter stays exact: [tweenSteps] is at most 2^53. *)
Definition countsExactly (s : UnitData) : Prop :=
  tweenSteps s <= inject_Z maxExactInteger.

(** The offset overlap test at the offset of pass [k]. *)
Definition hitsAt (s t : UnitData) (k : nat) : bool :=
  collisionCheckWithOffsets s t (tweenOffsetX s k) (tweenOffsetY s k).

(** Some intermediate position overlaps the target. *)
Definition overlapsBetween (s t : UnitData) : bool :=
  existsb (hitsAt s t) (seq 1 (tweenCount s)).

(** The first pass whose offset overlaps the target, if any. *)
Definition firstHit (s t : UnitData) : option nat :=
  find (hitsAt s t) (seq 1 (tweenCount s)).

(** The source moved by the offset of pass [k]: [sData.x += xOffset],
    [sData.y += yOffset]. *)
Definition movedTo (s : UnitData) (k : nat) : UnitData :=
  set_xy s (x s + tweenOffsetX s k) (y s + tweenOffsetY s k).

(** The property as the specification words it: the tween check is never
    false when an endpoint check (start or end position) is true. *)
Definition tweenCoversEndpoints : Prop :=
  forall s t : UnitData,
    tweenExempt s t = false ->
    (~ vX s == 0 \/ ~ vY s == 0) ->
    (collisionCheck (startOfFrame s) t 0 = true \/ collisionCheck s t 0 = true) ->
    fst (collisionCheckTweens s t true) = JTrue.

(** A unit-square projectile that moved 3 to the right onto its target. *)
Definition shot : UnitData :=
  mkUnitData "shot" T.gunfire 0 0 1 1 3 0 false false false false false false
    false false false false 0%Z None None (Some 0%Z) (Some 0%Z) false.
Definition block : UnitData := unit0 "block" T.tank 0 0 1 1.

End LogicSpec.


(** ** Statement-level definitions for hit dispatch *)

Module DispatchSpec.
Import Logic.

(** The hit callback was handed the id of a registered unit that is alive
    and not excluded from collision at the moment of the call. *)
Definition liveUnexcluded (e : HitEvent) : Prop :=
  let w := hitWorld e in
  let t := heap w (hitTarget e) in
  (exists key, objectsById w !! key = Some (hitTarget e))
  /\ id t = hitId e
  /\ dead t = false
  /\ excludeFromCollision t = false.

(** The property as the specification words it. *)
Definition hitOnlyLiveUnexcluded : Prop :=
  forall (updateEnergy : string -> World -> World)
         (c : Collision) (el : loc) (o : Options) (w : World),
    Forall liveUnexcluded (snd (collisionTest updateEnergy c el w))
    /\ Forall liveUnexcluded (snd (collisionCheckObject updateEnergy o w)).

(** What the dispatcher guarantees: the unit is registered and not
    excluded, and it is alive unless it is a turret checked by an engineer
    (an infantry source with a role). *)
Definition hitAllowed (e : HitEvent) : Prop :=
  let w := hitWorld e in
  let t := heap w (hitTarget e) in
  let s := heap w (hitSource e) in
  (exists key, objectsById w !! key = Some (hitTarget e))
  /\ id t = hitId e
  /\ excludeFromCollision t = false
  /\ (dead t = false
      \/ (type t = T.turret /\ type s = T.infantry /\ role s <> 0%Z)).

(** An engineer standing on a dead turret. *)
Definition engineerSide : World :=
  mkWorld
    (fun l =>
       match l with
       | O => mkUnitData "engineer_1" T.infantry 100 370 10 11 1 0
                false false false false false false false false false true
                1%Z None None (Some 0%Z) (Some 0%Z) false
       | _ => mkUnitData "turret_1" T.turret 95 360 12 21 0 0
                true false false false true false false false false true
                0%Z None None (Some 0%Z) (Some 0%Z) false
       end)
    (<["engineer_1" := 0%nat]> (<["turret_1" := 1%nat]> ∅))
    (<[0%Z := <["all" := <[T.turret := ["turret_1"]]> ∅]> ∅]> ∅)
    None.

Definition engineerCollision : Collision :=
  mkCollision
    (mkOptions (Some (SrcId "engineer_1")) false false false None
               (Some (fun _ w => w)))
    [Global.mkItem (Global.PString T.turret) (Global.PString "all")].

End DispatchSpec.


(** ** Statement-level definitions for target location *)

Module NearestSpec.
Import Logic.

(** "no target": [null] or [undefined]. *)
Definition noTarget (r : Completion NearestResult) : bool :=
  match r with
  | Normal NNull | Normal NUndefined => true
  | _ => false
  end.

(** The candidate's total distance is [n]. *)
Definition atDistance (c : Candidate) (n : Z) : Prop :=
  radicand (totalDistance c) == inject_Z (n * n).

(** The occlusion scenario as the specification words it, for any
    helicopter source: with the sorted candidates a super bunker at 50 and
    an aircraft at 80, the aircraft is returned; with the super bunker
    alone, or followed by a bottom-aligned candidate, nothing is. *)
Definition occlusionAsStated : Prop :=
  forall (objects : gmap string (list GameObject))
         (sData : UnitData) (o : NearestOptions) (sorted : list Candidate),
    type sData = T.helicopter ->
    getAll o = false ->
    sortedCandidates objects sData o = Normal sorted ->
    (forall sb c,
        sorted = [sb; c] ->
        candType sb = T.superBunker -> atDistance sb 50 ->
        candType c = T.helicopter -> atDistance c 80 ->
        bottomAligned (data (obj c)) = false ->
        getNearestObject objects sData o = Normal (NId (candId c)))
    /\ (forall sb,
           sorted = [sb] -> candType sb = T.superBunker ->
           noTarget (getNearestObject objects sData o) = true)
    /\ (forall sb c rest,
           sorted = sb :: c :: rest -> candType sb = T.superBunker ->
           bottomAligned (data (obj c)) = true ->
           noTarget (getNearestObject objects sData o) = true).

Definition noOptions : NearestOptions :=
  mkNearestOptions false false false false None.

Definition unitOf (i t : string) (px py : Q) (enemy bottom : bool) : GameObject :=
  mkGameObject
    (mkUnitData i t px py 48 20 0 0 false false false false enemy false false
       false false bottom 0%Z None None (Some 0%Z) (Some 0%Z) false)
    false.

(** [game.objects] holding the given helicopters, tanks and super bunkers,
    and no unit of the other types searched by default. *)
Definition battlefield (helicopters tanks superBunkers : list GameObject)
    : gmap string (list GameObject) :=
  <[T.helicopter := helicopters]>
  (<[T.tank := tanks]>
  (<[T.superBunker := superBunkers]>
  (<[T.van := []]>
  (<[T.missileLauncher := []]>
  (<[T.bunker := []]>
  (<[T.balloon := []]>
  (<[T.smartMissile := []]>
  (<[T.turret := []]> ∅)))))))).

(** A left-side (player) helicopter, an enemy super bunker at distance 50
    (30 across, 40 down) and an enemy helicopter at distance 80 (48
    across, 64 up). *)
Definition playerCopter : GameObject := unitOf "helicopter_0" T.helicopter 1000 306 false false.
Definition enemyBunker : GameObject := unitOf "super-bunker_1" T.superBunker 1030 346 true true.
Definition enemyCopter : GameObject := unitOf "helicopter_2" T.helicopter 1048 242 true false.
Definition enemyTank : GameObject := unitOf "tank_3" T.tank 1048 370 true true.

Definition skyScene := battlefield [playerCopter; enemyCopter] [] [enemyBunker].
Definition loneScene := battlefield [playerCopter] [] [enemyBunker].
Definition groundScene := battlefield [playerCopter] [enemyTank] [enemyBunker].

(** The mirrored ground scene: an enemy (CPU) helicopter, a player super
    bunker at distance 50 and a player tank at distance 80. *)
Definition cpuCopter : GameObject := unitOf "helicopter_9" T.helicopter 1000 306 true false.
Definition playerBunker : GameObject := unitOf "super-bunker_7" T.superBunker 1030 346 false true.
Definition playerTank : GameObject := unitOf "tank_8" T.tank 1048 370 false true.

Definition cpuGroundScene := battlefield [cpuCopter] [playerTank] [playerBunker].

End NearestSpec.


(** ** Statement-level definitions for query construction *)

Module GlobalSpec.
Import Global.

(** The type name of a token: what precedes [:] in ["tank:friendly"]. *)
Definition typePart (tok : string) : string :=
  if contains ":" tok then nth 0 (splitOn ":" tok) "" else tok.

(** The group override of a token: what follows [:], if anything. *)
Definition groupPart (tok : string) : option string :=
  if contains ":" tok then nth_error (splitOn ":" tok) 1 else None.

(** Some token of the type string names no entry of [TYPES]. *)
Definition hasUnknownToken (ts : string) : Prop :=
  exists tok, In tok (parseTypeString (Some ts)) /\ TYPES !! typePart tok = None.

(** The property as the specification words it: such a construction
    faults. *)
Definition unknownTokenFaults : Prop :=
  forall (ts : string) (options : OptionsArg),
    hasUnknownToken ts -> isThrow (getTypes (Some ts) options) = true.

(** The group that the options ask for. *)
Definition askedGroup (o : GetTypesOptions) : string :=
  match group o with
  | Some g => if String.eqb g "" then "enemy" else g
  | None => "enemy"
  end.

(** A group other than ['all'] has to be determined from [exports.data]:
    for the options' own group, or for the override of some token. *)
Definition asksGroup (tok : string) : bool :=
  match groupPart tok with
  | Some g => negb (String.eqb g "all")
  | None => false
  end.

Definition determinesGroup (o : GetTypesOptions) (ts : string) : bool :=
  negb (String.eqb (askedGroup o) "all")
  || existsb asksGroup (parseTypeString (Some ts)).

(** When the construction faults: on [null] options, and on an [exports]
    object without [data] of which a group has to be determined. *)
Definition faults (options : OptionsArg) (ts : string) : bool :=
  match options with
  | OptionsOmitted => false
  | OptionsNull => true
  | OptionsObject o =>
      match exports o with
      | Some ExportsNoData => determinesGroup o ts
      | _ => false
      end
  end.

(** Options as the game passes them: left out, or an object whose
    [exports], if any, has [data]. *)
Definition usableOptions (options : OptionsArg) : bool :=
  match options with
  | OptionsOmitted => true
  | OptionsNull => false
  | OptionsObject o =>
      match exports o with
      | Some ExportsNoData => false
      | _ => true
      end
  end.

(** What the type of an item is when its token names no entry of [TYPES]. *)
Definition unknownType (name : string) : JsProp :=
  if existsb (String.eqb name) objectPrototypeNames then PInherited name
  else PUndefined.

End GlobalSpec.


(** ** Statement-level definitions for the bomb ledger *)

Module LedgerSpec.
Import HelicopterAI.

(** The per-entry bound as the specification words it. *)
Definition countWithinQuota (e : BombEntry) : Prop :=
  (1 <= bombCount e)%Z /\ (bombCount e <= bombLimit e)%Z.

(** The ledger invariant as the specification words it, after any sequence
    of calls from a fresh AI instance. *)
Definition ledgerInvariantAsStated : Prop :=
  forall (lc : LevelConfig) (d : HeliData) (ops : list Op),
    map_Forall (fun _ e => countWithinQuota e)
               (bombsByTarget (run lc ops (initAI d))).

(** What holds of every entry whatever the calls. *)
Definition entrySane (e : BombEntry) : Prop :=
  (0 <= bombCount e)%Z /\ (bombLimit e = 1%Z \/ bombLimit e = 3%Z).

(** No direct [addBomb]: bombs are counted through the bombing gate only. *)
Definition gatedOnly (ops : list Op) : bool :=
  forallb (fun o => match o with OAddBomb _ => false | _ => true end) ops.

(** Bombs are counted in rounds only: every [canBombTarget] is followed at
    once by [addBomb] when it did not refuse, as the helicopter calls them;
    neither is called on its own. *)
Definition roundsOnly (ops : list Op) : bool :=
  forallb (fun o => match o with
                    | OAddBomb _ | OCanBombTarget _ => false
                    | _ => true
                    end) ops.

Definition targetOf (o : Op) : list UnitData :=
  match o with
  | OCanBombTarget (Some d) | OAddBomb (Some d) | ODropBomb (Some d)
  | ORemoveBomb (Some d) | OClearBombWithDelay (Some d) _ => [d]
  | _ => []
  end.

Definition targetsOf (ops : list Op) : list UnitData :=
  flat_map targetOf ops.

Definition isTurret (d : UnitData) : bool := String.eqb (type d) T.turret.

(** A turret never shares its ledger key with a target of another type
    (unit ids are unique and a unit keeps its type). *)
Definition turretKeysApart (lc : LevelConfig) (ts : list UnitData) : bool :=
  forallb (fun a =>
    forallb (fun b =>
      implb (isTurret a
             && String.eqb (getBombTargetID lc (Some a)) (getBombTargetID lc (Some b)))
            (isTurret b)) ts) ts.

(** Invariants of the ledger used to establish these bounds. *)
Definition allSane (st : AI) : Prop :=
  forall k e, bombsByTarget st !! k = Some e -> entrySane e.

Definition keysApart (lc : LevelConfig) (ts : list UnitData) : Prop :=
  forall a b, In a ts -> In b ts -> isTurret a = true ->
              getBombTargetID lc (Some a) = getBombTargetID lc (Some b) ->
              isTurret b = true.

(** Every entry is within its limit and was opened for a target, seen so
    far, that is not a turret. *)
Definition allWithin (lc : LevelConfig) (seen : list UnitData) (st : AI) : Prop :=
  forall k e, bombsByTarget st !! k = Some e ->
    (bombCount e <= bombLimit e)%Z
    /\ exists u, In u seen /\ isTurret u = false
                 /\ getBombTargetID lc (Some u) = k.

(** Every entry counts at least one bomb. *)
Definition allCounted (st : AI) : Prop :=
  forall k e, bombsByTarget st !! k = Some e -> (1 <= bombCount e)%Z.

(** The entry for key [k] exists and is at capacity. *)
Definition atCapacity (k : string) (st : AI) : Prop :=
  exists e, bombsByTarget st !! k = Some e /\ (bombLimit e <= bombCount e)%Z.

(** A [canBombTarget]-then-[addBomb] round against one target. *)
Definition bombRound (lc : LevelConfig) (t : UnitData) (st : AI) : AI :=
  addBomb lc (Some t) (snd (canBombTarget lc (Some t) st)).


Definition deletesKey (k : string) (tm : Timer) : bool :=
  match action tm with
  | DeleteBombsByTarget k' => String.eqb k' k
  | ClearRetaliation => false
  end.


(** Sample units and a CPU helicopter. *)
Definition tank1 : UnitData := unit0 "tank_12" T.tank 2000 370 58 18.
Definition van1 : UnitData := unit0 "van_4" T.van 2300 370 38 16.
Definition turret1 : UnitData := unit0 "turret_5" T.turret 2600 360 12 21.

Definition cpu : HeliData :=
  mkHeliData
    (mkUnitData "helicopter_1" T.helicopter 1000 100 48 20 6 0 false false
       false false true false false false false false 0%Z None None
       (Some 0%Z) (Some 0%Z) false)
    12 8 true true false true false 10 10 0 0 [] [] None 0 0.

(** Two opposing helicopters at the height of [cpu], 100 to its right and
    300 to its left, and [cpu] after [maybeFireAtTarget] has been called on
    each of them in turn (bullets enabled, in flight). *)
Definition raider1 : UnitData := unit0 "helicopter_2" T.helicopter 1100 100 48 20.
Definition raider2 : UnitData := unit0 "helicopter_3" T.helicopter 700 100 48 20.

Definition cpuAfterVotes : HeliData :=
  maybeFireAtTarget true false (Some raider2)
    (maybeFireAtTarget true false (Some raider1) cpu).

Definition level : LevelConfig := mkLevelConfig true false.

End LedgerSpec.


(** ** core/logic.js: view, proximity and counting queries *)

Module View.
Import Logic.

Definition NET_TRIGGER_DISTANCE : Q := 360.

(** [isPointInCircle(pointX, pointY, circleX, circleY, circleRadius)] *)
Definition isPointInCircle (pointX pointY circleX circleY circleRadius : Q) : bool :=
  leb ((pointX - circleX) * (pointX - circleX)
       + (pointY - circleY) * (pointY - circleY))
      (circleRadius * circleRadius).

(** [options.items]: absent, one type, or an array of types. *)
Inductive ItemsArg : Type :=
| ItemsDefault
| ItemsOne (t : string)
| ItemsMany (l : list string).

Record ViewOptions : Type := mkViewOptions {
  triggerDistance : option Q;
  friendlyOnly : bool;
  enemyOnly : bool;
  viewItems : ItemsArg
}.

(** [net.active ? NET_TRIGGER_DISTANCE : options.triggerDistance || 512] *)
Definition viewDistance (netActive : bool) (o : ViewOptions) : Q :=
  if netActive then NET_TRIGGER_DISTANCE else orNum (triggerDistance o) 512.

(** The filter of [objectsInView]; [isHostile] is [data.isHostile]. *)
Definition inView (netActive : bool) (d : UnitData) (isHostile : bool)
    (o : ViewOptions) (iData : UnitData) : bool :=
  let friendly := friendlyOnly o in
  let enemy := negb friendly && enemyOnly o in
  negb (dead iData)
  && negb (cloaked iData)
  && negb (isInert iData)
  && ltb (Qabs (x iData - x d)) (viewDistance netActive o)
  && (if enemy
      then (isHostile || negb (Bool.eqb (isEnemy d) (isEnemy iData)))
           && negb (isNeutral iData)
      else if friendly
      then Bool.eqb (isEnemy d) (isEnemy iData)
      else negb (Bool.eqb (isEnemy d) (isEnemy iData)) || isNeutral iData).

Definition viewItemArray (o : ViewOptions) : list string :=
  match viewItems o with
  | ItemsMany l => l
  | ItemsOne t => [t]
  | ItemsDefault => [T.helicopter]
  end.

(** [itemArray.forEach(...)]: the matches of every requested type, in
    order; [game.objects[itemType]] of an unknown type is [undefined], whose
    [.length] raises a TypeError. *)
Fixpoint viewCollect (objects : gmap string (list GameObject))
    (keep : UnitData -> bool) (types : list string) (results : list GameObject)
    : Completion (list GameObject) :=
  match types with
  | [] => Normal results
  | itemType :: types' =>
      match objects !! itemType with
      | None => Throw "TypeError: items is undefined"
      | Some its =>
          viewCollect objects keep types'
            (results ++ List.filter (fun g => keep (data g)) its)
      end
  end.

(** The comparator [(o1, o2) => Math.abs(o1.data.x - data.x) -
    Math.abs(o2.data.x - data.x)], read by its sign. *)
Definition compareViewDistance (d : UnitData) (o1 o2 : GameObject) : comparison :=
  (Qabs (x (data o1) - x d) - Qabs (x (data o2) - x d)) ?= 0.

(** [results] of [objectsInView] after the sort, before the ids are taken. *)
Definition viewResults (netActive : bool) (objects : gmap string (list GameObject))
    (d : UnitData) (isHostile : bool) (o : ViewOptions)
    : Completion (list GameObject) :=
  match viewCollect objects (inView netActive d isHostile o) (viewItemArray o) [] with
  | Throw m => Throw m
  | Normal results => Normal (arraySort (compareViewDistance d) results)
  end.

(** [objectsInView(data, options)] *)
Definition objectsInView (netActive : bool) (objects : gmap string (list GameObject))
    (d : UnitData) (isHostile : bool) (o : ViewOptions)
    : Completion (list string) :=
  match viewResults netActive objects d isHostile o with
  | Throw m => Throw m
  | Normal results => Normal (map (fun g => id (data g)) results)
  end.

(** [objectInView(data, options)]: [objectsInView(...)[0] || null]. *)
Definition objectInView (netActive : bool) (objects : gmap string (list GameObject))
    (d : UnitData) (isHostile : bool) (o : ViewOptions)
    : Completion (option string) :=
  match objectsInView netActive objects d isHostile o with
  | Throw m => Throw m
  | Normal ids =>
      Normal (match ids with
              | i :: _ => if String.eqb i "" then None else Some i
              | [] => None
              end)
  end.

(** The test of [enemyNearby] on one unit. *)
Definition isNearbyEnemy (d : UnitData) (triggerDistance : Q) (targetData : UnitData)
    : bool :=
  negb (Bool.eqb (isEnemy targetData) (isEnemy d))
  && negb (dead targetData)
  && ltb (Qabs (x targetData - x d)) triggerDistance.

(** [enemyNearby(data, targets, triggerDistance = 512)]: the first match,
    alone in an array, or the empty array. *)
Fixpoint enemyNearbyLoop (objects : gmap string (list GameObject))
    (d : UnitData) (triggerDistance : Q) (targets : list Global.Item)
    : Completion (list GameObject) :=
  match targets with
  | [] => Normal []
  | t :: targets' =>
      match objects !! Global.propKey (Global.itype t) with
      | None => Throw "TypeError: game.objects[type] is undefined"
      | Some its =>
          match List.find (fun g => isNearbyEnemy d triggerDistance (data g)) its with
          | Some g => Normal [g]
          | None => enemyNearbyLoop objects d triggerDistance targets'
          end
      end
  end.

Definition enemyNearby (netActive : bool) (objects : gmap string (list GameObject))
    (d : UnitData) (targets : list Global.Item) (triggerDistance : option Q)
    : Completion (list GameObject) :=
  let triggerDistance :=
    match triggerDistance with Some t => t | None => 512 end in
  let triggerDistance :=
    if netActive then NET_TRIGGER_DISTANCE else triggerDistance in
  enemyNearbyLoop objects d triggerDistance targets.

(** [countSides(objectType, includeDead)]; [localIsEnemy] is
    [game.players.local.data.isEnemy]. *)
Record Sides : Type := mkSides { friendly : nat; enemy : nat }.

Definition countSide (localIsEnemy includeDead : bool) (r : Sides) (g : GameObject)
    : Sides :=
  if negb (dead (data g)) then
    if negb (Bool.eqb (isEnemy (data g)) localIsEnemy) || hostile (data g)
    then mkSides (friendly r) (S (enemy r))
    else mkSides (S (friendly r)) (enemy r)
  else if includeDead
  (* things that are dead are considered harmless - therefore, friendly. *)
  then mkSides (S (friendly r)) (enemy r)
  else r.

Definition countSides (objects : gmap string (list GameObject))
    (localIsEnemy : bool) (objectType : string) (includeDead : bool) : Sides :=
  match objects !! objectType with
  | None => mkSides 0 0
  | Some its => fold_left (countSide localIsEnemy includeDead) its (mkSides 0 0)
  end.

(** [countFriendly(objectType, includeDead = false)] *)
Definition countFriendly (objects : gmap string (list GameObject))
    (localIsEnemy : bool) (objectType : string) (includeDead : bool) : nat :=
  friendly (countSides objects localIsEnemy objectType includeDead).

(** [playerOwnsBunkers()]; reading [.length] of a missing
    [game.objects[type]] raises a TypeError. *)
Definition playerOwnsBunkers (objects : gmap string (list GameObject))
    (localIsEnemy : bool) : Completion bool :=
  let owned :=
    (countFriendly objects localIsEnemy T.bunker true
     + countFriendly objects localIsEnemy T.superBunker true)%nat in
  match objects !! T.bunker, objects !! T.superBunker with
  | Some bs, Some sbs => Normal (Nat.leb (length bs + length sbs) owned)
  | _, _ => Throw "TypeError: game.objects[type] is undefined"
  end.

End View.

(** ** core/global.js: the seeded random number generator *)

Module Rng.

Definition two32 : Z := 4294967296.

(** [ToUint32] and [ToInt32] of an integer-valued number. *)
Definition toUint32 (z : Z) : Z := (z mod two32)%Z.
Definition toInt32 (z : Z) : Z := ((z + 2147483648) mod two32 - 2147483648)%Z.

(** [a ^ b], [a | b], [a >>> n], [Math.imul(a, b)] *)
Definition xor32 (a b : Z) : Z := Z.lxor (toInt32 a) (toInt32 b).
Definition or32 (a b : Z) : Z := Z.lor (toInt32 a) (toInt32 b).
Definition ushr (a n : Z) : Z := Z.shiftr (toUint32 a) n.
Definition imul (a b : Z) : Z := toInt32 (toInt32 a * toInt32 b).

(** The three mixing lines of [rng], up to [(t ^ (t >>> 14)) >>> 0]. *)
Definition mix (t : Z) : Z :=
  let t := imul (xor32 t (ushr t 15)) (or32 t 1) in
  let t := xor32 t (t + imul (xor32 t (ushr t 7)) (or32 t 61)) in
  toUint32 (xor32 t (ushr t 14)).

Definition increment : Z := 1831565813. (* 0x6d2b79f5 *)

(** An integer as a double: itself up to 2^53, the nearest double beyond. *)
Definition roundInteger (z : Z) : Z :=
  if (Z.abs z <=? maxExactInteger)%Z then z
  else Qfloor (roundDouble (inject_Z z)).

(** [seed += 0x6d2b79f5] *)
Definition addIncrement (z : Z) : Z := roundInteger (z + increment).

(** The seeds: own properties of [seedsByType], [defaultSeeds], [seed] and
    [defaultSeed]; seeds are integers, on which [Math.floor] is the
    identity. *)
Record Seeds : Type := mkSeeds {
  seed : Z;
  defaultSeed : Z;
  defaultSeeds : list Z;
  seedsByType : gmap string Z
}.

Definition truthyType (type : option string) : option string :=
  match type with
  | Some s => if String.eqb s "" then None else Some s
  | None => None
  end.

Definition truthySeed (o : option Z) : bool :=
  match o with Some z => negb (Z.eqb z 0) | None => false end.

(** [defaultSeeds[seedOffset]] under [seedOffset >= 0] *)
Definition seedAt (seedOffset : option Z) (l : list Z) : option Z :=
  match seedOffset with
  | Some so => if (0 <=? so)%Z then nth_error l (Z.to_nat so) else None
  | None => None
  end.

Fixpoint setNth (n : nat) (v : Z) (l : list Z) : list Z :=
  match l, n with
  | [], _ => []
  | _ :: l', O => v :: l'
  | a :: l', S n' => a :: setNth n' v l'
  end.

(** [rng(number = 1, type, seedOffset)]: the value and the seeds after. *)
Definition rng (number : option Q) (type : option string) (seedOffset : option Z)
    (s : Seeds) : Q * Seeds :=
  let number := match number with Some n => n | None => 1 end in
  (* no seedsByType for type? *)
  let s :=
    match truthyType type with
    | Some ty =>
        if truthySeed (seedsByType s !! ty) then s
        else mkSeeds (seed s) (defaultSeed s) (defaultSeeds s)
                     (<[ty := defaultSeed s]> (seedsByType s))
    | None => s
    end in
  let byType :=
    match truthyType type with
    | Some ty =>
        match seedsByType s !! ty with
        | Some z => if Z.eqb z 0 then None else Some (ty, z)
        | None => None
        end
    | None => None
    end in
  let '(t, s) :=
    match byType with
    | Some (ty, z) =>
        (addIncrement z,
         mkSeeds (seed s) (defaultSeed s) (defaultSeeds s)
                 (<[ty := addIncrement z]> (seedsByType s)))
    | None =>
        match seedAt seedOffset (defaultSeeds s), seedOffset with
        | Some z, Some so =>
            if Z.eqb z 0 then
              (addIncrement (seed s),
               mkSeeds (addIncrement (seed s)) (defaultSeed s) (defaultSeeds s)
                       (seedsByType s))
            else
              (addIncrement z,
               mkSeeds (seed s) (defaultSeed s)
                       (setNth (Z.to_nat so) (addIncrement z) (defaultSeeds s))
                       (seedsByType s))
        | _, _ =>
            (addIncrement (seed s),
             mkSeeds (addIncrement (seed s)) (defaultSeed s) (defaultSeeds s)
                     (seedsByType s))
        end
    end in
  (number * (inject_Z (mix t) / inject_Z two32), s).

(** [rngBool(type)]: roll of the dice. *)
Definition rngBool (type : option string) (s : Seeds) : bool * Seeds :=
  let '(r, s') := rng (Some 1) type None s in
  (geb r (1 # 2), s').

End Rng.


(** ** Statement-level definitions for the further properties *)

Module MoreSpec.
Import Logic.

(** The hit callback was not handed the source itself. *)
Definition notSelf (e : HitEvent) : Prop :=
  hitTarget e <> hitSource e
  /\ hitId e <> id (heap (hitWorld e) (hitSource e)).

(** A unit that [getNearestObject] may pick for the source [sData]. *)
Definition eligibleTarget (sData tData : UnitData) : Prop :=
  dead tData = false
  /\ cloaked tData = false
  /\ (isEnemy tData <> isEnemy sData \/ hostile tData = true)
  /\ (type tData = T.balloon -> hostile tData = true)
  /\ Qabs (Qabs (x tData) - Qabs (x sData)) <= 3072.

(** How [countSides] classifies one unit. *)
Definition countsAsEnemy (localIsEnemy : bool) (g : GameObject) : bool :=
  negb (dead (data g))
  && (negb (Bool.eqb (isEnemy (data g)) localIsEnemy) || hostile (data g)).

Definition countsAsFriendly (localIsEnemy includeDead : bool) (g : GameObject) : bool :=
  if dead (data g) then includeDead
  else negb (negb (Bool.eqb (isEnemy (data g)) localIsEnemy) || hostile (data g)).

(** A token that [parseTypeString] reads back whole: not empty, made of
    ASCII characters and free of white space, commas and bars. *)
Definition cleanChar (c : ascii) : bool :=
  Nat.ltb (nat_of_ascii c) 128 && negb (Global.isDelim c).

Definition cleanToken (tok : string) : Prop :=
  tok <> EmptyString
  /\ forall c, In c (list_ascii_of_string tok) -> cleanChar c = true.

Definition cleanTokenb (tok : string) : bool :=
  negb (String.eqb tok EmptyString)
  && forallb cleanChar (list_ascii_of_string tok).

(** The seed from which the next draw of a type's stream is made: the
    type's own seed, or the default seed when it has none yet. *)
Definition typeSeed (s : Rng.Seeds) (ty : string) : Z :=
  match Rng.seedsByType s !! ty with
  | Some z => if Z.eqb z 0 then Rng.defaultSeed s else z
  | None => Rng.defaultSeed s
  end.


(** Calling [f] [n] times. *)
Fixpoint times {A} (n : nat) (f : A -> A) (a : A) : A :=
  match n with
  | O => a
  | S n' => times n' f (f a)
  end.

End MoreSpec.

(* ===================================================================== *)
(** * Part II: properties                                                 *)
(* ===================================================================== *)

(** ** Numbers *)

Lemma ltb_lt (a b : Q) : ltb a b = true <-> a < b.
Proof.
  unfold ltb. rewrite Qlt_alt. destruct (a ?= b); split; congruence.
Qed.

Lemma ltb_ge (a b : Q) : ltb a b = false <-> b <= a.
Proof.
  split; intros H.
  - apply Qnot_lt_le. intros Hlt. apply ltb_lt in Hlt. congruence.
  - destruct (ltb a b) eqn:E; [|reflexivity].
    apply ltb_lt in E. exfalso. exact (Qlt_not_le _ _ E H).
Qed.

Lemma ltb_proper (a a' b b' : Q) :
  a == a' -> b == b' -> ltb a b = ltb a' b'.
Proof.
  intros Ha Hb. unfold ltb. now rewrite (Qcompare_comp _ _ Ha _ _ Hb).
Qed.

Lemma gtb_proper (a a' b b' : Q) :
  a == a' -> b == b' -> gtb a b = gtb a' b'.
Proof. intros Ha Hb. unfold gtb. now apply ltb_proper. Qed.

(** ** Overlap primitives *)

Module LogicFacts.
Import Logic.

Lemma collisionCheckWithOffsets_proper r1 r2 (a a' b b' : Q) :
  a == a' -> b == b' ->
  collisionCheckWithOffsets r1 r2 a b = collisionCheckWithOffsets r1 r2 a' b'.
Proof.
  intros Ha Hb. unfold collisionCheckWithOffsets.
  rewrite (ltb_proper (x r1 + a) (x r1 + a') _ (x r2 + width r2)),
          (gtb_proper (x r1 + width r1 + a) (x r1 + width r1 + a') _ (x r2)),
          (ltb_proper (y r1 + b) (y r1 + b') _ (y r2 + height r2)),
          (gtb_proper (y r1 + b + height r1) (y r1 + b' + height r1) _ (y r2));
    try reflexivity; now rewrite ?Ha, ?Hb.
Qed.

(** C9.  For all rectangles, the offset variant of the overlap test at
    offsets (0, 0) returns the same boolean as [collisionCheck] with zero
    look-ahead. *)
Theorem collisionCheckWithOffsets_zero (r1 r2 : UnitData) :
  collisionCheckWithOffsets r1 r2 0 0 = collisionCheck r1 r2 0.
Proof.
  unfold collisionCheckWithOffsets, collisionCheck, cc.
  rewrite (ltb_proper (y r1 + 0) (y r1) _ (y r2 + height r2)),
          (gtb_proper (y r1 + 0 + height r1) (y r1 + height r1) _ (y r2));
    try reflexivity; ring.
Qed.

End LogicFacts.

(** ** Sub-frame stepping *)

Module TweenFacts.
Import Logic LogicSpec.

Lemma tweenSteps_ge_2 s : 2 <= tweenSteps s.
Proof. unfold tweenSteps, minTweenSteps. apply Q.le_max_l. Qed.

Lemma tweenCeiling_pos s : (0 < Qceiling (tweenSteps s))%Z.
Proof.
  pose proof (tweenSteps_ge_2 s) as H.
  pose proof (Qle_ceiling (tweenSteps s)) as Hc.
  assert (Hq : 2 <= inject_Z (Qceiling (tweenSteps s))) by (eapply Qle_trans; eauto).
  change 2 with (inject_Z 2) in Hq. rewrite <- Zle_Qle in Hq. lia.
Qed.

(** An integer is below [tweenSteps] exactly when it is below its ceiling. *)
Lemma guard_ceiling s (i : Z) :
  ltb (inject_Z i) (tweenSteps s) = (i <? Qceiling (tweenSteps s))%Z.
Proof.
  destruct (Z.ltb_spec i (Qceiling (tweenSteps s))) as [Hlt|Hge].
  - apply ltb_lt. apply Qnot_le_lt. intros Hle.
    assert (Qceiling (tweenSteps s) <= Qceiling (inject_Z i))%Z
      by now apply Qceiling_resp_le.
    rewrite Qceiling_Z in H. lia.
  - apply ltb_ge. eapply Qle_trans; [apply Qle_ceiling|].
    now rewrite <- Zle_Qle.
Qed.

(** Below 2^53 the counter counts. *)
Lemma countsExactly_ceiling s :
  countsExactly s -> (Qceiling (tweenSteps s) <= maxExactInteger)%Z.
Proof.
  intros H. unfold countsExactly in H.
  apply Qceiling_resp_le in H. now rewrite Qceiling_Z in H.
Qed.

Lemma accumulate_shift (k : nat) (offset step : Q) :
  accumulate (S k) offset step = accumulate k (offset + step) step.
Proof.
  induction k as [|k IH]; [reflexivity|].
  change (accumulate (S (S k)) offset step)
    with (accumulate (S k) offset step + step).
  now rewrite IH.
Qed.

Lemma find_seq_shift (f g : nat -> bool) (n : nat) :
  (forall k, f (S k) = g k) ->
  forall a, find f (seq (S a) n) = option_map S (find g (seq a n)).
Proof.
  intros Hfg. induction n as [|n IH]; intros a; cbn [seq find].
  - reflexivity.
  - rewrite Hfg. destruct (g a); [reflexivity|apply IH].
Qed.

Lemma existsb_find {A} (f : A -> bool) (l : list A) :
  existsb f l = match find f l with Some _ => true | None => false end.
Proof.
  induction l as [|a l IH]; cbn; [reflexivity|].
  destruct (f a); [reflexivity|exact IH].
Qed.

(** What [find] returns is a first match. *)
Lemma find_seq_first (f : nat -> bool) (n : nat) :
  forall a k, find f (seq a n) = Some k ->
    (a <= k < a + n)%nat /\ f k = true
    /\ forall j, (a <= j < k)%nat -> f j = false.
Proof.
  induction n as [|n IH]; intros a k H; cbn [seq find] in H; [discriminate|].
  destruct (f a) eqn:E.
  - inversion H; subst. repeat split; [lia|lia|exact E|]. intros j Hj. lia.
  - destruct (IH _ _ H) as (Hk & Hf & Hfirst).
    repeat split; [lia|lia|exact Hf|].
    intros j Hj. destruct (Nat.eq_dec j a) as [->|Hne]; [exact E|].
    apply Hfirst. lia.
Qed.

(** The loop, once given fuel beyond the passes that remain and a counter
    that stays exact, ends by its guard or at the first offset that
    overlaps, and moves the source there if asked to. *)
Lemma tweenLoop_spec s t rp :
  (Qceiling (tweenSteps s) <= maxExactInteger)%Z ->
  forall (n : nat) (fuel : nat) (i : Z) (xo yo : Q),
    Z.of_nat n = (Qceiling (tweenSteps s) - i)%Z ->
    (n < fuel)%nat ->
    tweenLoop fuel s t rp i xo yo =
      Some (match find (fun k => collisionCheckWithOffsets s t
                                   (accumulate k xo (stepX s))
                                   (accumulate k yo (stepY s)))
                       (seq 1 n) with
            | Some k =>
                (true,
                 if rp
                 then set_xy s (x s + accumulate k xo (stepX s))
                               (y s + accumulate k yo (stepY s))
                 else s)
            | None => (false, s)
            end).
Proof.
  intros Hmax.
  induction n as [|n IH]; intros fuel i xo yo Hn Hfuel;
    (destruct fuel as [|fuel]; [lia|]); simpl tweenLoop; rewrite guard_ceiling.
  - destruct (Z.ltb_spec i (Qceiling (tweenSteps s))); [lia|]. reflexivity.
  - destruct (Z.ltb_spec i (Qceiling (tweenSteps s))); [|lia].
    cbn [seq find].
    change (accumulate 1 xo (stepX s)) with (xo + stepX s).
    change (accumulate 1 yo (stepY s)) with (yo + stepY s).
    destruct (collisionCheckWithOffsets s t (xo + stepX s) (yo + stepY s));
      [reflexivity|].
    assert (Hi : incr i = (i + 1)%Z).
    { unfold incr. destruct (Z.ltb_spec i maxExactInteger); [reflexivity|lia]. }
    rewrite Hi, (IH fuel (i + 1)%Z (xo + stepX s) (yo + stepY s)) by lia.
    rewrite (find_seq_shift
               (fun k => collisionCheckWithOffsets s t
                           (accumulate k xo (stepX s)) (accumulate k yo (stepY s)))
               (fun k => collisionCheckWithOffsets s t
                           (accumulate k (xo + stepX s) (stepX s))
                           (accumulate k (yo + stepY s) (stepY s))))
      by (intros k; now rewrite !accumulate_shift).
    destruct (find _ (seq 1 n)) as [k|]; cbn [option_map]; [|reflexivity].
    now rewrite !accumulate_shift.
Qed.

(** While the counter stays exact the loop ends, and [collisionCheckTweens]
    returns from it: [undefined] for an exempt pair, true with the source at
    the first overlapping offset (if repositioning), false otherwise. *)
Lemma collisionCheckTweens_run s t rp :
  countsExactly s ->
  collisionCheckTweens s t rp =
    if tweenExempt s t then (JUndefined, s)
    else match firstHit s t with
         | Some k => (JTrue, if rp then movedTo s k else s)
         | None => (JFalse, s)
         end.
Proof.
  intros Hc. apply countsExactly_ceiling in Hc.
  pose proof (tweenCeiling_pos s) as Hpos.
  unfold collisionCheckTweens. destruct (tweenExempt s t); [reflexivity|].
  rewrite (tweenLoop_spec s t rp Hc (tweenCount s) (tweenFuel s) 0%Z
             (- vX s) (- vY s))
    by (unfold tweenCount, tweenFuel; lia).
  unfold firstHit, hitsAt, movedTo, tweenOffsetX, tweenOffsetY.
  destruct (find _ (seq 1 (tweenCount s))); reflexivity.
Qed.

(** C1 (as amended).  [collisionCheckTweens] tests intermediate offsets
    only.  While the loop counter is exact ([tweenSteps] at most 2^53), it
    returns [undefined] for an exempt pair and otherwise true exactly when
    [collisionCheckWithOffsets] holds at one of the offsets that the loop
    accumulates - the rolled-back offset [-v] after [k] additions of
    [v / (tweenSteps + 1)], for [k = 1 .. ceil tweenSteps], of which there
    are at least two.  An overlap at the start-of-frame or end-of-frame
    position is therefore reported only if it also holds at one of these
    offsets. *)
Theorem collisionCheckTweens_intermediate (s t : UnitData) (rp : bool) :
  countsExactly s ->
  fst (collisionCheckTweens s t rp)
  = (if tweenExempt s t then JUndefined else ofBool (overlapsBetween s t))
  /\ (2 <= tweenCount s)%nat.
Proof.
  intros Hc. split.
  - rewrite (collisionCheckTweens_run s t rp Hc).
    destruct (tweenExempt s t); [reflexivity|].
    unfold overlapsBetween, firstHit. rewrite existsb_find.
    destruct (find _ _); reflexivity.
  - pose proof (tweenSteps_ge_2 s) as H.
    pose proof (Qle_ceiling (tweenSteps s)) as Hle.
    assert (Hq : 2 <= inject_Z (Qceiling (tweenSteps s)))
      by (eapply Qle_trans; eauto).
    change 2 with (inject_Z 2) in Hq. rewrite <- Zle_Qle in Hq.
    unfold tweenCount. lia.
Qed.

(** A projectile that moved by 3: the offsets tested are -2 and -1. *)
Lemma collisionCheckTweens_intermediate_witness :
  fst (collisionCheckTweens shot block true)
  = (if tweenExempt shot block then JUndefined
     else ofBool (overlapsBetween shot block))
  /\ (2 <= tweenCount shot)%nat.
Proof.
  apply (collisionCheckTweens_intermediate shot block true).
  vm_compute. discriminate.
Defined.

(** C1 (as stated) fails: a projectile that moved by 3 onto a target it
    overlaps at its current position, with no overlap at the two tested
    offsets -2 and -1. *)
Lemma tween_misses_endpoint : ~ tweenCoversEndpoints.
Proof.
  intros H.
  assert (Hv : ~ vX shot == 0 \/ ~ vY shot == 0) by (left; discriminate).
  specialize (H shot block eq_refl Hv (or_intror eq_refl)).
  vm_compute in H. discriminate H.
Qed.

End TweenFacts.

(** ** Hit dispatch *)

Module DispatchFacts.
Import Logic DispatchSpec.

(** The tween check leaves the source as it is or moves it. *)
Lemma tweenLoop_source s t rp :
  forall fuel i xo yo b s',
    tweenLoop fuel s t rp i xo yo = Some (b, s') ->
    s' = s \/ exists a c, s' = set_xy s a c.
Proof.
  induction fuel as [|fuel IH]; intros i xo yo b s' H; simpl in H.
  - discriminate.
  - destruct (ltb (inject_Z i) (tweenSteps s)).
    + destruct (collisionCheckWithOffsets s t (xo + stepX s) (yo + stepY s)).
      * inversion H; subst. destruct rp; eauto.
      * eauto.
    + inversion H; subst. now left.
Qed.

Lemma collisionCheckTweens_source s t rp :
  let s' := snd (collisionCheckTweens s t rp) in
  type s' = type s /\ role s' = role s.
Proof.
  unfold collisionCheckTweens.
  destruct (tweenExempt s t); [now split|].
  destruct (tweenLoop (tweenFuel s) s t rp 0%Z (- vX s) (- vY s))
    as [[b s']|] eqn:E; [|now split].
  apply tweenLoop_source in E. cbn.
  destruct E as [->|(a & c & ->)]; now split.
Qed.

(** The three-way test touches nothing but the source's data. *)
Lemma hitTest_frame o w sl tl xLA h w1 :
  hitTest o w sl tl xLA = (h, w1) ->
  objectsById w1 = objectsById w
  /\ (forall l, l <> sl -> heap w1 l = heap w l)
  /\ type (heap w1 sl) = type (heap w sl)
  /\ role (heap w1 sl) = role (heap w sl).
Proof.
  unfold hitTest. intros H.
  destruct (collisionCheck (heap w sl) (heap w tl) xLA).
  { inversion H; subst. repeat split; reflexivity. }
  destruct (checkTweens o).
  2:{ cbn in H. inversion H; subst. repeat split; reflexivity. }
  pose proof (collisionCheckTweens_source (heap w sl) (heap w tl)
                (match checkTweensRepositionOnHit o with
                 | Some b => b | None => true end)) as Hsrc.
  destruct (collisionCheckTweens (heap w sl) (heap w tl) _) as [r s'].
  cbn in Hsrc. destruct Hsrc as [Hty Hro].
  assert (Hw : w1 = set_heap w sl s')
    by (destruct (truthy r); inversion H; reflexivity).
  subst w1. cbn. repeat split.
  - intros l Hl. apply Nat.eqb_neq in Hl. now rewrite Hl.
  - now rewrite Nat.eqb_refl.
  - now rewrite Nat.eqb_refl.
Qed.

Lemma String_eqb_eq a b : String_eqb a b = true -> a = b.
Proof. apply String.eqb_eq. Qed.

(** What eligibility says about the target. *)
Lemma eligible_target o s t :
  eligible o s t = true ->
  id t <> id s
  /\ excludeFromCollision t = false
  /\ (dead t = false
      \/ (type t = T.turret /\ type s = T.infantry /\ role s <> 0%Z)).
Proof.
  unfold eligible. intros H.
  apply andb_prop in H as [H _].
  apply andb_prop in H as [H Hdead].
  apply andb_prop in H as [Hid Hex].
  split; [|split].
  - intros E. unfold String_eqb in Hid. rewrite E, String.eqb_refl in Hid.
    discriminate.
  - now destruct (excludeFromCollision t).
  - apply Bool.orb_prop in Hdead as [Hd|Ht].
    + left. now destruct (dead t).
    + right. apply andb_prop in Ht as [Ht Hr].
      apply andb_prop in Ht as [Ht Hs].
      repeat split; try now apply String_eqb_eq.
      unfold truthyRole in Hr. intros E. rewrite E in Hr. discriminate.
Qed.

Section WithSprites.

Variable updateEnergy : string -> World -> World.

Lemma targetLoop_events o sl xLA :
  forall keys w fh ev,
    Forall hitAllowed ev ->
    Forall hitAllowed (snd (targetLoop updateEnergy o sl xLA keys w fh ev)).
Proof.
  induction keys as [|k keys IH]; intros w fh ev Hev; cbn [targetLoop].
  - exact Hev.
  - destruct (optionsTargets w); [|exact Hev].
    destruct (objectsById w !! k) as [tl|] eqn:Hk; [|now apply IH].
    destruct (eligible o (heap w sl) (heap w tl)) eqn:Hel; [|now apply IH].
    destruct (hitTest o w sl tl xLA) as [h w1] eqn:Hh.
    destruct h; [|now apply IH].
    destruct (hit o) as [f|]; [|now apply IH].
    apply IH. apply Forall_app; split; [exact Hev|].
    constructor; [|constructor].
    apply hitTest_frame in Hh as (Hreg & Hheap & Hty & Hro).
    apply eligible_target in Hel as (Hid & Hex & Hdead).
    assert (Hne : tl <> sl) by (intros ->; now apply Hid).
    unfold hitAllowed; cbn. rewrite Hreg, (Hheap tl Hne), Hty, Hro.
    repeat split; eauto.
Qed.

Lemma collisionCheckObject_events o w :
  Forall hitAllowed (snd (collisionCheckObject updateEnergy o w)).
Proof.
  unfold collisionCheckObject.
  destruct (optionsTargets w); [|constructor].
  destruct (source o) as [[i|xl]|]; try constructor.
  destruct (objectsById w !! i); [|constructor].
  destruct (dead _ || isInert _ || _); [constructor|].
  apply targetLoop_events. constructor.
Qed.

Lemma zoneLoop_events o zone :
  forall its w ev,
    Forall hitAllowed ev ->
    Forall hitAllowed (snd (zoneLoop updateEnergy o zone its w ev)).
Proof.
  induction its as [|it its IH]; intros w ev Hev; cbn [zoneLoop].
  - exact Hev.
  - destruct (objectsByZone w !! zone) as [zo|]; [|exact Hev].
    destruct (zo !! Global.propKey (Global.igroup it)) as [byType|];
      [|exact Hev].
    destruct (optionsTargets (set_optionsTargets w _)) eqn:E; [|now apply IH].
    pose proof (collisionCheckObject_events o
                  (set_optionsTargets w (byType !! Global.propKey (Global.itype it))))
      as Hco.
    destruct (collisionCheckObject updateEnergy o _) as [[r w2] ev2].
    apply IH. apply Forall_app; split; [exact Hev|exact Hco].
Qed.

Lemma collisionCheckZone_events c o zone w :
  Forall hitAllowed (snd (collisionCheckZone updateEnergy c o zone w)).
Proof. apply zoneLoop_events. constructor. Qed.

(** C2 (as amended).  In every dispatch pass, each id handed to
    [options.hit] is the id of a registered unit that is not excluded from
    collision, and that is alive unless it is a turret being checked by an
    engineer (an infantry source with a role). *)
Theorem hit_only_allowed (c : Collision) (el : loc) (o : Options) (w : World) :
  Forall hitAllowed (snd (collisionTest updateEnergy c el w))
  /\ Forall hitAllowed (snd (collisionCheckObject updateEnergy o w)).
Proof.
  split; [|apply collisionCheckObject_events]. clear o.
  unfold collisionTest.
  destruct (frontZone (heap w el)) as [fz|]; [|constructor].
  destruct (rearZone (heap w el)) as [rz0|]; [|constructor].
  set (o := match source (options c) with Some _ => _ | None => _ end).
  pose proof (collisionCheckZone_events c o fz w) as H1.
  destruct (collisionCheckZone updateEnergy c o fz w) as [[r1 w1] ev1].
  cbn in H1. destruct r1 as [[]|m]; [|exact H1].
  destruct (multiZone (heap w1 el)); [|exact H1].
  destruct (rearZone (heap w1 el)) as [rz|].
  - pose proof (collisionCheckZone_events c o rz w1) as H2.
    destruct (collisionCheckZone updateEnergy c o rz w1) as [[r2 w2] ev2].
    cbn in *. apply Forall_app; split; assumption.
  - destruct (items c); exact H1.
Qed.

End WithSprites.

(** C2 (as stated) fails: an engineer overlapping a dead turret has the
    dead turret's id passed to the hit callback. *)
Lemma hit_reaches_dead_turret : ~ hitOnlyLiveUnexcluded.
Proof.
  intros H.
  destruct (H (fun _ w => w) engineerCollision 0%nat
              (options engineerCollision) engineerSide) as [H1 _].
  clear H. rename H1 into H. vm_compute in H.
  inversion H as [|e l He _]; subst.
  destruct He as (_ & _ & Hdead & _). discriminate Hdead.
Qed.

End DispatchFacts.

(** ** Target location *)

Module NearestFacts.
Import Logic NearestSpec.

Lemma pickNearest_helicopter sData o sorted :
  type sData = T.helicopter ->
  getAll o = false ->
  forall c0 rest,
    (if isEnemy sData then rev sorted else sorted) = c0 :: rest ->
    pickNearest sData o sorted =
      if String_eqb (candType c0) T.superBunker then
        match rest with
        | [] => NUndefined
        | c1 :: _ => if bottomAligned (data (obj c1)) then NUndefined
                     else NId (candId c1)
        end
      else NId (candId c0).
Proof.
  intros Hty Hall c0 rest Hl.
  unfold pickNearest. rewrite Hty, Hall.
  change (String_eqb T.helicopter T.helicopter) with true. cbn [andb negb].
  destruct sorted as [|a sorted'].
  { destruct (isEnemy sData); discriminate Hl. }
  rewrite Hl. cbn [length Nat.eqb negb andb].
  destruct (String_eqb (candType c0) T.superBunker); cbn [andb].
  - destruct rest as [|c1 rest']; cbn; [reflexivity|].
    destruct (bottomAligned (data (obj c1))); reflexivity.
  - reflexivity.
Qed.

(** C5 (as amended).  For a helicopter source whose sorted candidates are a
    super bunker at distance 50 and an opposing, non-bottom-aligned aircraft
    at distance 80, [getNearestObject] returns the aircraft's id; if the
    super bunker is the only candidate it returns no target; and if the
    candidate after the super bunker is bottom-aligned it returns no target
    provided the source is not an enemy helicopter (for which the sorted
    list is reversed before the rule is applied). *)
Theorem nearest_occlusion
    (objects : gmap string (list GameObject))
    (sData : UnitData) (o : NearestOptions) (sorted : list Candidate) :
  type sData = T.helicopter ->
  getAll o = false ->
  sortedCandidates objects sData o = Normal sorted ->
  (forall sb c,
      sorted = [sb; c] ->
      candType sb = T.superBunker -> atDistance sb 50 ->
      candType c = T.helicopter -> atDistance c 80 ->
      bottomAligned (data (obj c)) = false ->
      getNearestObject objects sData o = Normal (NId (candId c)))
  /\ (forall sb,
         sorted = [sb] -> candType sb = T.superBunker ->
         noTarget (getNearestObject objects sData o) = true)
  /\ (forall sb c rest,
         sorted = sb :: c :: rest -> candType sb = T.superBunker ->
         bottomAligned (data (obj c)) = true ->
         isEnemy sData = false ->
         noTarget (getNearestObject objects sData o) = true).
Proof.
  intros Hty Hall Hsorted. unfold getNearestObject. rewrite Hsorted.
  split; [|split].
  - intros sb c -> Hsb _ Hc _ Hbot.
    destruct (isEnemy sData) eqn:He.
    + rewrite (pickNearest_helicopter sData o _ Hty Hall c [sb])
        by (rewrite He; reflexivity).
      now rewrite Hc.
    + rewrite (pickNearest_helicopter sData o _ Hty Hall sb [c])
        by (rewrite He; reflexivity).
      now rewrite Hsb, Hbot.
  - intros sb -> Hsb.
    rewrite (pickNearest_helicopter sData o _ Hty Hall sb [])
      by (destruct (isEnemy sData); reflexivity).
    now rewrite Hsb.
  - intros sb c rest -> Hsb Hbot He.
    rewrite (pickNearest_helicopter sData o _ Hty Hall sb (c :: rest))
      by (rewrite He; reflexivity).
    now rewrite Hsb, Hbot.
Qed.

(** The scenario of C5 evaluated: super bunker at 50, enemy helicopter at
    80, seen from the player's helicopter. *)
Lemma nearest_occlusion_witness :
  getNearestObject skyScene (data playerCopter) noOptions
  = Normal (NId "helicopter_2").
Proof.
  refine (proj1 (nearest_occlusion skyScene (data playerCopter) noOptions
                   [mkCandidate enemyBunker (Sqrt 2500);
                    mkCandidate enemyCopter (Sqrt 6400)]
                   eq_refl eq_refl _)
                _ _ eq_refl eq_refl _ eq_refl _ eq_refl).
  - vm_compute. reflexivity.
  - vm_compute. reflexivity.
  - vm_compute. reflexivity.
Defined.

Example nearest_lone_superBunker :
  getNearestObject loneScene (data playerCopter) noOptions = Normal NUndefined.
Proof. vm_compute. reflexivity. Qed.

Example nearest_blocked_tank :
  getNearestObject groundScene (data playerCopter) noOptions = Normal NUndefined.
Proof. vm_compute. reflexivity. Qed.

(** C5 (as stated) fails for an enemy helicopter: with a super bunker at 50
    and a bottom-aligned tank at 80, the reversed list starts with the tank,
    whose id is returned. *)
Lemma enemy_helicopter_reaches_past_superBunker : ~ occlusionAsStated.
Proof.
  intros H.
  destruct (H cpuGroundScene (data cpuCopter) noOptions
              [mkCandidate playerBunker (Sqrt 2500);
               mkCandidate playerTank (Sqrt 6400)]
              eq_refl eq_refl) as (_ & _ & Hc).
  - vm_compute. reflexivity.
  - specialize (Hc _ _ _ eq_refl eq_refl eq_refl).
    vm_compute in Hc. discriminate Hc.
Qed.

End NearestFacts.

(** ** Query construction *)

Module GlobalFacts.
Import Global GlobalSpec.

Example TYPES_superBunker : TYPES !! "superBunker" = Some T.superBunker.
Proof. vm_compute. reflexivity. Qed.

Example TYPES_missileLauncher : TYPES !! "missileLauncher" = Some T.missileLauncher.
Proof. vm_compute. reflexivity. Qed.

Example parseTypeString_sample :
  parseTypeString (Some "tank, van|infantry") = ["tank"; "van"; "infantry"].
Proof. vm_compute. reflexivity. Qed.

Lemma mapM_isThrow {A B} (f : A -> Completion B) (l : list A) :
  isThrow (mapM f l) = existsb (fun a => isThrow (f a)) l.
Proof.
  induction l as [|a l IH]; [reflexivity|].
  cbn [mapM existsb]. destruct (f a) as [b|m]; cbn [bind isThrow orb]; [|reflexivity].
  rewrite <- IH. destruct (mapM f l); reflexivity.
Qed.

Lemma mapM_Normal {A B} (f : A -> Completion B) (l : list A) :
  forall bs, mapM f l = Normal bs -> Forall2 (fun a b => f a = Normal b) l bs.
Proof.
  induction l as [|a l IH]; intros bs H; cbn [mapM] in H.
  - inversion H. constructor.
  - destruct (f a) as [b|m] eqn:E; cbn [bind] in H; [|discriminate].
    destruct (mapM f l) as [bs'|m]; cbn [bind] in H; [|discriminate].
    inversion H; subst. constructor; [exact E|]. now apply IH.
Qed.

Lemma determineGroup_isThrow (g : option string) (e : option Exports) :
  isThrow (determineGroup g e)
  = match e with
    | Some ExportsNoData =>
        negb (String.eqb (match g with Some g => g | None => "all" end) "all")
    | _ => false
    end.
Proof.
  unfold determineGroup.
  destruct (String.eqb (match g with Some g0 => g0 | None => "all" end) "all").
  - destruct e as [[d|]|]; reflexivity.
  - destruct e as [[d|]|]; [|reflexivity|reflexivity].
    destruct (isEnemy d || hostile d)%bool; reflexivity.
Qed.

(** One token faults exactly when it asks for a group of an [exports]
    without [data]. *)
Lemma itemOf_isThrow (e : option Exports) (g : JsProp) (tok : string) :
  isThrow (itemOf e g tok)
  = match e with
    | Some ExportsNoData => asksGroup tok
    | _ => false
    end.
Proof.
  unfold itemOf, asksGroup, groupPart. destruct (contains ":" tok).
  - pose proof (determineGroup_isThrow (nth_error (splitOn ":" tok) 1) e) as D.
    destruct (determineGroup (nth_error (splitOn ":" tok) 1) e) as [ig|m];
      cbn [bind isThrow] in *;
      destruct e as [[d|]|]; try reflexivity; try discriminate D;
      destruct (nth_error (splitOn ":" tok) 1); exact D.
  - destruct e as [[d|]|]; reflexivity.
Qed.

Lemma items_isThrow (e : option Exports) (g : JsProp) (l : list string) :
  isThrow (mapM (itemOf e g) l)
  = match e with
    | Some ExportsNoData => existsb asksGroup l
    | _ => false
    end.
Proof.
  rewrite mapM_isThrow. induction l as [|tok l IH].
  - destruct e as [[d|]|]; reflexivity.
  - cbn [existsb]. rewrite IH, itemOf_isThrow.
    destruct e as [[d|]|]; reflexivity.
Qed.

(** The item that [getTypes] makes of one token. *)
Lemma itemOf_type (e : option Exports) (g : JsProp) (tok : string) (it : Item) :
  itemOf e g tok = Normal it -> itype it = getProp TYPES (typePart tok).
Proof.
  intros H. unfold itemOf in H. unfold typePart. destruct (contains ":" tok).
  - destruct (determineGroup _ e); cbn [bind] in H; [|discriminate].
    now inversion H.
  - now inversion H.
Qed.

Lemma Forall2_map_eq {A B C} (P : A -> B -> Prop) (f : B -> C) (g : A -> C)
    (l : list A) (bs : list B) :
  (forall a b, P a b -> f b = g a) -> Forall2 P l bs -> map f bs = map g l.
Proof.
  intros H F. induction F as [|a b l bs Hab _ IH]; [reflexivity|].
  cbn. now rewrite (H a b Hab), IH.
Qed.

(** [getTypes] on an options object, or on the default one. *)
Lemma getTypes_object (ts : string) (o : GetTypesOptions) :
  getTypes (Some ts) (OptionsObject o)
  = bind (if String.eqb (askedGroup o) "all" then Normal (PString (askedGroup o))
          else determineGroup (Some (askedGroup o)) (exports o))
         (fun g => mapM (itemOf (exports o) g) (parseTypeString (Some ts))).
Proof. reflexivity. Qed.

Lemma getTypes_omitted (ts : string) :
  getTypes (Some ts) OptionsOmitted
  = getTypes (Some ts) (OptionsObject (mkGetTypesOptions (Some "enemy") None)).
Proof. reflexivity. Qed.

Lemma getTypes_isThrow (ts : string) (o : GetTypesOptions) :
  isThrow (getTypes (Some ts) (OptionsObject o)) = faults (OptionsObject o) ts.
Proof.
  rewrite getTypes_object. unfold faults, determinesGroup.
  destruct (String.eqb (askedGroup o) "all") eqn:Ea; cbn [negb orb bind].
  - apply items_isThrow.
  - pose proof (determineGroup_isThrow (Some (askedGroup o)) (exports o)) as D.
    cbv beta iota in D. rewrite Ea in D. cbn [negb] in D.
    destruct (determineGroup (Some (askedGroup o)) (exports o)) as [g|m];
      cbn [bind isThrow] in *.
    + rewrite items_isThrow. destruct (exports o) as [[d|]|]; [reflexivity| |reflexivity].
      discriminate D.
    + destruct (exports o) as [[d|]|]; [discriminate D|reflexivity|discriminate D].
Qed.

Lemma getTypes_types (ts : string) (o : GetTypesOptions) (items : list Item) :
  getTypes (Some ts) (OptionsObject o) = Normal items ->
  map itype items
  = map (fun tok => getProp TYPES (typePart tok)) (parseTypeString (Some ts)).
Proof.
  rewrite getTypes_object. intros H.
  match type of H with bind ?c _ = _ => destruct c as [g|m] end;
    cbn [bind] in H; [|discriminate].
  apply mapM_Normal in H.
  eapply Forall2_map_eq; [|exact H].
  intros tok it Hit. eapply itemOf_type. exact Hit.
Qed.

(** C7 (as amended).  [getTypes] does not fault because of an unknown
    token.  Whether it faults is settled by the options and the group
    overrides alone: it does on [null] options, and on an [exports] object
    without [data] when a group other than ['all'] has to be determined.
    When it returns, it returns one item per token, whose type is
    [TYPES[name]] for the name in the token: the entry if there is one, and
    otherwise [undefined] - or the member of [Object.prototype] of that
    name, since [TYPES] is a plain object.  With the options left out, or an
    [exports] that has [data], it always returns. *)
Theorem getTypes_never_faults (ts : string) (options : OptionsArg) :
  isThrow (getTypes (Some ts) options) = faults options ts
  /\ (forall items, getTypes (Some ts) options = Normal items ->
        map itype items
        = map (fun tok => getProp TYPES (typePart tok)) (parseTypeString (Some ts)))
  /\ (forall name, TYPES !! name = None -> getProp TYPES name = unknownType name)
  /\ (usableOptions options = true ->
        exists items, getTypes (Some ts) options = Normal items).
Proof.
  assert (Hthrow : isThrow (getTypes (Some ts) options) = faults options ts).
  { destruct options as [| |o]; [|reflexivity|apply getTypes_isThrow].
    rewrite getTypes_omitted. apply getTypes_isThrow. }
  split; [exact Hthrow|]. split; [|split].
  - intros items H. destruct options as [| |o]; [|discriminate|].
    + rewrite getTypes_omitted in H. now apply getTypes_types in H.
    + now apply getTypes_types in H.
  - intros name H. unfold getProp, unknownType. now rewrite H.
  - intros Hu.
    assert (Hf : faults options ts = false).
    { unfold usableOptions in Hu. unfold faults.
      destruct options as [| |o]; [reflexivity|discriminate|].
      destruct (exports o) as [[d|]|]; [reflexivity|discriminate|reflexivity]. }
    rewrite Hf in Hthrow.
    destruct (getTypes (Some ts) options) as [items|m]; [eauto|discriminate].
Qed.

(** The default call, on a string with an unknown token and the name of a
    member of [Object.prototype]. *)
Lemma getTypes_never_faults_witness :
  exists items, getTypes (Some "tank, foo, constructor") OptionsOmitted = Normal items.
Proof.
  exact (proj2 (proj2 (proj2
           (getTypes_never_faults "tank, foo, constructor" OptionsOmitted))) eq_refl).
Defined.

(** C7 (as stated) fails: ["tank, foo"] yields a two-item query whose second
    item has no type, and no error. *)
Lemma unknown_token_accepted : ~ unknownTokenFaults.
Proof.
  intros H.
  assert (Hu : hasUnknownToken "tank, foo").
  { exists "foo". split; [vm_compute; auto|vm_compute; reflexivity]. }
  specialize (H "tank, foo" OptionsOmitted Hu). vm_compute in H. discriminate H.
Qed.

Example getTypes_unknown_token :
  getTypes (Some "tank, foo, constructor")
           (OptionsObject (mkGetTypesOptions (Some "all") None))
  = Normal [mkItem (PString "tank") (PString "all");
            mkItem PUndefined (PString "all");
            mkItem (PInherited "constructor") (PString "all")].
Proof. vm_compute. reflexivity. Qed.

Example getTypes_null_options :
  isThrow (getTypes (Some "tank") OptionsNull) = true
  /\ isThrow (getTypes (Some "tank")
                (OptionsObject (mkGetTypesOptions None (Some ExportsNoData)))) = true
  /\ getTypes None OptionsNull = Normal [].
Proof. vm_compute. repeat split; reflexivity. Qed.

End GlobalFacts.

(** ** The bomb ledger *)

Module LedgerFacts.
Import HelicopterAI LedgerSpec.

Section Ledger.

Variable lc : LevelConfig.

Local Abbreviation key := (getBombTargetID lc).
Local Abbreviation ledger := bombsByTarget.

(** Firing timers only deletes entries. *)
Lemma fire_lookup a st k e :
  ledger (fire a st) !! k = Some e -> ledger st !! k = Some e.
Proof.
  destruct a as [i|]; cbn; [|auto].
  intros H. apply lookup_delete_Some in H. tauto.
Qed.

Lemma fold_fire_lookup fired : forall st k e,
  ledger (fold_left (fun s tm => fire (action tm) s) fired st) !! k = Some e ->
  ledger st !! k = Some e.
Proof.
  induction fired as [|tm fired IH]; intros st k e H; cbn in H; [exact H|].
  apply IH in H. now apply fire_lookup in H.
Qed.

Lemma advance_lookup dt st k e :
  ledger (advance dt st) !! k = Some e -> ledger st !! k = Some e.
Proof. unfold advance. intros H. now apply fold_fire_lookup in H. Qed.

(** A fired deletion of [k] leaves no entry for [k]. *)
Lemma fold_fire_deleted k fired : forall st,
  existsb (deletesKey k) fired = true ->
  ledger (fold_left (fun s tm => fire (action tm) s) fired st) !! k = None.
Proof.
  induction fired as [|tm fired IH]; intros st H; cbn in H; [discriminate|].
  cbn [fold_left].
  destruct (existsb (deletesKey k) fired) eqn:E.
  - now apply IH.
  - rewrite Bool.orb_false_r in H.
    destruct (ledger (fold_left _ fired (fire (action tm) st)) !! k) as [e|] eqn:L;
      [|reflexivity].
    apply fold_fire_lookup in L.
    unfold deletesKey in H. destruct (action tm) as [k'|]; [|discriminate].
    apply String.eqb_eq in H. subst k'. cbn in L.
    rewrite lookup_delete_eq in L. discriminate.
Qed.

(** Without a fired deletion of [k], the entry for [k] is untouched. *)
Lemma fold_fire_kept k fired : forall st,
  existsb (deletesKey k) fired = false ->
  ledger (fold_left (fun s tm => fire (action tm) s) fired st) !! k
  = ledger st !! k.
Proof.
  induction fired as [|tm fired IH]; intros st H; cbn in H; [reflexivity|].
  apply Bool.orb_false_elim in H as [H1 H2]. cbn [fold_left].
  rewrite IH by exact H2.
  unfold deletesKey in H1. destruct (action tm) as [k'|]; cbn; [|reflexivity].
  apply String.eqb_neq in H1. now rewrite lookup_delete_ne.
Qed.

(** [canBombTarget] leaves existing entries alone and may add a fresh one
    for a target that is not a turret. *)
Lemma canBombTarget_lookup t st k e :
  ledger (snd (canBombTarget lc t st)) !! k = Some e ->
  ledger st !! k = Some e
  \/ (exists d, t = Some d /\ isTurret d = false /\ k = key t
                /\ ledger st !! k = None /\ e = newEntry d).
Proof.
  unfold canBombTarget. destruct t as [d|]; [|auto].
  fold (isTurret d). destruct (isTurret d) eqn:Ht; [auto|].
  destruct (ledger st !! key (Some d)) as [bbt|] eqn:L.
  - destruct (bombLimit bbt <=? bombCount bbt)%Z; auto.
  - intros H.
    assert (H' : <[key (Some d) := newEntry d]> (ledger st) !! k = Some e)
      by (destruct (bombLimit (newEntry d) <=? bombCount (newEntry d))%Z; exact H).
    apply lookup_insert_Some in H' as [[<- <-]|[_ H']]; [|auto].
    right. exists d. auto.
Qed.

Lemma newEntry_sane d : entrySane (newEntry d).
Proof.
  unfold entrySane, newEntry; cbn.
  destruct (_ || _); split; auto; lia.
Qed.

Lemma addBomb_lookup t st k e :
  ledger (addBomb lc t st) !! k = Some e ->
  ledger st !! k = Some e
  \/ (k = key t /\ exists e0, ledger st !! k = Some e0
                              /\ e = mkBombEntry (bombCount e0 + 1) (bombLimit e0) None).
Proof.
  unfold addBomb. destruct (ledger st !! key t) as [e0|] eqn:L; [|auto].
  intros H.
  assert (H' : <[key t := mkBombEntry (bombCount e0 + 1) (bombLimit e0) None]>
                 (ledger st) !! k = Some e)
    by (destruct (timer e0); exact H).
  apply lookup_insert_Some in H' as [[<- <-]|[_ H']]; eauto.
Qed.

Lemma removeBomb_lookup t st k e :
  ledger (removeBomb lc t st) !! k = Some e ->
  ledger st !! k = Some e
  \/ (k = key t /\ exists e0, ledger st !! k = Some e0
        /\ (0 < bombCount e)%Z /\ bombCount e = (bombCount e0 - 1)%Z
        /\ bombLimit e = bombLimit e0).
Proof.
  unfold removeBomb. destruct (ledger st !! key t) as [e0|] eqn:L; [|auto].
  destruct (Z.eqb_spec (Z.max 0 (bombCount e0 - 1)) 0) as [E|E]; cbn.
  - intros H. apply lookup_delete_Some in H. tauto.
  - intros H. apply lookup_insert_Some in H as [[<- <-]|[_ H]]; [|auto].
    right. split; [reflexivity|]. exists e0. cbn. repeat split; auto; lia.
Qed.

Lemma clearBombWithDelay_lookup t delay st k e :
  ledger (clearBombWithDelay lc t delay st) !! k = Some e ->
  exists e0, ledger st !! k = Some e0
             /\ bombCount e = bombCount e0 /\ bombLimit e = bombLimit e0.
Proof.
  unfold clearBombWithDelay. destruct (ledger st !! key t) as [e0|] eqn:L; [|eauto].
  destruct (timer e0); [eauto|]. cbn.
  intros H. apply lookup_insert_Some in H as [[<- <-]|[_ H]]; eauto.
Qed.


(** *** Every entry is sane, whatever the calls *)

Lemma canBombTarget_sane t st : allSane st -> allSane (snd (canBombTarget lc t st)).
Proof.
  intros H k e L. apply canBombTarget_lookup in L as [L|(d & _ & _ & _ & _ & ->)].
  - eauto.
  - apply newEntry_sane.
Qed.

Lemma addBomb_sane t st : allSane st -> allSane (addBomb lc t st).
Proof.
  intros H k e L. apply addBomb_lookup in L as [L|(_ & e0 & L & ->)]; [eauto|].
  destruct (H _ _ L) as [Hc Hl]. split; cbn; [lia|exact Hl].
Qed.

Lemma step_sane o st : allSane st -> allSane (step lc o st).
Proof.
  intros H. destruct o as [t|t|t|t|t delay|dt]; cbn [step].
  - now apply canBombTarget_sane.
  - now apply addBomb_sane.
  - unfold dropBomb.
    pose proof (canBombTarget_sane t st H) as H1.
    destruct (canBombTarget lc t st) as [r st1]. cbn in H1.
    destruct (truthy r); [now apply addBomb_sane|exact H1].
  - intros k e L.
    apply removeBomb_lookup in L as [L|(_ & e0 & L & Hpos & _ & Hl)]; [eauto|].
    destruct (H _ _ L) as [_ Hl0]. split; [lia|now rewrite Hl].
  - intros k e L.
    apply clearBombWithDelay_lookup in L as (e0 & L & Hc & Hl).
    destruct (H _ _ L) as [Hc0 Hl0]. split; [lia|now rewrite Hl].
  - intros k e L. apply advance_lookup in L. eauto.
Qed.

Lemma run_sane ops : forall st, allSane st -> allSane (run lc ops st).
Proof.
  induction ops as [|o ops IH]; intros st H; cbn; [exact H|].
  apply IH. now apply step_sane.
Qed.

(** *** Counts stay within the limit when bombs are counted through the gate *)

Lemma turretKeysApart_spec ts : turretKeysApart lc ts = true -> keysApart lc ts.
Proof.
  unfold turretKeysApart, keysApart. intros H a b Ha Hb Ht Hk.
  rewrite forallb_forall in H. specialize (H a Ha).
  rewrite forallb_forall in H. specialize (H b Hb).
  rewrite Ht, Hk, String.eqb_refl in H. exact H.
Qed.

Lemma keysApart_incl ts ts' : incl ts ts' -> keysApart lc ts' -> keysApart lc ts.
Proof. intros Hi H a b Ha Hb. apply H; auto. Qed.

Lemma allWithin_incl seen seen' st :
  incl seen seen' -> allWithin lc seen st -> allWithin lc seen' st.
Proof.
  intros Hi H k e L. destruct (H k e L) as (Hc & u & Hu & Ht & Hk). eauto 6.
Qed.

Lemma canBombTarget_within t st seen :
  allWithin lc seen st ->
  allWithin lc (seen ++ targetOf (OCanBombTarget t)) (snd (canBombTarget lc t st)).
Proof.
  intros H k e L.
  apply canBombTarget_lookup in L as [L|(d & -> & Ht & -> & _ & ->)].
  - destruct (H k e L) as (Hc & u & Hu & Htu & Hk).
    split; [exact Hc|]. exists u. rewrite in_app_iff. auto.
  - split.
    + unfold newEntry; cbn. destruct (_ || _); lia.
    + exists d. rewrite in_app_iff. cbn. auto.
Qed.

(** A granted request: a turret, or an entry with room left. *)
Lemma canBombTarget_granted t st :
  fst (canBombTarget lc t st) = JTrue ->
  (exists d, t = Some d /\ isTurret d = true
             /\ snd (canBombTarget lc t st) = st)
  \/ (exists bbt, ledger (snd (canBombTarget lc t st)) !! key t = Some bbt
                  /\ (bombCount bbt < bombLimit bbt)%Z).
Proof.
  unfold canBombTarget. destruct t as [d|]; [|discriminate].
  fold (isTurret d). destruct (isTurret d) eqn:Ht; [left; eauto|].
  destruct (ledger st !! key (Some d)) as [bbt|] eqn:L.
  - destruct (Z.leb_spec (bombLimit bbt) (bombCount bbt)); [discriminate|].
    intros _. right. exists bbt. cbn. auto.
  - destruct (Z.leb_spec (bombLimit (newEntry d)) (bombCount (newEntry d)));
      [discriminate|].
    intros _. right. exists (newEntry d). cbn. rewrite lookup_insert_eq. auto.
Qed.

Lemma dropBomb_within t st seen :
  keysApart lc (seen ++ targetOf (ODropBomb t)) ->
  allWithin lc seen st ->
  allWithin lc (seen ++ targetOf (ODropBomb t)) (dropBomb lc t st).
Proof.
  intros Hka H. unfold dropBomb.
  pose proof (canBombTarget_within t st seen H) as H1.
  pose proof (canBombTarget_granted t st) as Hg.
  destruct (canBombTarget lc t st) as [r st1]. cbn [fst snd] in *.
  change (targetOf (OCanBombTarget t)) with (targetOf (ODropBomb t)) in H1.
  destruct r; cbn [truthy]; try exact H1.
  intros k e L.
  apply addBomb_lookup in L as [L|(-> & e0 & L & ->)]; [now apply H1|].
  destruct (H1 _ _ L) as (Hc & u & Hu & Htu & Hk).
  split; [|eauto]. cbn.
  destruct (Hg eq_refl) as [(d & -> & Htd & _)|(bbt & Lb & Hlt)].
  - exfalso.
    assert (isTurret u = true).
    { apply (Hka d u); auto. rewrite in_app_iff. cbn. auto. }
    congruence.
  - rewrite L in Lb. inversion Lb; subst. lia.
Qed.

Lemma step_within o st seen :
  match o with OAddBomb _ => False | _ => True end ->
  keysApart lc (seen ++ targetOf o) ->
  allWithin lc seen st ->
  allWithin lc (seen ++ targetOf o) (step lc o st).
Proof.
  intros Hg Hka H.
  destruct o as [t|t|t|t|t delay|dt]; cbn [step]; try contradiction.
  - now apply canBombTarget_within.
  - now apply dropBomb_within.
  - intros k e L.
    apply removeBomb_lookup in L as [L|(_ & e0 & L & _ & Hc & Hl)].
    + refine (allWithin_incl seen _ st _ H k e L). apply incl_appl, incl_refl.
    + destruct (H _ _ L) as (Hc0 & u & Hu & Htu & Hk).
      split; [lia|]. exists u. rewrite in_app_iff. auto.
  - intros k e L.
    apply clearBombWithDelay_lookup in L as (e0 & L & Hc & Hl).
    destruct (H _ _ L) as (Hc0 & u & Hu & Htu & Hk).
    split; [lia|]. exists u. rewrite in_app_iff. auto.
  - intros k e L. apply advance_lookup in L.
    refine (allWithin_incl seen _ st _ H k e L). apply incl_appl, incl_refl.
Qed.

Lemma run_within ops : forall st seen,
  gatedOnly ops = true ->
  keysApart lc (seen ++ targetsOf ops) ->
  allWithin lc seen st ->
  allWithin lc (seen ++ targetsOf ops) (run lc ops st).
Proof.
  induction ops as [|o ops IH]; intros st seen Hg Hka H; cbn.
  - now rewrite app_nil_r.
  - cbn in Hg. apply andb_prop in Hg as [Ho Hg].
    unfold targetsOf in *. cbn [flat_map] in *.
    rewrite app_assoc in *. apply IH; [exact Hg|exact Hka|].
    apply step_within; [destruct o; auto; discriminate| |exact H].
    eapply keysApart_incl; [|exact Hka]. apply incl_appl, incl_refl.
Qed.

(** *** No entry is left without a counted bomb when bombs are counted in rounds *)

Lemma addBomb_counted t st : allCounted st -> allCounted (addBomb lc t st).
Proof.
  intros H k e L. apply addBomb_lookup in L as [L|(_ & e0 & L & ->)]; [eauto|].
  specialize (H _ _ L). cbn. lia.
Qed.

Lemma dropBomb_counted t st : allCounted st -> allCounted (dropBomb lc t st).
Proof.
  intros H. unfold dropBomb, canBombTarget. destruct t as [d|]; [|exact H].
  fold (isTurret d). destruct (isTurret d); cbn [truthy].
  { now apply addBomb_counted. }
  destruct (ledger st !! key (Some d)) as [bbt|] eqn:L.
  - destruct (bombLimit bbt <=? bombCount bbt)%Z; cbn [truthy];
      [exact H|now apply addBomb_counted].
  - assert (Hl : (bombLimit (newEntry d) <=? bombCount (newEntry d))%Z = false).
    { apply Z.leb_gt. unfold newEntry; cbn. destruct (_ || _); lia. }
    rewrite Hl. cbn [truthy]. unfold addBomb. cbn [bombsByTarget].
    rewrite lookup_insert_eq. cbn [timer newEntry bombCount bombLimit].
    intros k e Lk. cbn [bombsByTarget] in Lk.
    apply lookup_insert_Some in Lk as [[_ <-]|[Hne Lk]]; [cbn; lia|].
    apply lookup_insert_Some in Lk as [[E _]|[_ Lk]]; [congruence|eauto].
Qed.

Lemma step_counted o st :
  match o with OAddBomb _ | OCanBombTarget _ => False | _ => True end ->
  allCounted st -> allCounted (step lc o st).
Proof.
  intros Hg H. destruct o as [t|t|t|t|t delay|dt]; cbn [step]; try contradiction.
  - now apply dropBomb_counted.
  - intros k e L.
    apply removeBomb_lookup in L as [L|(_ & e0 & L & Hpos & _)]; [eauto|lia].
  - intros k e L.
    apply clearBombWithDelay_lookup in L as (e0 & L & Hc & _).
    specialize (H _ _ L). lia.
  - intros k e L. apply advance_lookup in L. eauto.
Qed.

Lemma run_counted ops : forall st,
  roundsOnly ops = true -> allCounted st -> allCounted (run lc ops st).
Proof.
  induction ops as [|o ops IH]; intros st Hg H; cbn; [exact H|].
  cbn in Hg. apply andb_prop in Hg as [Ho Hg].
  apply IH; [exact Hg|]. apply step_counted; [|exact H].
  destruct o; auto; discriminate.
Qed.

Lemma roundsOnly_gatedOnly ops : roundsOnly ops = true -> gatedOnly ops = true.
Proof.
  unfold roundsOnly, gatedOnly. rewrite !forallb_forall.
  intros H o Ho. specialize (H o Ho). destruct o; auto.
Qed.

End Ledger.

(** C3 (as amended).  On a fresh AI instance, after every finite sequence
    of bomb rounds ([canBombTarget] followed at once by [addBomb] when it did
    not refuse - the only way the helicopter calls the two), [removeBomb],
    [clearBombWithDelay] calls and timer expiries, every ledger entry has a
    count of at least 1; and at most its limit, provided no turret shares
    its ledger key with a unit of another type.  An entry with count 0
    exists only between the [canBombTarget] and the [addBomb] of a round,
    since [canBombTarget] creates the entry before a bomb is counted: with
    the calls in any order, every entry still has a count of at least 0 and
    a limit of 1 or 3, and counts stay within the limit as long as
    [addBomb] is only called within rounds. *)
Theorem ledger_invariant (lc : LevelConfig) (d : HeliData) (ops : list Op) :
  (roundsOnly ops = true ->
   turretKeysApart lc (targetsOf ops) = true ->
   map_Forall (fun _ e => countWithinQuota e)
              (bombsByTarget (run lc ops (initAI d))))
  /\ (roundsOnly ops = true ->
      map_Forall (fun _ e => (1 <= bombCount e)%Z)
                 (bombsByTarget (run lc ops (initAI d))))
  /\ map_Forall (fun _ e => entrySane e) (bombsByTarget (run lc ops (initAI d)))
  /\ (gatedOnly ops = true ->
      turretKeysApart lc (targetsOf ops) = true ->
      map_Forall (fun _ e => (bombCount e <= bombLimit e)%Z)
                 (bombsByTarget (run lc ops (initAI d)))).
Proof.
  assert (Hempty : forall k e, bombsByTarget (initAI d) !! k = Some e -> False).
  { intros k e L. cbn in L. rewrite lookup_empty in L. discriminate. }
  assert (Hcount : roundsOnly ops = true ->
                   allCounted (run lc ops (initAI d))).
  { intros Hr. apply run_counted; [exact Hr|].
    intros k e L. now apply Hempty in L. }
  assert (Hwithin : gatedOnly ops = true ->
                    turretKeysApart lc (targetsOf ops) = true ->
                    forall k e, bombsByTarget (run lc ops (initAI d)) !! k = Some e ->
                                (bombCount e <= bombLimit e)%Z).
  { intros Hg Hk k e L. apply turretKeysApart_spec in Hk.
    destruct (run_within lc ops (initAI d) [] Hg Hk) with (k := k) (e := e)
      as [Hc _]; [|exact L|exact Hc].
    intros k' e' L'. now apply Hempty in L'. }
  split; [|split; [|split]].
  - intros Hr Hk. apply map_Forall_lookup. intros k e L. split.
    + exact (Hcount Hr k e L).
    + exact (Hwithin (roundsOnly_gatedOnly ops Hr) Hk k e L).
  - intros Hr. apply map_Forall_lookup. exact (Hcount Hr).
  - apply map_Forall_lookup. apply run_sane.
    intros k e L. now apply Hempty in L.
  - intros Hg Hk. apply map_Forall_lookup. exact (Hwithin Hg Hk).
Qed.

(** Rounds against a tank, a van and a turret, with a miss and a clear. *)
Lemma ledger_invariant_witness :
  map_Forall (fun _ e => countWithinQuota e)
    (bombsByTarget
       (run level
          [ ODropBomb (Some tank1); ODropBomb (Some tank1);
            ODropBomb (Some tank1); ODropBomb (Some tank1);
            ODropBomb (Some van1); ODropBomb (Some van1);
            ODropBomb (Some turret1); ORemoveBomb (Some tank1);
            OClearBombWithDelay (Some van1) None; OAdvance 2500 ]
          (initAI cpu))).
Proof.
  apply (proj1 (ledger_invariant level cpu _)); vm_compute; reflexivity.
Defined.

(** C3 (as stated) fails: one [canBombTarget] call on a tank leaves an
    entry with count 0. *)
Lemma canBombTarget_opens_empty_entry : ~ ledgerInvariantAsStated.
Proof.
  intros H.
  specialize (H level cpu [OCanBombTarget (Some tank1)]).
  apply map_Forall_lookup_1 with (i := "tank_12") (x := mkBombEntry 0 3 None) in H;
    [|vm_compute; reflexivity].
  destruct H as [H _]. cbn in H. lia.
Qed.

(** Direct [addBomb] calls are not checked against the limit. *)
Example addBomb_past_limit :
  bombsByTarget
    (run level [OCanBombTarget (Some van1); OAddBomb (Some van1); OAddBomb (Some van1)]
         (initAI cpu)) !! "van_4"
  = Some (mkBombEntry 2 1 None).
Proof. vm_compute. reflexivity. Qed.

Section Capacity.

Variable lc : LevelConfig.

Local Abbreviation key := (getBombTargetID lc).
Local Abbreviation ledger := bombsByTarget.




Lemma removeBomb_other t st k :
  key t <> k -> ledger (removeBomb lc t st) !! k = ledger st !! k.
Proof.
  intros E. unfold removeBomb.
  destruct (ledger st !! key t) as [e0|]; [|reflexivity].
  destruct (Z.max 0 (bombCount e0 - 1) =? 0)%Z; cbn.
  - now rewrite lookup_delete_ne.
  - now rewrite lookup_insert_ne.
Qed.


Lemma existsb_filter {A} (p q : A -> bool) (l : list A) :
  existsb q (List.filter p l) = existsb (fun a => p a && q a) l.
Proof.
  induction l as [|a l IH]; cbn; [reflexivity|].
  destruct (p a); cbn; now rewrite IH.
Qed.

(** The entry for [k] after the clock advances: gone if a deletion of [k]
    became due, untouched otherwise. *)
Lemma advance_key dt st k :
  ledger (advance dt st) !! k =
    if existsb (fun tm => isDue (now (timers st) + dt)%Z tm && deletesKey k tm)
               (pending (timers st))
    then None else ledger st !! k.
Proof.
  unfold advance. rewrite <- existsb_filter.
  destruct (existsb (deletesKey k) _) eqn:E.
  - now apply fold_fire_deleted.
  - now rewrite fold_fire_kept.
Qed.



(** A request against an entry at capacity is refused. *)
Lemma canBombTarget_refused d st :
  isTurret d = false -> atCapacity (key (Some d)) st ->
  fst (canBombTarget lc (Some d) st) = JUndefined.
Proof.
  intros Ht (e & L & H). unfold canBombTarget.
  fold (isTurret d). rewrite Ht, L.
  destruct (Z.leb_spec (bombLimit e) (bombCount e)); [reflexivity|lia].
Qed.


(** The first round against a target opens its entry. *)
Lemma bombRound_opens d st :
  isTurret d = false ->
  ledger st !! key (Some d) = None ->
  fst (canBombTarget lc (Some d) st) = JTrue
  /\ ledger (bombRound lc d st) !! key (Some d)
     = Some (mkBombEntry 1 (bombLimit (newEntry d)) None).
Proof.
  intros Ht L. unfold bombRound, canBombTarget.
  fold (isTurret d). rewrite Ht, L.
  assert (Hl : (bombCount (newEntry d) < bombLimit (newEntry d))%Z)
    by (unfold newEntry; cbn; destruct (_ || _); lia).
  destruct (Z.leb_spec (bombLimit (newEntry d)) (bombCount (newEntry d))); [lia|].
  split; [reflexivity|]. cbn [snd]. unfold addBomb. cbn [bombsByTarget].
  rewrite lookup_insert_eq. cbn. apply lookup_insert_eq.
Qed.

End Capacity.




(** C10.  [removeBomb] and [addBomb] for a target without an entry change
    nothing; [removeBomb] on an entry lowers its count by one, never below
    0, and deletes the entry exactly when the new count is 0; other entries
    are untouched; and neither call, nor [clearBombWithDelay], ever creates
    an entry. *)
Theorem removeBomb_addBomb_total
    (lc : LevelConfig) (t : option UnitData) (delay : option Z) (st : AI) :
  let k := getBombTargetID lc t in
  (bombsByTarget st !! k = None ->
     removeBomb lc t st = st /\ addBomb lc t st = st)
  /\ (forall e, bombsByTarget st !! k = Some e ->
        let c := Z.max 0 (bombCount e - 1) in
        (0 <= c)%Z
        /\ (bombsByTarget (removeBomb lc t st) !! k = None <-> c = 0%Z)
        /\ (c <> 0%Z ->
            bombsByTarget (removeBomb lc t st) !! k
            = Some (mkBombEntry c (bombLimit e) (timer e))))
  /\ (forall k', k' <> k ->
        bombsByTarget (removeBomb lc t st) !! k' = bombsByTarget st !! k')
  /\ (forall k', bombsByTarget st !! k' = None ->
        bombsByTarget (addBomb lc t st) !! k' = None
        /\ bombsByTarget (removeBomb lc t st) !! k' = None
        /\ bombsByTarget (clearBombWithDelay lc t delay st) !! k' = None).
Proof.
  intros k. repeat split.
  - unfold removeBomb. fold k. now rewrite H.
  - unfold addBomb. fold k. now rewrite H.
  - lia.
  - unfold removeBomb. fold k. rewrite H.
    destruct (Z.eqb_spec (Z.max 0 (bombCount e - 1)) 0) as [E|E]; cbn.
    + auto.
    + rewrite lookup_insert_eq. discriminate.
  - intros E. unfold removeBomb. fold k. rewrite H.
    apply Z.eqb_eq in E. rewrite E. cbn. apply lookup_delete_eq.
  - intros E. unfold removeBomb. fold k. rewrite H.
    apply Z.eqb_neq in E. rewrite E. cbn. apply lookup_insert_eq.
  - intros k' E. apply removeBomb_other. intros E'. apply E. now rewrite <- E'.
  - destruct (bombsByTarget (addBomb lc t st) !! k') as [e|] eqn:L; [|reflexivity].
    apply addBomb_lookup in L as [L|(_ & e0 & L & _)]; congruence.
  - destruct (bombsByTarget (removeBomb lc t st) !! k') as [e|] eqn:L; [|reflexivity].
    apply removeBomb_lookup in L as [L|(_ & e0 & L & _)]; congruence.
  - destruct (bombsByTarget (clearBombWithDelay lc t delay st) !! k') as [e|] eqn:L;
      [|reflexivity].
    apply clearBombWithDelay_lookup in L as (e0 & L & _). congruence.
Qed.

(** [removeBomb] on the last counted bomb deletes the entry; a second call
    finds none and changes nothing. *)
Lemma removeBomb_addBomb_total_witness :
  bombsByTarget (removeBomb level (Some van1) (bombRound level van1 (initAI cpu)))
    !! "van_4" = None
  /\ removeBomb level (Some van1) (initAI cpu) = initAI cpu
  /\ addBomb level (Some van1) (initAI cpu) = initAI cpu.
Proof.
  split.
  - apply (proj1 (proj2 (proj1 (proj2
             (removeBomb_addBomb_total level (Some van1) None
                (bombRound level van1 (initAI cpu))))
             (mkBombEntry 1 1 None) eq_refl))).
    reflexivity.
  - apply (proj1 (removeBomb_addBomb_total level (Some van1) None (initAI cpu))).
    reflexivity.
Defined.

End LedgerFacts.

(** ** Retaliation mode and weapon-intent resolution *)

Module AIFacts.
Import HelicopterAI LedgerSpec.

(** [maybeEngageRetaliationMode] never writes the flag. *)
Lemma maybeEngageRetaliationMode_flag lc st :
  retaliation (hdata (maybeEngageRetaliationMode lc st)) = retaliation (hdata st).
Proof.
  unfold maybeEngageRetaliationMode.
  destruct (negb (killCopterB lc) || negb (attackB (hdata st))); [reflexivity|].
  destruct (retaliation (hdata st)) eqn:E; [exact E|cbn; exact E].
Qed.

(** C6 (code at the failing input).  With [killCopterB] set, attack mode on
    and retaliation off, [maybeEngageRetaliationMode] schedules the 30000 ms
    clearing timer but leaves [data.targeting.retaliation] false, and the
    velocity clamp keeps using half of the clipped maximum. *)
Theorem retaliation_not_engaged :
  let st := maybeEngageRetaliationMode level (initAI cpu) in
  killCopterB level = true
  /\ attackB cpu = true
  /\ retaliation cpu = false
  /\ retaliation (hdata st) = false
  /\ pending (timers st) = [mkTimer 0 30000 ClearRetaliation]
  /\ throttleMax (hdata st) == vXMaxClipped cpu / 2
  /\ retaliation (hdata (advance 30000 st)) = false.
Proof. vm_compute. repeat split; reflexivity. Qed.

(** C8 (code at the failing input).  A firing helicopter at x = 1000 with
    ammunition, after [maybeFireAtTarget] has cast one ammo vote each for
    an opposing helicopter at x = 1100 and one at x = 700 (both in range:
    100 and 300 away on x, level on y): the target chosen for rate-setting
    is the one at x = 700, 300 away, not the one at x = 1100, 100 away. *)
Theorem ammoTarget_is_leftmost
    (callAction : string -> bool -> HeliData -> HeliData)
    (cpuFireRate cpuBombRate : option string -> Q) :
  let d := maybeFireOrBomb callAction cpuFireRate cpuBombRate cpuAfterVotes in
  firing cpuAfterVotes = true
  /\ truthyZ (ammo cpuAfterVotes) = true
  /\ votesAmmo cpuAfterVotes = 2%Z
  /\ ammoTargets cpuAfterVotes = [raider1; raider2]
  /\ x (base cpuAfterVotes) = 1000
  /\ ammoTarget d = Some raider2
  /\ fireModulus d = cpuFireRate (Some T.helicopter)
  /\ distance (x raider1) 1000 < distance (x raider2) 1000.
Proof. cbv zeta. repeat split; vm_compute; reflexivity. Qed.

End AIFacts.

(* ===================================================================== *)
(** * Part III: further properties of the embedded code                   *)
(* ===================================================================== *)

(** ** Overlap primitives, continued *)

Module OverlapFacts.
Import Logic LogicSpec.

Lemma ltb_irrefl (a : Q) : ltb a a = false.
Proof. apply ltb_ge. apply Qle_refl. Qed.

Lemma cc_swap (r1 r2 : UnitData) : cc r1 r2 0 = cc r2 r1 0.
Proof.
  unfold cc, gtb.
  rewrite (ltb_proper (x r1 + 0) (x r1) (x r2 + width r2) (x r2 + width r2))
    by (reflexivity || ring).
  rewrite (ltb_proper (x r2) (x r2) (x r1 + width r1 + 0) (x r1 + width r1))
    by (reflexivity || ring).
  rewrite (ltb_proper (x r2 + 0) (x r2) (x r1 + width r1) (x r1 + width r1))
    by (reflexivity || ring).
  rewrite (ltb_proper (x r1) (x r1) (x r2 + width r2 + 0) (x r2 + width r2))
    by (reflexivity || ring).
  destruct (ltb (x r1) (x r2 + width r2)), (ltb (x r2) (x r1 + width r1)),
           (ltb (y r1) (y r2 + height r2)), (ltb (y r2) (y r1 + height r1));
    reflexivity.
Qed.

(** X1.  At zero look-ahead the overlap test is symmetric in its two
    rectangles, and so is its horizontal part [collisionCheckX]. *)
Theorem cc_symmetric (r1 r2 : UnitData) :
  cc r1 r2 0 = cc r2 r1 0
  /\ collisionCheckX r1 r2 0 = collisionCheckX r2 r1 0.
Proof.
  split; [apply cc_swap|].
  unfold collisionCheckX, gtb.
  rewrite (ltb_proper (x r1 + 0) (x r1) (x r2 + width r2) (x r2 + width r2))
    by (reflexivity || ring).
  rewrite (ltb_proper (x r2) (x r2) (x r1 + width r1 + 0) (x r1 + width r1))
    by (reflexivity || ring).
  rewrite (ltb_proper (x r2 + 0) (x r2) (x r1 + width r1) (x r1 + width r1))
    by (reflexivity || ring).
  rewrite (ltb_proper (x r1) (x r1) (x r2 + width r2 + 0) (x r2 + width r2))
    by (reflexivity || ring).
  apply Bool.andb_comm.
Qed.

Lemma offset_as_lookahead (r1 r2 : UnitData) (a b la : Q) :
  a == la -> b == 0 ->
  collisionCheckWithOffsets r1 r2 a b = cc r1 r2 la.
Proof.
  intros Ha Hb. unfold cc, collisionCheckWithOffsets.
  rewrite (ltb_proper (x r1 + a) (x r1 + la) _ (x r2 + width r2)),
          (gtb_proper (x r1 + width r1 + a) (x r1 + width r1 + la) _ (x r2)),
          (ltb_proper (y r1 + b) (y r1) _ (y r2 + height r2)),
          (gtb_proper (y r1 + b + height r1) (y r1 + height r1) _ (y r2));
    try reflexivity; rewrite ?Ha, ?Hb; ring.
Qed.

(** X2.  A look-ahead is a horizontal offset: for every look-ahead [la],
    the overlap test with look-ahead [la] is the offset test at [(la, 0)],
    and it implies the horizontal test [collisionCheckX] at [la]. *)
Theorem cc_lookahead_is_offset (r1 r2 : UnitData) (la : Q) :
  cc r1 r2 la = collisionCheckWithOffsets r1 r2 la 0
  /\ implb (cc r1 r2 la) (collisionCheckX r1 r2 la) = true.
Proof.
  split.
  - symmetry. apply offset_as_lookahead; reflexivity.
  - unfold cc, collisionCheckX.
    destruct (ltb (x r1 + la) (x r2 + width r2)),
             (gtb (x r1 + width r1 + la) (x r2)),
             (ltb (y r1) (y r2 + height r2)),
             (gtb (y r1 + height r1) (y r2)); reflexivity.
Qed.

(** X3.  Rectangles that only touch do not collide: a rectangle whose left
    edge is the other's right edge, or whose top edge is the other's bottom
    edge, is not overlapped by it, in either argument order. *)
Theorem cc_touching_is_no_overlap (r1 r2 : UnitData) :
  (x r2 == x r1 + width r1 \/ y r2 == y r1 + height r1) ->
  cc r1 r2 0 = false /\ cc r2 r1 0 = false.
Proof.
  intros H.
  assert (H1 : cc r1 r2 0 = false).
  { unfold cc, gtb. destruct H as [H|H].
    - rewrite (ltb_proper (x r2) (x r2) (x r1 + width r1 + 0) (x r2))
        by (rewrite ?H; reflexivity || ring).
      rewrite ltb_irrefl. now rewrite Bool.andb_false_r.
    - rewrite (ltb_proper (y r2) (y r2) (y r1 + height r1) (y r2))
        by (rewrite ?H; reflexivity).
      rewrite ltb_irrefl. now rewrite Bool.andb_false_r. }
  split; [exact H1|]. now rewrite <- cc_swap.
Qed.

Lemma cc_touching_is_no_overlap_witness :
  cc (unit0 "a" T.tank 0 0 10 10) (unit0 "b" T.tank 10 0 10 10) 0 = false
  /\ cc (unit0 "b" T.tank 10 0 10 10) (unit0 "a" T.tank 0 0 10 10) 0 = false.
Proof.
  apply (cc_touching_is_no_overlap (unit0 "a" T.tank 0 0 10 10)
           (unit0 "b" T.tank 10 0 10 10)).
  left. reflexivity.
Defined.

End OverlapFacts.

(** ** Sub-frame stepping, continued *)

Module TweenMoreFacts.
Import Logic LogicSpec.

(** X4.  A hit reported by the tween check is at the first tested offset
    at which the offset overlap test holds; with [repositionOnHit] the
    source is moved by exactly that offset ([x += xOffset],
    [y += yOffset]) and nothing else of it changes; without
    [repositionOnHit], or without a hit, the source is left exactly as it
    was.  (While the loop counter is exact.) *)
Theorem tween_reposition (s t : UnitData) (rp : bool) :
  countsExactly s ->
  let r := collisionCheckTweens s t rp in
  (fst r = JTrue ->
     exists k, (1 <= k <= tweenCount s)%nat
       /\ hitsAt s t k = true
       /\ (forall j, (1 <= j < k)%nat -> hitsAt s t j = false)
       /\ snd r = if rp then movedTo s k else s)
  /\ (fst r <> JTrue -> snd r = s).
Proof.
  intros Hc. cbv zeta. rewrite (TweenFacts.collisionCheckTweens_run s t rp Hc).
  destruct (tweenExempt s t).
  { split; [discriminate|reflexivity]. }
  unfold firstHit. destruct (find (hitsAt s t) (seq 1 (tweenCount s))) as [k|] eqn:E.
  - cbn [fst snd]. split; [|intros H; now elim H].
    intros _. apply TweenFacts.find_seq_first in E as (Hk & Hf & Hfirst).
    exists k. repeat split; [lia|lia|exact Hf|exact Hfirst].
  - cbn [fst snd]. split; [discriminate|reflexivity].
Qed.

(** A projectile that moved by 6 across a target: the offsets tested are
    -4.5, -3 and -1.5, and the second one overlaps. *)
Lemma tween_reposition_witness :
  let s := mkUnitData "shot" T.gunfire 6 0 1 1 6 0 false false false false
             false false false false false false 0%Z None None
             (Some 0%Z) (Some 0%Z) false in
  let t := unit0 "block" T.tank 3 0 1 1 in
  let r := collisionCheckTweens s t true in
  (fst r = JTrue ->
     exists k, (1 <= k <= tweenCount s)%nat
       /\ hitsAt s t k = true
       /\ (forall j, (1 <= j < k)%nat -> hitsAt s t j = false)
       /\ snd r = movedTo s k)
  /\ (fst r <> JTrue -> snd r = s).
Proof.
  exact (tween_reposition
           (mkUnitData "shot" T.gunfire 6 0 1 1 6 0 false false false false
              false false false false false false 0%Z None None
              (Some 0%Z) (Some 0%Z) false)
           (unit0 "block" T.tank 3 0 1 1) true
           ltac:(vm_compute; discriminate)).
Defined.

Lemma existsb_const (b : bool) (l : list nat) (f : nat -> bool) :
  l <> [] -> (forall k, f k = b) -> existsb f l = b.
Proof.
  intros Hl Hf. induction l as [|a l IH]; [congruence|].
  cbn. rewrite Hf. destruct l as [|a' l']; [now rewrite Bool.orb_false_r|].
  rewrite IH by discriminate. apply Bool.orb_diag.
Qed.

Lemma parseInt10_zero (q : Q) : q == 0 -> parseInt10 q = 0.
Proof.
  intros H. unfold parseInt10. apply Qeq_bool_iff in H. now rewrite H.
Qed.

(** At rest there are two passes. *)
Lemma tweenSteps_at_rest (s : UnitData) :
  vX s == 0 -> vY s == 0 -> tweenSteps s == 2.
Proof.
  intros Hx Hy. unfold tweenSteps, minTweenSteps.
  rewrite parseInt10_zero.
  - apply Q.max_l. discriminate.
  - rewrite Hx, Hy. reflexivity.
Qed.

Lemma accumulate_zero (k : nat) (offset step : Q) :
  offset == 0 -> step == 0 -> accumulate k offset step == 0.
Proof.
  intros Ho Hs. induction k as [|k IH]; cbn [accumulate]; [exact Ho|].
  rewrite IH, Hs. reflexivity.
Qed.

(** X5.  For a source at rest the tween check is the endpoint check: with
    zero velocity and outside the exemption, [collisionCheckTweens] returns
    exactly what [collisionCheck] returns at the current position. *)
Theorem tween_at_rest (s t : UnitData) (rp : bool) :
  vX s == 0 -> vY s == 0 -> tweenExempt s t = false ->
  fst (collisionCheckTweens s t rp) = ofBool (collisionCheck s t 0).
Proof.
  intros Hx Hy Hex.
  assert (Hc : countsExactly s).
  { unfold countsExactly. rewrite (tweenSteps_at_rest s Hx Hy). discriminate. }
  rewrite (TweenFacts.collisionCheckTweens_run s t rp Hc), Hex.
  assert (He : overlapsBetween s t = collisionCheck s t 0).
  { unfold overlapsBetween. apply existsb_const.
    - pose proof (TweenFacts.tweenCeiling_pos s) as Hpos. unfold tweenCount.
      destruct (Z.to_nat (Qceiling (tweenSteps s))) eqn:E; [lia|discriminate].
    - intros k. unfold hitsAt. apply OverlapFacts.offset_as_lookahead.
      + unfold tweenOffsetX. apply accumulate_zero.
        * rewrite Hx. reflexivity.
        * unfold stepX, Qdiv. rewrite Hx. ring.
      + unfold tweenOffsetY. apply accumulate_zero.
        * rewrite Hy. reflexivity.
        * unfold stepY, Qdiv. rewrite Hy. ring. }
  rewrite <- He. unfold overlapsBetween, firstHit.
  rewrite TweenFacts.existsb_find. destruct (find _ _); reflexivity.
Qed.

Lemma tween_at_rest_witness :
  fst (collisionCheckTweens (unit0 "a" T.tank 0 0 10 10)
                            (unit0 "b" T.tank 5 5 10 10) true)
  = ofBool (collisionCheck (unit0 "a" T.tank 0 0 10 10)
                           (unit0 "b" T.tank 5 5 10 10) 0).
Proof.
  apply (tween_at_rest (unit0 "a" T.tank 0 0 10 10)
           (unit0 "b" T.tank 5 5 10 10) true); reflexivity.
Defined.

End TweenMoreFacts.

(** ** Facing and hit dispatch, continued *)

Module FacingFacts.
Import Logic DispatchSpec MoreSpec.

(** X6.  Turning the source around, or moving it to the other side while
    it keeps its heading flag, always changes whether it faces a given
    target: two sources at the same place that differ in exactly one of
    [flipped] and [isEnemy] never both face it. *)
Theorem facing_flips (t s s' : UnitData) :
  x s' = x s ->
  xorb (Bool.eqb (flipped s') (flipped s)) (Bool.eqb (isEnemy s') (isEnemy s)) = true ->
  isFacingTarget t s' = negb (isFacingTarget t s).
Proof.
  intros Hx H. unfold isFacingTarget. rewrite Hx.
  destruct (ltb (x t + width t) (x s)), (flipped s), (flipped s'),
           (isEnemy s), (isEnemy s'); cbn in *; congruence.
Qed.

Lemma facing_flips_witness :
  isFacingTarget (unit0 "t" T.tank 500 370 58 18)
    (mkUnitData "h" T.helicopter 100 100 48 20 0 0 false false false false
       false false false false true false 0%Z None None (Some 0%Z) (Some 0%Z) false)
  = negb (isFacingTarget (unit0 "t" T.tank 500 370 58 18)
            (unit0 "h" T.helicopter 100 100 48 20)).
Proof.
  apply (facing_flips (unit0 "t" T.tank 500 370 58 18)
           (unit0 "h" T.helicopter 100 100 48 20)); reflexivity.
Defined.

(** The three-way test keeps the source's id. *)
Lemma hitTest_source_id o w sl tl xLA h w1 :
  hitTest o w sl tl xLA = (h, w1) -> id (heap w1 sl) = id (heap w sl).
Proof.
  unfold hitTest. intros H.
  destruct (collisionCheck (heap w sl) (heap w tl) xLA).
  { now inversion H. }
  destruct (checkTweens o).
  2:{ cbn in H. now inversion H. }
  destruct (collisionCheckTweens (heap w sl) (heap w tl) _) as [r s'] eqn:E.
  assert (Hid : id s' = id (heap w sl)).
  { unfold collisionCheckTweens in E.
    destruct (tweenExempt _ _); [now inversion E|].
    destruct (tweenLoop _ _ _ _ _ _ _) as [[b s'']|] eqn:L; [|now inversion E].
    inversion E; subst.
    apply DispatchFacts.tweenLoop_source in L as [->|(a & c & ->)]; reflexivity. }
  assert (Hw : w1 = set_heap w sl s')
    by (destruct (truthy r); inversion H; reflexivity).
  subst w1. cbn. now rewrite Nat.eqb_refl.
Qed.

Section WithSprites.

Variable updateEnergy : string -> World -> World.

Lemma targetLoop_not_self o sl xLA :
  forall keys w fh ev,
    Forall notSelf ev ->
    Forall notSelf (snd (targetLoop updateEnergy o sl xLA keys w fh ev)).
Proof.
  induction keys as [|k keys IH]; intros w fh ev Hev; cbn [targetLoop].
  - exact Hev.
  - destruct (optionsTargets w); [|exact Hev].
    destruct (objectsById w !! k) as [tl|] eqn:Hk; [|now apply IH].
    destruct (eligible o (heap w sl) (heap w tl)) eqn:Hel; [|now apply IH].
    destruct (hitTest o w sl tl xLA) as [h w1] eqn:Hh.
    destruct h; [|now apply IH].
    destruct (hit o) as [f|]; [|now apply IH].
    apply IH. apply Forall_app; split; [exact Hev|].
    constructor; [|constructor].
    pose proof (hitTest_source_id _ _ _ _ _ _ _ Hh) as Hsid.
    apply DispatchFacts.hitTest_frame in Hh as (_ & Hheap & _ & _).
    apply DispatchFacts.eligible_target in Hel as (Hid & _ & _).
    assert (Hne : tl <> sl) by (intros ->; now apply Hid).
    unfold notSelf; cbn. rewrite (Hheap tl Hne), Hsid.
    split; [exact Hne|exact Hid].
Qed.

Lemma collisionCheckObject_not_self o w :
  Forall notSelf (snd (collisionCheckObject updateEnergy o w)).
Proof.
  unfold collisionCheckObject.
  destruct (optionsTargets w); [|constructor].
  destruct (source o) as [[i|xl]|]; try constructor.
  destruct (objectsById w !! i); [|constructor].
  destruct (dead _ || isInert _ || _); [constructor|].
  apply targetLoop_not_self. constructor.
Qed.

Lemma zoneLoop_not_self o zone :
  forall its w ev,
    Forall notSelf ev ->
    Forall notSelf (snd (zoneLoop updateEnergy o zone its w ev)).
Proof.
  induction its as [|it its IH]; intros w ev Hev; cbn [zoneLoop].
  - exact Hev.
  - destruct (objectsByZone w !! zone) as [zo|]; [|exact Hev].
    destruct (zo !! Global.propKey (Global.igroup it)) as [byType|];
      [|exact Hev].
    destruct (optionsTargets (set_optionsTargets w _)) eqn:E; [|now apply IH].
    pose proof (collisionCheckObject_not_self o
                  (set_optionsTargets w (byType !! Global.propKey (Global.itype it))))
      as Hco.
    destruct (collisionCheckObject updateEnergy o _) as [[r w2] ev2].
    apply IH. apply Forall_app; split; [exact Hev|exact Hco].
Qed.

(** X7.  A dispatch pass never reports a unit as hitting itself: in every
    call of [options.hit], the target is a different object from the source
    and the id passed differs from the source's id. *)
Theorem hit_never_self (c : Collision) (el : loc) (o : Options) (w : World) :
  Forall notSelf (snd (collisionTest updateEnergy c el w))
  /\ Forall notSelf (snd (collisionCheckObject updateEnergy o w)).
Proof.
  split; [|apply collisionCheckObject_not_self]. clear o.
  unfold collisionTest.
  destruct (frontZone (heap w el)) as [fz|]; [|constructor].
  destruct (rearZone (heap w el)) as [rz0|]; [|constructor].
  set (o := match source (options c) with Some _ => _ | None => _ end).
  pose proof (zoneLoop_not_self o fz (items c) w [] (List.Forall_nil _)) as H1.
  unfold collisionCheckZone.
  destruct (zoneLoop updateEnergy o fz (items c) w []) as [[r1 w1] ev1].
  cbn in H1. destruct r1 as [[]|m]; [|exact H1].
  destruct (multiZone (heap w1 el)); [|exact H1].
  destruct (rearZone (heap w1 el)) as [rz|].
  - pose proof (zoneLoop_not_self o rz (items c) w1 [] (List.Forall_nil _)) as H2.
    destruct (zoneLoop updateEnergy o rz (items c) w1 []) as [[r2 w2] ev2].
    cbn in *. apply Forall_app; split; assumption.
  - destruct (items c); exact H1.
Qed.

End WithSprites.

End FacingFacts.

(** ** Sorting *)

Module SortFacts.
Import Logic.

Section Sorting.

Context {A : Type} (key : A -> Q) (cmp : A -> A -> comparison).
Hypothesis cmp_lt : forall a b, cmp a b = Lt <-> key a < key b.

Local Abbreviation le_key := (fun a b : A => key a <= key b).

Lemma insertSorted_perm a l : Permutation (insertSorted cmp a l) (a :: l).
Proof.
  induction l as [|b l IH]; cbn; [reflexivity|].
  destruct (cmp a b); try reflexivity;
    (etransitivity; [apply perm_skip, IH|apply perm_swap]).
Qed.

Lemma arraySort_perm_acc l : forall acc,
  Permutation (fold_left (fun acc a => insertSorted cmp a acc) l acc) (acc ++ l).
Proof.
  induction l as [|a l IH]; intros acc; cbn.
  - now rewrite app_nil_r.
  - rewrite IH, insertSorted_perm. apply Permutation_middle.
Qed.

Lemma arraySort_perm l : Permutation (arraySort cmp l) l.
Proof. unfold arraySort. now rewrite arraySort_perm_acc. Qed.

Lemma insertSorted_sorted a l :
  StronglySorted le_key l -> StronglySorted le_key (insertSorted cmp a l).
Proof.
  induction l as [|b l IH]; intros Hs; cbn.
  - repeat constructor.
  - inversion Hs as [|? ? Hl Hb]; subst.
    destruct (cmp a b) eqn:E.
    + constructor; [now apply IH|].
      rewrite List.Forall_forall. intros c Hc.
      apply (Permutation_in _ (insertSorted_perm a l)) in Hc.
      destruct Hc as [<-|Hc].
      * apply Qnot_lt_le. rewrite <- cmp_lt. congruence.
      * rewrite List.Forall_forall in Hb. now apply Hb.
    + apply cmp_lt in E. constructor; [exact Hs|].
      constructor; [now apply Qlt_le_weak|].
      rewrite List.Forall_forall in *. intros c Hc.
      eapply Qle_trans; [apply Qlt_le_weak, E|now apply Hb].
    + constructor; [now apply IH|].
      rewrite List.Forall_forall. intros c Hc.
      apply (Permutation_in _ (insertSorted_perm a l)) in Hc.
      destruct Hc as [<-|Hc].
      * apply Qnot_lt_le. rewrite <- cmp_lt. congruence.
      * rewrite List.Forall_forall in Hb. now apply Hb.
Qed.

Lemma arraySort_sorted l : StronglySorted le_key (arraySort cmp l).
Proof.
  unfold arraySort.
  assert (H : forall acc, StronglySorted le_key acc ->
            StronglySorted le_key
              (fold_left (fun acc a => insertSorted cmp a acc) l acc)).
  { induction l as [|a l IH]; intros acc Hacc; cbn; [exact Hacc|].
    apply IH. now apply insertSorted_sorted. }
  apply H. constructor.
Qed.

End Sorting.


End SortFacts.

(** ** View, proximity and counting queries *)

Module ViewFacts.
Import Logic View MoreSpec.

Lemma compareViewDistance_lt d o1 o2 :
  compareViewDistance d o1 o2 = Lt
  <-> Qabs (x (data o1) - x d) < Qabs (x (data o2) - x d).
Proof.
  unfold compareViewDistance. rewrite <- Qlt_alt.
  split; intros H; lra.
Qed.

(** What [viewCollect] gathers. *)
Lemma viewCollect_spec objects keep :
  forall types acc results,
    viewCollect objects keep types acc = Normal results ->
    forall g, In g results <->
      In g acc
      \/ exists ty its, In ty types /\ objects !! ty = Some its
                        /\ In g its /\ keep (data g) = true.
Proof.
  induction types as [|ty types IH]; intros acc results H g; cbn in H.
  - inversion H; subst. split; [auto|]. intros [Hg|(ty & its & [] & _)]. exact Hg.
  - destruct (objects !! ty) as [its|] eqn:L; [|discriminate].
    rewrite (IH _ _ H g), in_app_iff, filter_In. split.
    + intros [[Hg|[Hg Hk]]|(ty' & its' & Hty & L' & Hg & Hk)].
      * now left.
      * right. exists ty, its. cbn. auto.
      * right. exists ty', its'. cbn. auto.
    + intros [Hg|(ty' & its' & [<-|Hty] & L' & Hg & Hk)].
      * auto.
      * rewrite L in L'. inversion L'; subst. auto.
      * right. exists ty', its'. auto.
Qed.

Lemma viewResults_sorted netActive objects d isHostile o results :
  viewResults netActive objects d isHostile o = Normal results ->
  StronglySorted
    (fun a b => Qabs (x (data a) - x d) <= Qabs (x (data b) - x d)) results.
Proof.
  unfold viewResults.
  destruct (viewCollect objects _ (viewItemArray o) []); [|discriminate].
  intros H. inversion H; subst.
  apply (SortFacts.arraySort_sorted (fun g => Qabs (x (data g) - x d))).
  apply compareViewDistance_lt.
Qed.

(** X8.  [objectsInView] returns exactly the units of the requested types
    that pass its filter - alive, not cloaked, not inert and strictly
    within the trigger distance of the source on the x axis - ordered by
    ascending horizontal distance from the source. *)
Theorem objectsInView_sound_and_sorted
    (netActive : bool) (objects : gmap string (list GameObject))
    (d : UnitData) (isHostile : bool) (o : ViewOptions)
    (results : list GameObject) :
  viewResults netActive objects d isHostile o = Normal results ->
  objectsInView netActive objects d isHostile o
    = Normal (map (fun g => id (data g)) results)
  /\ (forall g, In g results <->
        exists ty its, In ty (viewItemArray o) /\ objects !! ty = Some its
                       /\ In g its /\ inView netActive d isHostile o (data g) = true)
  /\ (forall g, In g results ->
        dead (data g) = false /\ cloaked (data g) = false
        /\ isInert (data g) = false
        /\ Qabs (x (data g) - x d) < viewDistance netActive o)
  /\ StronglySorted
       (fun a b => Qabs (x (data a) - x d) <= Qabs (x (data b) - x d)) results.
Proof.
  intros H. unfold objectsInView. rewrite H.
  unfold viewResults in H.
  destruct (viewCollect objects _ (viewItemArray o) []) as [found|] eqn:E;
    [|discriminate].
  inversion H; subst results. clear H.
  assert (Hin : forall g, In g (arraySort (compareViewDistance d) found) <->
            exists ty its, In ty (viewItemArray o) /\ objects !! ty = Some its
                           /\ In g its /\ inView netActive d isHostile o (data g) = true).
  { intros g. pose proof (viewCollect_spec _ _ _ _ _ E g) as Hc.
    split; intros Hg.
    - eapply Permutation_in in Hg; [|apply SortFacts.arraySort_perm].
      apply Hc in Hg as [[]|Hg]. exact Hg.
    - eapply Permutation_in; [symmetry; apply SortFacts.arraySort_perm|].
      apply Hc. now right. }
  split; [reflexivity|]. split; [exact Hin|]. split.
  - intros g Hg. apply Hin in Hg as (_ & _ & _ & _ & _ & Hv).
    unfold inView in Hv.
    apply andb_prop in Hv as [Hv _].
    apply andb_prop in Hv as [Hv Hd].
    apply andb_prop in Hv as [Hv Hi].
    apply andb_prop in Hv as [Hdead Hc].
    apply ltb_lt in Hd.
    repeat split; try exact Hd;
      [destruct (dead (data g))|destruct (cloaked (data g))
      |destruct (isInert (data g))]; auto; discriminate.
  - apply (viewResults_sorted netActive objects d isHostile o).
    unfold viewResults. now rewrite E.
Qed.

Lemma objectsInView_sound_and_sorted_witness :
  objectsInView false NearestSpec.skyScene (data NearestSpec.playerCopter) false
    (mkViewOptions None false false ItemsDefault)
  = Normal ["helicopter_2"].
Proof.
  apply (proj1 (objectsInView_sound_and_sorted false NearestSpec.skyScene
                  (data NearestSpec.playerCopter) false
                  (mkViewOptions None false false ItemsDefault)
                  [NearestSpec.enemyCopter] eq_refl)).
Defined.

(** The units that [objectsInView] keeps are those that pass its filter. *)
Lemma viewResults_members netActive objects d isHostile o results :
  viewResults netActive objects d isHostile o = Normal results ->
  forall g, In g results <->
    exists ty its, In ty (viewItemArray o) /\ objects !! ty = Some its
                   /\ In g its /\ inView netActive d isHostile o (data g) = true.
Proof.
  unfold viewResults.
  destruct (viewCollect objects _ (viewItemArray o) []) as [found|] eqn:E;
    [|discriminate].
  intros H g. inversion H; subst results. clear H.
  pose proof (viewCollect_spec _ _ _ _ _ E g) as Hc.
  split; intros Hg.
  - eapply Permutation_in in Hg; [|apply SortFacts.arraySort_perm].
    apply Hc in Hg as [[]|Hg]. exact Hg.
  - eapply Permutation_in; [symmetry; apply SortFacts.arraySort_perm|].
    apply Hc. now right.
Qed.

(** X9.  [objectInView] returns null when no unit passes the filter of
    [objectsInView]; when some unit passes, it returns the id of a unit
    that passes and is at least as close to the source on the x axis as
    every other unit that passes (or null, if that id is the empty string,
    which is falsy); and it returns no other id. *)
Theorem objectInView_nearest
    (netActive : bool) (objects : gmap string (list GameObject))
    (d : UnitData) (isHostile : bool) (o : ViewOptions)
    (results : list GameObject) :
  viewResults netActive objects d isHostile o = Normal results ->
  (results = [] <->
     forall ty its g, In ty (viewItemArray o) -> objects !! ty = Some its ->
                      In g its -> inView netActive d isHostile o (data g) = false)
  /\ (results = [] -> objectInView netActive objects d isHostile o = Normal None)
  /\ (forall g rest, results = g :: rest ->
        objectInView netActive objects d isHostile o
        = Normal (if String.eqb (id (data g)) "" then None else Some (id (data g)))
        /\ inView netActive d isHostile o (data g) = true
        /\ forall g', In g' results ->
             Qabs (x (data g) - x d) <= Qabs (x (data g') - x d))
  /\ (forall i, objectInView netActive objects d isHostile o = Normal (Some i) ->
        exists g, In g results /\ id (data g) = i
          /\ forall g', In g' results ->
                Qabs (x (data g) - x d) <= Qabs (x (data g') - x d)).
Proof.
  intros H. pose proof (viewResults_sorted _ _ _ _ _ _ H) as Hs.
  pose proof (viewResults_members _ _ _ _ _ _ H) as Hm.
  assert (Hnear : forall g rest, results = g :: rest ->
            forall g', In g' results ->
              Qabs (x (data g) - x d) <= Qabs (x (data g') - x d)).
  { intros g rest -> g' Hg'.
    inversion Hs as [|? ? _ Hall]; subst. rewrite List.Forall_forall in Hall.
    destruct Hg' as [<-|Hg']; [apply Qle_refl|now apply Hall]. }
  unfold objectInView, objectsInView. rewrite H.
  split; [|split; [|split]].
  - split.
    + intros -> ty its g Hty L Hg.
      destruct (inView netActive d isHostile o (data g)) eqn:E; [|reflexivity].
      exfalso. apply (proj2 (Hm g)). eauto 6.
    + intros Hnone. destruct results as [|g rest]; [reflexivity|].
      destruct (proj1 (Hm g) (or_introl eq_refl)) as (ty & its & Hty & L & Hg & Hv).
      rewrite (Hnone ty its g Hty L Hg) in Hv. discriminate.
  - intros ->. reflexivity.
  - intros g rest E. split; [|split].
    + rewrite E. reflexivity.
    + destruct (proj1 (Hm g)) as (_ & _ & _ & _ & _ & Hv); [|exact Hv].
      rewrite E. now left.
    + exact (Hnear g rest E).
  - intros i Hi. destruct results as [|g rest]; [discriminate|].
    cbn in Hi. destruct (String.eqb (id (data g)) ""); [discriminate|].
    inversion Hi; subst. exists g. split; [now left|]. split; [reflexivity|].
    exact (Hnear g rest eq_refl).
Qed.

(** A player helicopter with an opposing helicopter 48 away: its id is
    returned. *)
Lemma objectInView_nearest_witness :
  objectInView false NearestSpec.skyScene (data NearestSpec.playerCopter) false
    (mkViewOptions None false false ItemsDefault)
  = Normal (Some "helicopter_2").
Proof.
  exact (proj1 (proj1 (proj2 (proj2
           (objectInView_nearest false NearestSpec.skyScene
              (data NearestSpec.playerCopter) false
              (mkViewOptions None false false ItemsDefault)
              [NearestSpec.enemyCopter] eq_refl)))
           NearestSpec.enemyCopter [] eq_refl)).
Defined.

Lemma enemyNearbyLoop_spec objects d td :
  forall targets l,
    enemyNearbyLoop objects d td targets = Normal l ->
    (l = []
     /\ forall t its g, In t targets ->
          objects !! Global.propKey (Global.itype t) = Some its ->
          In g its -> isNearbyEnemy d td (data g) = false)
    \/ (exists g t its, l = [g] /\ isNearbyEnemy d td (data g) = true
          /\ In t targets
          /\ objects !! Global.propKey (Global.itype t) = Some its /\ In g its).
Proof.
  induction targets as [|t targets IH]; intros l H; cbn in H.
  - inversion H; subst. left. split; [reflexivity|]. intros t its g [].
  - destruct (objects !! Global.propKey (Global.itype t)) as [its|] eqn:L;
      [|discriminate].
    destruct (find _ its) as [g|] eqn:F.
    + inversion H; subst. apply find_some in F as [Hg Hn].
      right. exists g, t, its. cbn. auto 6.
    + destruct (IH _ H) as [[-> Hnone]|(g & t' & its' & -> & Hn & Ht & L' & Hg)].
      * left. split; [reflexivity|].
        intros t' its' g [<-|Ht] L' Hg.
        -- rewrite L in L'. inversion L'; subst.
           exact (find_none _ _ F g Hg).
        -- eauto.
      * right. exists g, t', its'. cbn. auto 6.
Qed.

(** X10.  [enemyNearby] returns at most one unit; a returned unit is on
    the other side, alive and strictly within the trigger distance on the
    x axis (the fixed network distance in a network game); and it returns
    the empty array only if no unit of the given types is. *)
Theorem enemyNearby_first_match
    (netActive : bool) (objects : gmap string (list GameObject))
    (d : UnitData) (targets : list Global.Item) (triggerDistance : option Q)
    (l : list GameObject) :
  enemyNearby netActive objects d targets triggerDistance = Normal l ->
  let td := if netActive then NET_TRIGGER_DISTANCE
            else match triggerDistance with Some t => t | None => 512 end in
  (length l <= 1)%nat
  /\ (forall g, In g l ->
        isEnemy (data g) <> isEnemy d /\ dead (data g) = false
        /\ Qabs (x (data g) - x d) < td)
  /\ (l = [] ->
      forall t its g, In t targets ->
        objects !! Global.propKey (Global.itype t) = Some its -> In g its ->
        isNearbyEnemy d td (data g) = false).
Proof.
  intros H td. unfold enemyNearby in H. fold td in H.
  apply enemyNearbyLoop_spec in H
    as [[-> Hnone]|(g & t & its & -> & Hn & Ht & L & Hg)].
  - split; [cbn; lia|]. split; [intros g []|]. intros _. exact Hnone.
  - split; [cbn; lia|]. split; [|discriminate].
    intros g' [<-|[]]. unfold isNearbyEnemy in Hn.
    apply andb_prop in Hn as [Hn Hd]. apply andb_prop in Hn as [He Hdead].
    apply ltb_lt in Hd. repeat split; try exact Hd.
    + destruct (isEnemy (data g)), (isEnemy d); cbn in He; congruence.
    + now destruct (dead (data g)).
Qed.

Lemma enemyNearby_first_match_witness :
  (length [NearestSpec.enemyCopter] <= 1)%nat.
Proof.
  apply (enemyNearby_first_match false NearestSpec.skyScene
           (data NearestSpec.playerCopter)
           [Global.mkItem (Global.PString T.helicopter) (Global.PString "enemy")] None
           [NearestSpec.enemyCopter]).
  reflexivity.
Defined.

Lemma leb_proper (a a' b b' : Q) : a == a' -> b == b' -> leb a b = leb a' b'.
Proof. intros Ha Hb. unfold leb. f_equal. now apply ltb_proper. Qed.

(** X11.  [isPointInCircle] does not change when point and centre are
    exchanged, nor when the radius changes sign; and the centre itself is
    inside for every radius. *)
Theorem isPointInCircle_symmetries (px py cx cy r : Q) :
  isPointInCircle px py cx cy r = isPointInCircle cx cy px py r
  /\ isPointInCircle px py cx cy r = isPointInCircle px py cx cy (- r)
  /\ isPointInCircle cx cy cx cy r = true.
Proof.
  unfold isPointInCircle. repeat split.
  - apply leb_proper; ring.
  - apply leb_proper; ring.
  - unfold leb. apply Bool.negb_true_iff, ltb_ge.
    nra.
Qed.

Lemma countSide_fold l inc its : forall r,
  let r' := fold_left (countSide l inc) its r in
  enemy r' = (enemy r + length (List.filter (countsAsEnemy l) its))%nat
  /\ friendly r'
     = (friendly r + length (List.filter (countsAsFriendly l inc) its))%nat.
Proof.
  induction its as [|g its IH]; intros r; cbn.
  - split; lia.
  - destruct (IH (countSide l inc r g)) as [He Hf]. rewrite He, Hf.
    unfold countSide, countsAsEnemy, countsAsFriendly.
    destruct (dead (data g)), inc,
             (negb (Bool.eqb (isEnemy (data g)) l) || hostile (data g));
      cbn; split; lia.
Qed.

Lemma sides_partition l inc its :
  (length (List.filter (countsAsFriendly l inc) its)
   + length (List.filter (countsAsEnemy l) its))%nat
  = if inc then length its
    else length (List.filter (fun g => negb (dead (data g))) its).
Proof.
  induction its as [|g its IH]; cbn; [now destruct inc|].
  unfold countsAsFriendly, countsAsEnemy in *.
  destruct (dead (data g)), inc,
           (negb (Bool.eqb (isEnemy (data g)) l) || hostile (data g));
    cbn in *; lia.
Qed.

(** X12.  [countSides] counts as enemy exactly the live units that are on
    the other side from the local player or hostile; friendly and enemy
    counts together are the number of live units, or of all units when the
    dead are included (a dead unit always counts as friendly). *)
Theorem countSides_totals
    (objects : gmap string (list GameObject)) (localIsEnemy : bool)
    (objectType : string) (includeDead : bool) (its : list GameObject) :
  objects !! objectType = Some its ->
  let r := countSides objects localIsEnemy objectType includeDead in
  enemy r = length (List.filter (countsAsEnemy localIsEnemy) its)
  /\ (friendly r + enemy r)%nat
     = if includeDead then length its
       else length (List.filter (fun g => negb (dead (data g))) its).
Proof.
  intros L r. unfold r, countSides. rewrite L.
  destruct (countSide_fold localIsEnemy includeDead its (mkSides 0 0)) as [He Hf].
  cbn in He, Hf. rewrite He, Hf. split; [reflexivity|].
  apply sides_partition.
Qed.

Lemma countSides_totals_witness :
  (friendly (countSides NearestSpec.skyScene false T.helicopter false)
   + enemy (countSides NearestSpec.skyScene false T.helicopter false))%nat
  = 2%nat.
Proof.
  apply (proj2 (countSides_totals NearestSpec.skyScene false T.helicopter false
                  [NearestSpec.playerCopter; NearestSpec.enemyCopter] eq_refl)).
Defined.

Lemma filter_none_forallb {A} (p : A -> bool) (l : list A) :
  length (List.filter p l) = 0%nat <-> forallb (fun a => negb (p a)) l = true.
Proof.
  induction l as [|a l IH]; cbn; [tauto|].
  destruct (p a); cbn; [split; [lia|discriminate]|exact IH].
Qed.

(** X13.  [playerOwnsBunkers] is true exactly when no bunker and no super
    bunker is both alive and on the other side (or hostile): destroyed
    bunkers count as owned. *)
Theorem playerOwnsBunkers_iff
    (objects : gmap string (list GameObject)) (localIsEnemy : bool)
    (bs sbs : list GameObject) :
  objects !! T.bunker = Some bs ->
  objects !! T.superBunker = Some sbs ->
  playerOwnsBunkers objects localIsEnemy
  = Normal (forallb (fun g => negb (countsAsEnemy localIsEnemy g)) (bs ++ sbs)).
Proof.
  intros Lb Ls. unfold playerOwnsBunkers, countFriendly, countSides.
  rewrite Lb, Ls. f_equal.
  destruct (countSide_fold localIsEnemy true bs (mkSides 0 0)) as [_ Hb].
  destruct (countSide_fold localIsEnemy true sbs (mkSides 0 0)) as [_ Hs].
  cbn in Hb, Hs. rewrite Hb, Hs.
  pose proof (sides_partition localIsEnemy true bs) as Pb.
  pose proof (sides_partition localIsEnemy true sbs) as Ps.
  cbn in Pb, Ps.
  apply Bool.eq_true_iff_eq.
  rewrite Nat.leb_le, <- filter_none_forallb, List.filter_app, length_app.
  lia.
Qed.

Lemma playerOwnsBunkers_iff_witness :
  playerOwnsBunkers
    (<[T.bunker := [NearestSpec.unitOf "bunker_1" T.bunker 2000 350 true true]]>
       NearestSpec.skyScene) false
  = Normal false.
Proof.
  apply (playerOwnsBunkers_iff
           (<[T.bunker := [NearestSpec.unitOf "bunker_1" T.bunker 2000 350 true true]]>
              NearestSpec.skyScene) false
           [NearestSpec.unitOf "bunker_1" T.bunker 2000 350 true true]
           [NearestSpec.enemyBunker]); reflexivity.
Defined.

End ViewFacts.

(** ** Target location, continued *)

Module NearestMoreFacts.
Import Logic NearestSpec MoreSpec.

(** What [candidateOf] lets through. *)
Lemma candidateOf_eligible sData o ng g c :
  candidateOf sData o ng g = Some c ->
  obj c = g /\ eligibleTarget sData (data g).
Proof.
  unfold candidateOf, eligibleTarget. intros H.
  destruct (Bool.eqb (isEnemy (data g)) (isEnemy sData) && negb (hostile (data g))
            || dead (data g) || cloaked (data g)) eqn:E1; [discriminate|].
  destruct (String_eqb (type (data g)) T.balloon && negb (hostile (data g))) eqn:E2;
    [discriminate|].
  destruct (String_eqb (type (data g)) T.van && _ && _); [discriminate|].
  destruct (negb (useInFront o) || isFacingTarget (data g) sData); [|discriminate].
  destruct (ignoreIntersect o && _); [discriminate|].
  destruct (gtb (Qabs (Qabs (x (data g)) - Qabs (x sData))) 3072) eqn:E3;
    [discriminate|].
  destruct (ng && _); [discriminate|].
  inversion H; subst. cbn. split; [reflexivity|].
  apply Bool.orb_false_elim in E1 as [E1 Hc].
  apply Bool.orb_false_elim in E1 as [Hs Hd].
  repeat split; try assumption.
  - destruct (isEnemy (data g)), (isEnemy sData), (hostile (data g));
      cbn in *; auto; discriminate.
  - intros Hb. unfold String_eqb in E2. rewrite Hb in E2. cbn in E2.
    now destruct (hostile (data g)).
  - apply ltb_ge. exact E3.
Qed.

Lemma collectCandidates_spec objects sData o ng :
  forall its acc found,
    collectCandidates objects sData o ng its acc = Normal found ->
    forall c, In c found ->
      In c acc
      \/ exists ty l g, objects !! ty = Some l /\ In g l
                        /\ candidateOf sData o ng g = Some c.
Proof.
  induction its as [|it its IH]; intros acc found H c Hc; cbn in H.
  - inversion H; subst. now left.
  - destruct (objects !! _) as [l|] eqn:L; [|discriminate].
    destruct (IH _ _ H c Hc) as [Hacc|Hex]; [|now right].
    apply in_app_iff in Hacc as [Hacc|Hnew]; [now left|].
    right. apply list_elem_of_In, list_elem_of_omap in Hnew as (g & Hg & Hcand).
    apply list_elem_of_In in Hg. eauto 6.
Qed.

Lemma sortedCandidates_eligible objects sData o sorted c :
  sortedCandidates objects sData o = Normal sorted ->
  In c sorted ->
  exists ty l, objects !! ty = Some l /\ In (obj c) l
               /\ eligibleTarget sData (data (obj c)).
Proof.
  unfold sortedCandidates. intros H Hc.
  destruct (match nearestItems o with Some its => _ | None => _ end)
    as [its|]; [|discriminate].
  destruct (collectCandidates objects sData o _ its []) as [found|] eqn:E;
    [|discriminate].
  inversion H; subst. clear H.
  eapply Permutation_in in Hc; [|apply SortFacts.arraySort_perm].
  destruct (collectCandidates_spec _ _ _ _ _ _ _ E c Hc)
    as [[]|(ty & l & g & L & Hg & Hcand)].
  apply candidateOf_eligible in Hcand as [<- He]. eauto.
Qed.

(** Every id that [pickNearest] returns is the id of one of the sorted
    candidates. *)
Lemma pickNearest_from_candidates sData o sorted :
  forall i,
    (pickNearest sData o sorted = NId i
     \/ exists l, pickNearest sData o sorted = NIds l /\ In i l) ->
    exists c, In c sorted /\ candId c = i.
Proof.
  intros i H. unfold pickNearest in H.
  destruct sorted as [|c0 sorted'].
  { destruct (negb (getAll o)); destruct H as [H|(l & H & Hi)];
      try discriminate. inversion H; subst. destruct Hi. }
  set (lo := if String_eqb (type sData) T.helicopter && isEnemy sData
             then rev (c0 :: sorted') else c0 :: sorted') in *.
  assert (Hlo : forall c, In c lo -> In c (c0 :: sorted')).
  { intros c. unfold lo. destruct (_ && _); [|auto].
    intros Hc. now apply in_rev in Hc. }
  destruct (negb (Nat.eqb (length lo) 0) && _ && _ && _).
  { destruct H as [H|(l & H & _)]; discriminate. }
  set (lo' := match lo with
              | c :: rest => if String_eqb (candType c) T.superBunker then rest else lo
              | [] => lo end) in *.
  assert (Hlo' : forall c, In c lo' -> In c lo).
  { intros c. unfold lo'. destruct lo as [|c1 rest]; [auto|].
    destruct (String_eqb (candType c1) T.superBunker); cbn; auto. }
  destruct (getAll o).
  - destruct H as [H|(l & H & Hi)]; [discriminate|].
    inversion H; subst. apply in_map_iff in Hi as (c & <- & Hc). eauto.
  - destruct H as [H|(l & H & _)].
    + destruct lo' as [|c rest]; [discriminate|].
      inversion H; subst. exists c. split; [|reflexivity].
      apply Hlo, Hlo'. now left.
    + destruct lo'; discriminate.
Qed.

(** X14.  Every id returned by [getNearestObject], alone or in the
    [getAll] array, is the id of a unit in [game.objects] that is alive, not
    cloaked, on the other side or hostile, not a balloon still attached to
    a bunker, and whose absolute x differs from the source's absolute x by
    at most 3072. *)
Theorem nearest_is_eligible
    (objects : gmap string (list GameObject)) (sData : UnitData)
    (o : NearestOptions) (i : string) :
  (getNearestObject objects sData o = Normal (NId i)
   \/ exists l, getNearestObject objects sData o = Normal (NIds l) /\ In i l) ->
  exists ty its g,
    objects !! ty = Some its /\ In g its /\ id (data g) = i
    /\ eligibleTarget sData (data g).
Proof.
  unfold getNearestObject. intros H.
  destruct (sortedCandidates objects sData o) as [sorted|] eqn:E.
  2:{ destruct H as [H|(l & H & _)]; discriminate. }
  destruct (pickNearest_from_candidates sData o sorted i) as (c & Hc & Hid).
  { destruct H as [H|(l & H & Hi)]; [left; congruence|].
    right. exists l. split; [congruence|exact Hi]. }
  destruct (sortedCandidates_eligible _ _ _ _ _ E Hc) as (ty & its & L & Hg & He).
  exists ty, its, (obj c). auto.
Qed.

Lemma nearest_is_eligible_witness :
  exists ty its g,
    skyScene !! ty = Some its /\ In g its /\ id (data g) = "helicopter_2"
    /\ eligibleTarget (data playerCopter) (data g).
Proof.
  apply (nearest_is_eligible skyScene (data playerCopter) noOptions "helicopter_2").
  left. vm_compute. reflexivity.
Defined.




End NearestMoreFacts.

(** ** Query construction, continued *)

Module GlobalMoreFacts.
Import Global GlobalSpec MoreSpec.

Local Open Scope string_scope.

Lemma delimLength_clean (c : ascii) (rest : string) :
  cleanChar c = true -> delimLength (String c rest) = None.
Proof.
  unfold cleanChar. intros H. apply andb_prop in H as [Hlt Hd].
  apply Nat.ltb_lt in Hlt. apply Bool.negb_true_iff in Hd.
  assert (Hb : forall n, (128 <= n)%nat -> byteIs c n = false).
  { intros n Hn. unfold byteIs. apply Nat.eqb_neq. lia. }
  unfold delimLength. rewrite Hd.
  destruct rest as [|c1 [|c2 r]]; [reflexivity| |].
  - now rewrite (Hb 194%nat) by lia.
  - rewrite (Hb 194%nat), (Hb 225%nat), (Hb 226%nat), (Hb 227%nat), (Hb 239%nat)
      by lia.
    reflexivity.
Qed.

Lemma normalizeDelims_token (tok s : string) :
  forall b, cleanToken tok ->
    normalizeDelims 0 b (tok ++ s) = tok ++ normalizeDelims 0 false s.
Proof.
  induction tok as [|c tok IH]; intros b [Hne Hclean]; [congruence|].
  change (normalizeDelims 0 b (String c (tok ++ s))
          = String c (tok ++ normalizeDelims 0 false s)).
  cbn [normalizeDelims].
  rewrite delimLength_clean by (apply Hclean; now left). f_equal.
  destruct tok as [|c' tok'].
  - reflexivity.
  - apply IH. split; [discriminate|]. intros a Ha. apply Hclean. now right.
Qed.

Lemma normalizeDelims_token_end (tok : string) :
  forall b, (forall c, In c (list_ascii_of_string tok) -> cleanChar c = true) ->
    normalizeDelims 0 b tok = tok.
Proof.
  induction tok as [|c tok IH]; intros b H; [reflexivity|].
  cbn [normalizeDelims].
  rewrite delimLength_clean by (apply H; now left). f_equal.
  apply IH. intros a Ha. apply H. now right.
Qed.

Lemma normalizeDelims_joined (toks : list string) :
  toks <> [] -> Forall cleanToken toks ->
  forall b, normalizeDelims 0 b (String.concat ", " toks) = String.concat " " toks.
Proof.
  induction toks as [|tok toks IH]; intros Hne Hall b; [congruence|].
  inversion Hall as [|? ? Htok Hrest]; subst.
  destruct toks as [|tok' toks'].
  - cbn. apply normalizeDelims_token_end. apply Htok.
  - change (String.concat ", " (tok :: tok' :: toks'))
      with (tok ++ ", " ++ String.concat ", " (tok' :: toks')).
    change (String.concat " " (tok :: tok' :: toks'))
      with (tok ++ " " ++ String.concat " " (tok' :: toks')).
    rewrite normalizeDelims_token by exact Htok. f_equal.
    change (", " ++ String.concat ", " (tok' :: toks'))
      with (String "," (String " " (String.concat ", " (tok' :: toks')))).
    change (" " ++ String.concat " " (tok' :: toks'))
      with (String " " (String.concat " " (tok' :: toks'))).
    change (normalizeDelims 0 false
              (String "," (String " " (String.concat ", " (tok' :: toks')))))
      with (String " " (normalizeDelims 0 true
                          (String.concat ", " (tok' :: toks')))).
    f_equal. apply IH; [discriminate|exact Hrest].
Qed.

Lemma no_space (tok : string) :
  cleanToken tok -> forall c, In c (list_ascii_of_string tok) -> c <> " "%char.
Proof.
  intros [_ H] c Hc ->. specialize (H _ Hc). discriminate H.
Qed.

Lemma splitOn_token (tok s : string) :
  (forall c, In c (list_ascii_of_string tok) -> c <> " "%char) ->
  splitOn " " (tok ++ " " ++ s) = tok :: splitOn " " s.
Proof.
  induction tok as [|c tok IH]; intros H.
  - reflexivity.
  - change (splitOn " " (String c (tok ++ " " ++ s)) = String c tok :: splitOn " " s).
    cbn [splitOn]. destruct (Ascii.eqb_spec c " ") as [E|E].
    + exfalso. apply (H c); [now left|exact E].
    + rewrite IH by (intros a Ha; apply H; now right). reflexivity.
Qed.

Lemma splitOn_token_end (tok : string) :
  (forall c, In c (list_ascii_of_string tok) -> c <> " "%char) ->
  splitOn " " tok = [tok].
Proof.
  induction tok as [|c tok IH]; intros H.
  - reflexivity.
  - cbn [splitOn]. destruct (Ascii.eqb_spec c " ") as [E|E].
    + exfalso. apply (H c); [now left|exact E].
    + rewrite IH by (intros a Ha; apply H; now right). reflexivity.
Qed.

Lemma splitOn_joined (toks : list string) :
  toks <> [] -> Forall cleanToken toks ->
  splitOn " " (String.concat " " toks) = toks.
Proof.
  induction toks as [|tok toks IH]; intros Hne Hall; [congruence|].
  inversion Hall as [|? ? Htok Hrest]; subst.
  destruct toks as [|tok' toks'].
  - cbn. apply splitOn_token_end. now apply no_space.
  - change (String.concat " " (tok :: tok' :: toks'))
      with (tok ++ " " ++ String.concat " " (tok' :: toks')).
    rewrite splitOn_token by (now apply no_space). f_equal.
    apply IH; [discriminate|exact Hrest].
Qed.

(** X16.  Round trip through the type-string syntax: a non-empty list of
    non-empty tokens, made of ASCII characters other than white space,
    commas and bars, joined with [", "], is parsed back to the same list
    by [parseTypeString]. *)
Theorem parseTypeString_joined (toks : list string) :
  toks <> [] -> Forall cleanToken toks ->
  parseTypeString (Some (String.concat ", " toks)) = toks.
Proof.
  intros Hne Hall. unfold parseTypeString.
  rewrite normalizeDelims_joined by assumption.
  now apply splitOn_joined.
Qed.

Lemma cleanToken_dec_spec (tok : string) :
  cleanTokenb tok = true -> cleanToken tok.
Proof.
  unfold cleanTokenb, cleanToken. intros H.
  apply andb_prop in H as [Hne Hall]. split.
  - intros ->. discriminate.
  - rewrite forallb_forall in Hall. exact Hall.
Qed.

Lemma parseTypeString_joined_witness :
  parseTypeString (Some (String.concat ", " ["tank"; "van"; "missileLauncher"]))
  = ["tank"; "van"; "missileLauncher"].
Proof.
  apply (parseTypeString_joined ["tank"; "van"; "missileLauncher"]).
  - discriminate.
  - repeat constructor; apply cleanToken_dec_spec; reflexivity.
Defined.

(** White space outside ASCII delimits too: a no-break space (U+00A0) and
    a line separator (U+2028), by their UTF-8 bytes. *)
Example parseTypeString_unicode_space :
  parseTypeString
    (Some ("tank"
           ++ String (ascii_of_nat 194) (String (ascii_of_nat 160) "van")
           ++ String (ascii_of_nat 226)
                (String (ascii_of_nat 128) (String (ascii_of_nat 168) "turret"))))
  = ["tank"; "van"; "turret"].
Proof. vm_compute. reflexivity. Qed.

(** X17.  Group resolution of [getTypes] for a source without a group
    option (or with group ['enemy']): every item built from a token without
    a [:group] override looks in the opposing side's array - ['friendly']
    when the source is an enemy or hostile, ['enemy'] otherwise - while a
    token [type:all] always gets ['all']. *)
Theorem getTypes_default_group
    (ts : string) (g : option string) (d : UnitData) (items : list Item) :
  g = None \/ g = Some "enemy" ->
  getTypes (Some ts)
    (OptionsObject (mkGetTypesOptions g (Some (ExportsData d)))) = Normal items ->
  forall n tok it,
    nth_error (parseTypeString (Some ts)) n = Some tok ->
    nth_error items n = Some it ->
    (contains ":" tok = false ->
       igroup it
       = PString (if (isEnemy d || hostile d)%bool then "friendly" else "enemy"))
    /\ (nth_error (splitOn ":" tok) 1 = Some "all" -> igroup it = PString "all").
Proof.
  intros Hg H n tok it Htok Hit.
  rewrite GlobalFacts.getTypes_object in H.
  assert (Ha : askedGroup (mkGetTypesOptions g (Some (ExportsData d))) = "enemy")
    by (destruct Hg as [-> | ->]; reflexivity).
  rewrite Ha in H. change (String.eqb "enemy" "all") with false in H.
  cbv iota in H. cbn [exports] in H.
  assert (Hd : determineGroup (Some "enemy") (Some (ExportsData d))
               = Normal (PString (if (isEnemy d || hostile d)%bool
                                  then "friendly" else "enemy"))).
  { unfold determineGroup. change (String.eqb "enemy" "all") with false. cbv iota.
    destruct (isEnemy d || hostile d)%bool; reflexivity. }
  rewrite Hd in H. cbn [bind] in H.
  apply GlobalFacts.mapM_Normal in H.
  assert (Hi : itemOf (Some (ExportsData d))
                 (PString (if (isEnemy d || hostile d)%bool
                           then "friendly" else "enemy")) tok = Normal it).
  { clear -H Htok Hit. revert n Htok Hit.
    induction H as [|a b l bs Hab _ IH]; intros n Htok Hit.
    - destruct n; discriminate.
    - destruct n as [|n]; cbn [nth_error] in *.
      + inversion Htok; inversion Hit; subst. exact Hab.
      + eapply IH; eassumption. }
  unfold itemOf in Hi. split.
  - intros Hc. rewrite Hc in Hi. injection Hi as <-. reflexivity.
  - intros Hall. destruct (contains ":" tok) eqn:Hc.
    + rewrite Hall in Hi.
      change (determineGroup (Some "all") (Some (ExportsData d)))
        with (Normal (PString "all")) in Hi.
      cbn [bind] in Hi. injection Hi as <-. reflexivity.
    + exfalso. clear -Hc Hall. revert Hall.
      assert (Hs : splitOn ":" tok = [tok]).
      { induction tok as [|c tok IH]; [reflexivity|].
        cbn [contains] in Hc. apply Bool.orb_false_elim in Hc as [Hc1 Hc2].
        cbn [splitOn]. rewrite Hc1. now rewrite (IH Hc2). }
      rewrite Hs. discriminate.
Qed.

Lemma getTypes_default_group_witness :
  igroup (mkItem (PString "tank") (PString "friendly")) = PString "friendly".
Proof.
  refine (proj1 (getTypes_default_group "tank, van:all" None
            (mkUnitData "h" T.helicopter 0 0 48 20 0 0 false false false false
               true false false false false false 0%Z None None
               (Some 0%Z) (Some 0%Z) false)
            [mkItem (PString "tank") (PString "friendly");
             mkItem (PString "van") (PString "all")]
            (or_introl eq_refl) eq_refl 0 "tank"
            (mkItem (PString "tank") (PString "friendly")) eq_refl eq_refl) eq_refl).
Defined.

(** X18.  The type table is closed under lookup: every value of [TYPES] is
    itself a key that maps to itself, and for every type name both the
    dash-case name and its camelCase form map to the dash-case name. *)
Theorem TYPES_closed :
  map_Forall (fun _ v => TYPES !! v = Some v) TYPES
  /\ Forall (fun t => TYPES !! t = Some t /\ TYPES !! camelCase t = Some t) typeNames.
Proof.
  split.
  - apply map_Forall_to_list, List.Forall_forall. intros [k v] Hin.
    assert (H : forallb (fun kv => bool_decide (TYPES !! snd kv = Some (snd kv)))
                        (map_to_list TYPES) = true) by (vm_compute; reflexivity).
    rewrite forallb_forall in H. specialize (H _ Hin). clear Hin.
    exact (bool_decide_eq_true_1 _ H).
  - apply List.Forall_forall. intros t Hin.
    assert (H : forallb (fun t => bool_decide (TYPES !! t = Some t)
                                  && bool_decide (TYPES !! camelCase t = Some t))
                        typeNames = true) by (vm_compute; reflexivity).
    rewrite forallb_forall in H. specialize (H _ Hin). clear Hin.
    apply andb_prop in H as [H1 H2].
    split; [exact (bool_decide_eq_true_1 _ H1)|exact (bool_decide_eq_true_1 _ H2)].
Qed.

End GlobalMoreFacts.

(** ** The seeded random number generator *)

Module RngFacts.
Import Rng MoreSpec.

Lemma mix_range (t : Z) : (0 <= mix t < two32)%Z.
Proof. unfold mix, toUint32. apply Z.mod_pos_bound. reflexivity. Qed.

Lemma unit_fraction (t : Z) :
  0 <= inject_Z (mix t) / inject_Z two32
  /\ inject_Z (mix t) / inject_Z two32 < 1.
Proof.
  pose proof (mix_range t) as [Hlo Hhi].
  assert (H32 : 0 < inject_Z two32) by reflexivity.
  split.
  - apply Qle_shift_div_l; [exact H32|]. rewrite Qmult_0_l.
    change 0 with (inject_Z 0). now rewrite <- Zle_Qle.
  - apply Qlt_shift_div_r; [exact H32|]. rewrite Qmult_1_l.
    now rewrite <- Zlt_Qlt.
Qed.

(** The value of [rng] is [number] times a fraction made from one seed. *)
Lemma rng_value number type seedOffset s :
  exists t,
    fst (rng number type seedOffset s)
    = (match number with Some n => n | None => 1 end)
      * (inject_Z (mix t) / inject_Z two32).
Proof.
  unfold rng.
  destruct (match match truthyType type with Some ty => _ | None => _ end
            with Some (ty, z) => _ | None => _ end) as [t s'].
  exists t. reflexivity.
Qed.

(** X19.  [rng(number)] lies between 0 and [number]: for [number] at
    least 0 it is at least 0 and at most [number]; and [rng()] is at least 0
    and strictly below 1. *)
Theorem rng_range (number : Q) (type : option string) (seedOffset : option Z)
    (s : Seeds) :
  0 <= number ->
  0 <= fst (rng (Some number) type seedOffset s)
  /\ fst (rng (Some number) type seedOffset s) <= number
  /\ 0 <= fst (rng None type seedOffset s) < 1.
Proof.
  intros Hn.
  destruct (rng_value (Some number) type seedOffset s) as [t ->].
  destruct (rng_value None type seedOffset s) as [t1 ->].
  pose proof (unit_fraction t) as [Hlo Hhi].
  pose proof (unit_fraction t1) as [Hlo1 Hhi1].
  set (f := inject_Z (mix t) / inject_Z two32) in *.
  set (f1 := inject_Z (mix t1) / inject_Z two32) in *.
  repeat split; try nra.
Qed.

Lemma rng_range_witness :
  0 <= fst (rng (Some 1000) (Some "helicopter") None
              (mkSeeds 12345 12345 [12345%Z] ∅)).
Proof.
  exact (proj1 (rng_range 1000 (Some "helicopter") None
                  (mkSeeds 12345 12345 [12345%Z] ∅) ltac:(discriminate))).
Defined.

(** A draw for a named type, with a non-zero default seed, uses and
    advances that type's seed and nothing else. *)
Lemma rng_by_type number ty seedOffset s :
  ty <> EmptyString -> defaultSeed s <> 0%Z ->
  rng number (Some ty) seedOffset s
  = ((match number with Some n => n | None => 1 end)
     * (inject_Z (mix (addIncrement (typeSeed s ty))) / inject_Z two32),
     mkSeeds (seed s) (defaultSeed s) (defaultSeeds s)
             (<[ty := addIncrement (typeSeed s ty)]> (seedsByType s))).
Proof.
  intros Hty Hds. unfold rng, typeSeed, truthyType.
  apply String.eqb_neq in Hty. rewrite Hty.
  apply Z.eqb_neq in Hds.
  destruct (seedsByType s !! ty) as [z|] eqn:L; cbn [truthySeed].
  - destruct (Z.eqb z 0) eqn:Ez; cbn [negb seedsByType].
    + rewrite lookup_insert_eq, Hds. cbn [seed defaultSeed defaultSeeds seedsByType].
      now rewrite insert_insert_eq.
    + rewrite L, Ez. reflexivity.
  - cbn [seedsByType]. rewrite lookup_insert_eq, Hds.
    cbn [seed defaultSeed defaultSeeds seedsByType].
    now rewrite insert_insert_eq.
Qed.

(** X20.  The per-type streams are independent: with a non-zero default
    seed, a draw for type [a] changes neither the global seed nor the
    offset seeds, and does not change the value that the next draw for a
    different type [b] returns. *)
Theorem rng_streams_independent
    (m n : option Q) (a b : string) (so so' : option Z) (s : Seeds) :
  a <> EmptyString -> b <> EmptyString -> a <> b -> defaultSeed s <> 0%Z ->
  let s' := snd (rng m (Some a) so s) in
  seed s' = seed s
  /\ defaultSeeds s' = defaultSeeds s
  /\ fst (rng n (Some b) so' s') = fst (rng n (Some b) so' s).
Proof.
  intros Ha Hb Hab Hds. cbn zeta.
  rewrite (rng_by_type m a so s Ha Hds). cbn [snd].
  split; [reflexivity|]. split; [reflexivity|].
  rewrite !rng_by_type by assumption. cbn [fst].
  unfold typeSeed. cbn [seedsByType defaultSeed].
  now rewrite lookup_insert_ne.
Qed.

Lemma rng_streams_independent_witness :
  fst (rng None (Some "tank") None
         (snd (rng None (Some "helicopter") None (mkSeeds 7 7 [7%Z] ∅))))
  = fst (rng None (Some "tank") None (mkSeeds 7 7 [7%Z] ∅)).
Proof.
  apply (rng_streams_independent None None "helicopter" "tank" None None
           (mkSeeds 7 7 [7%Z] ∅)); discriminate.
Defined.





(** Beyond 2^53 the seed no longer takes the exact sum: 2^53 - 1 plus two
    increments is rounded to an even number. *)
Example addIncrement_rounds :
  addIncrement (addIncrement 9007199254740991) = 9007202917872616%Z
  /\ (9007199254740991 + 2 * increment = 9007202917872617)%Z.
Proof. vm_compute. split; reflexivity. Qed.

End RngFacts.

(** ** Helicopter AI, continued *)

Module AIMoreFacts.
Import HelicopterAI LedgerSpec MoreSpec.




Section Ledger.

Variable lc : LevelConfig.

Local Abbreviation key := (getBombTargetID lc).
Local Abbreviation ledger := bombsByTarget.

Lemma addBomb_times k n : forall st e,
  ledger st !! k = Some e ->
  forall t, key t = k ->
    exists tm, ledger (times n (addBomb lc t) st) !! k
               = Some (mkBombEntry (bombCount e + Z.of_nat n) (bombLimit e) tm)
    /\ forall k', k' <> k ->
         ledger (times n (addBomb lc t) st) !! k' = ledger st !! k'.
Proof.
  induction n as [|n IH]; intros st e L t Hk.
  - exists (timer e). cbn. rewrite Z.add_0_r. split; [|reflexivity].
    rewrite L. now destruct e.
  - cbn [times].
    assert (L1 : ledger (addBomb lc t st) !! k
                 = Some (mkBombEntry (bombCount e + 1) (bombLimit e) None)).
    { unfold addBomb. rewrite Hk, L. destruct (timer e); cbn; apply lookup_insert_eq. }
    assert (O1 : forall k', k' <> k ->
                   ledger (addBomb lc t st) !! k' = ledger st !! k').
    { intros k' Hne. unfold addBomb. rewrite Hk, L.
      destruct (timer e); cbn; now apply lookup_insert_ne. }
    destruct (IH _ _ L1 t Hk) as (tm & Ln & On). exists tm. split.
    + rewrite Ln. cbn. f_equal. f_equal. lia.
    + intros k' Hne. rewrite On by exact Hne. now apply O1.
Qed.

Lemma removeBomb_times k n : forall st e,
  ledger st !! k = Some e -> bombCount e = Z.of_nat n -> (0 < n)%nat ->
  forall t, key t = k ->
    ledger (times n (removeBomb lc t) st) !! k = None
    /\ forall k', k' <> k ->
         ledger (times n (removeBomb lc t) st) !! k' = ledger st !! k'.
Proof.
  induction n as [|n IH]; intros st e L Hc Hn t Hk; [lia|].
  cbn [times].
  assert (O1 : forall k', k' <> k ->
                 ledger (removeBomb lc t st) !! k' = ledger st !! k').
  { intros k' Hne. apply LedgerFacts.removeBomb_other. congruence. }
  destruct n as [|n].
  - cbn [times]. split; [|exact O1].
    unfold removeBomb. rewrite Hk, L.
    replace (Z.max 0 (bombCount e - 1)) with 0%Z by lia. cbn.
    apply lookup_delete_eq.
  - assert (L1 : ledger (removeBomb lc t st) !! k
                 = Some (mkBombEntry (Z.of_nat (S n)) (bombLimit e) (timer e))).
    { unfold removeBomb. rewrite Hk, L.
      replace (Z.max 0 (bombCount e - 1)) with (Z.of_nat (S n)) by lia.
      destruct (Z.eqb_spec (Z.of_nat (S n)) 0) as [E|E]; [lia|].
      cbn. apply lookup_insert_eq. }
    destruct (IH _ _ L1 eq_refl ltac:(lia) t Hk) as [Ln On].
    split; [exact Ln|]. intros k' Hne. rewrite On by exact Hne. now apply O1.
Qed.

End Ledger.

(** X23.  Ledger round trip: for a target that is not a turret and has no
    entry, [canBombTarget] followed by [n] [addBomb] calls and then [n]
    [removeBomb] calls, [n] at least 1, leaves no entry for the target and
    every other entry as it was. *)
Theorem ledger_round_trip
    (lc : LevelConfig) (d : UnitData) (st : AI) (n : nat) :
  isTurret d = false ->
  bombsByTarget st !! getBombTargetID lc (Some d) = None ->
  (0 < n)%nat ->
  let st' := times n (removeBomb lc (Some d))
               (times n (addBomb lc (Some d))
                  (snd (canBombTarget lc (Some d) st))) in
  bombsByTarget st' !! getBombTargetID lc (Some d) = None
  /\ forall k, bombsByTarget st' !! k = bombsByTarget st !! k.
Proof.
  intros Ht L Hn. cbn zeta.
  set (k := getBombTargetID lc (Some d)) in *.
  set (st0 := snd (canBombTarget lc (Some d) st)).
  assert (L0 : bombsByTarget st0 !! k = Some (newEntry d)).
  { unfold st0, canBombTarget. fold (isTurret d). rewrite Ht. fold k. rewrite L.
    destruct (bombLimit (newEntry d) <=? bombCount (newEntry d))%Z;
      cbn; apply lookup_insert_eq. }
  assert (O0 : forall k', k' <> k -> bombsByTarget st0 !! k' = bombsByTarget st !! k').
  { intros k' Hne. unfold st0, canBombTarget. fold (isTurret d). rewrite Ht.
    fold k. rewrite L.
    destruct (bombLimit (newEntry d) <=? bombCount (newEntry d))%Z;
      cbn; now apply lookup_insert_ne. }
  destruct (addBomb_times lc k n st0 (newEntry d) L0 (Some d) eq_refl)
    as (tm & La & Oa).
  destruct (removeBomb_times lc k n _ _ La ltac:(cbn; lia) Hn (Some d) eq_refl)
    as [Lr Or].
  split; [exact Lr|].
  intros k'. destruct (String.eqb_spec k' k) as [->|Hne].
  - now rewrite Lr, L.
  - now rewrite Or, Oa, O0.
Qed.

Lemma ledger_round_trip_witness :
  bombsByTarget
    (times 3 (removeBomb level (Some tank1))
       (times 3 (addBomb level (Some tank1))
          (snd (canBombTarget level (Some tank1) (initAI cpu)))))
    !! "tank_12" = None.
Proof.
  apply (ledger_round_trip level tank1 (initAI cpu) 3); [reflexivity|reflexivity|lia].
Defined.

(** X24.  A pending clear is never extended: calling [clearBombWithDelay]
    again for the same target, with any delay, changes nothing. *)
Theorem clearBombWithDelay_idempotent
    (lc : LevelConfig) (t : option UnitData) (d1 d2 : option Z) (st : AI) :
  clearBombWithDelay lc t d2 (clearBombWithDelay lc t d1 st)
  = clearBombWithDelay lc t d1 st.
Proof.
  unfold clearBombWithDelay at 2.
  destruct (bombsByTarget st !! getBombTargetID lc t) as [e|] eqn:L.
  - destruct (timer e) eqn:Tm.
    + unfold clearBombWithDelay. now rewrite L, Tm.
    + cbn. unfold clearBombWithDelay. cbn.
      rewrite lookup_insert_eq, L, Tm. reflexivity.
  - unfold clearBombWithDelay. now rewrite L.
Qed.

(** X25.  A fresh [addBomb] cancels the scheduled removal: if no other
    clear timer for the target's key is pending, then after
    [clearBombWithDelay] followed by [addBomb] the entry survives any lapse
    of time, with the new bomb counted. *)
Theorem addBomb_cancels_clear
    (lc : LevelConfig) (t : option UnitData) (delay : option Z) (st : AI)
    (e : BombEntry) (dt : Z) :
  bombsByTarget st !! getBombTargetID lc t = Some e ->
  timer e = None ->
  existsb (deletesKey (getBombTargetID lc t)) (pending (timers st)) = false ->
  bombsByTarget (advance dt (addBomb lc t (clearBombWithDelay lc t delay st)))
    !! getBombTargetID lc t
  = Some (mkBombEntry (bombCount e + 1) (bombLimit e) None).
Proof.
  intros L Tm Hp. set (k := getBombTargetID lc t) in *.
  rewrite LedgerFacts.advance_key.
  unfold clearBombWithDelay. fold k. rewrite L, Tm. cbn.
  unfold addBomb. fold k. cbn. rewrite lookup_insert_eq. cbn.
  rewrite lookup_insert_eq.
  match goal with |- (if ?c then _ else _) = _ => assert (Hc : c = false) end.
  { unfold resetTimer. cbn. rewrite List.filter_app. cbn.
    rewrite Nat.eqb_refl. cbn. rewrite app_nil_r.
    apply Bool.not_true_iff_false. intros Hex.
    apply existsb_exists in Hex as (tm & Hin & Hd).
    apply filter_In in Hin as [Hin _].
    apply andb_prop in Hd as [_ Hd].
    assert (existsb (deletesKey k) (pending (timers st)) = true)
      by (apply existsb_exists; eauto).
    congruence. }
  now rewrite Hc.
Qed.

Lemma addBomb_cancels_clear_witness :
  bombsByTarget
    (advance 100000
       (addBomb level (Some tank1)
          (clearBombWithDelay level (Some tank1) None
             (bombRound level tank1 (initAI cpu)))))
    !! "tank_12"
  = Some (mkBombEntry 2 3 None).
Proof.
  apply (addBomb_cancels_clear level (Some tank1) None
           (bombRound level tank1 (initAI cpu)) (mkBombEntry 1 3 None) 100000);
    reflexivity.
Defined.

(** X26.  With napalm, infantry and engineers share one ledger entry: once
    a bomb is counted for one of them, [canBombTarget] refuses every other
    infantry or engineer, whatever its id. *)
Theorem men_share_one_quota (lc : LevelConfig) (a b : UnitData) (st : AI) :
  bNapalm lc = true ->
  (type a = T.infantry \/ type a = T.engineer) ->
  (type b = T.infantry \/ type b = T.engineer) ->
  bombsByTarget st !! "men" = None ->
  fst (canBombTarget lc (Some a) st) = JTrue
  /\ fst (canBombTarget lc (Some b) (bombRound lc a st)) = JUndefined.
Proof.
  intros Hn Ha Hb L.
  assert (Ka : getBombTargetID lc (Some a) = "men")
    by (unfold getBombTargetID; rewrite Hn; destruct Ha as [-> | ->]; reflexivity).
  assert (Kb : getBombTargetID lc (Some b) = "men")
    by (unfold getBombTargetID; rewrite Hn; destruct Hb as [-> | ->]; reflexivity).
  assert (Ta : isTurret a = false)
    by (unfold isTurret; destruct Ha as [-> | ->]; reflexivity).
  assert (Tb : isTurret b = false)
    by (unfold isTurret; destruct Hb as [-> | ->]; reflexivity).
  assert (La : bombLimit (newEntry a) = 1%Z)
    by (unfold newEntry; destruct Ha as [-> | ->]; reflexivity).
  rewrite <- Ka in L.
  destruct (LedgerFacts.bombRound_opens lc a st Ta L) as [G La1].
  split; [exact G|].
  apply LedgerFacts.canBombTarget_refused; [exact Tb|].
  rewrite Kb, <- Ka. eexists. split; [exact La1|].
  cbn [bombLimit bombCount]. rewrite La. lia.
Qed.

Lemma men_share_one_quota_witness :
  fst (canBombTarget (mkLevelConfig true true)
         (Some (unit0 "engineer_9" T.engineer 500 370 10 11))
         (bombRound (mkLevelConfig true true)
            (unit0 "infantry_3" T.infantry 480 370 10 11) (initAI cpu)))
  = JUndefined.
Proof.
  apply (men_share_one_quota (mkLevelConfig true true)
           (unit0 "infantry_3" T.infantry 480 370 10 11)
           (unit0 "engineer_9" T.engineer 500 370 10 11) (initAI cpu));
    [reflexivity|now left|now right|reflexivity].
Defined.

(** X27.  [removeBomb] does not cancel a pending clear timer: when the
    last counted bomb of an entry with a scheduled clear is removed, the
    timer stays, and when it expires it deletes the entry that a later
    round has opened for the same target, although that bomb is still
    counted. *)
Theorem removeBomb_keeps_clear_timer
    (lc : LevelConfig) (d : UnitData) (st : AI) (e : BombEntry) (delay : Z) :
  isTurret d = false ->
  bombsByTarget st !! getBombTargetID lc (Some d) = Some e ->
  bombCount e = 1%Z ->
  timer e = None ->
  let k := getBombTargetID lc (Some d) in
  let st1 := removeBomb lc (Some d) (clearBombWithDelay lc (Some d) (Some delay) st) in
  let st2 := bombRound lc d st1 in
  bombsByTarget st1 !! k = None
  /\ (exists e2, bombsByTarget st2 !! k = Some e2 /\ bombCount e2 = 1%Z)
  /\ bombsByTarget (advance delay st2) !! k = None.
Proof.
  intros Ht L Hc Tm k st1 st2. fold k in L.
  assert (E1 : st1 = mkAI (hdata st) (delete k (<[k := mkBombEntry (bombCount e) (bombLimit e) (Some (nextHandle (timers st)))]> (bombsByTarget st)))
                 (mkScheduler (now (timers st)) (S (nextHandle (timers st)))
                    (pending (timers st)
                     ++ [mkTimer (nextHandle (timers st)) (now (timers st) + delay)
                                 (DeleteBombsByTarget k)]))).
  { unfold st1, clearBombWithDelay. fold k. rewrite L, Tm. cbn.
    unfold removeBomb. fold k. cbn. rewrite lookup_insert_eq. cbn.
    rewrite Hc. reflexivity. }
  assert (L1 : bombsByTarget st1 !! k = None)
    by (rewrite E1; cbn; apply lookup_delete_eq).
  destruct (LedgerFacts.bombRound_opens lc d st1 Ht L1) as [_ L2]. fold st2 k in L2.
  assert (T2 : timers st2 = timers st1).
  { unfold st2, bombRound, canBombTarget. fold (isTurret d). rewrite Ht.
    fold k. rewrite L1.
    destruct (bombLimit (newEntry d) <=? bombCount (newEntry d))%Z; cbn;
      unfold addBomb; fold k; cbn; rewrite lookup_insert_eq; reflexivity. }
  split; [exact L1|]. split; [eexists; split; [exact L2|reflexivity]|].
  rewrite LedgerFacts.advance_key, T2, E1. cbn.
  rewrite existsb_app. cbn. unfold isDue, deletesKey. cbn.
  rewrite String.eqb_refl, Z.leb_refl. cbn. now rewrite Bool.orb_true_r.
Qed.

Lemma removeBomb_keeps_clear_timer_witness :
  bombsByTarget
    (advance 2500
       (bombRound level van1
          (removeBomb level (Some van1)
             (clearBombWithDelay level (Some van1) (Some 2500%Z)
                (bombRound level van1 (initAI cpu))))))
    !! "van_4" = None.
Proof.
  apply (removeBomb_keeps_clear_timer level van1
           (bombRound level van1 (initAI cpu)) (mkBombEntry 1 1 None) 2500);
    reflexivity.
Defined.

End AIMoreFacts.
